(** * bpvo: the photometric error kernel (bpvo/photo_error.cc)

    A shallow embedding of [PhotoError::Impl], of the public [PhotoError]
    wrapper, and of the variant of [init] that the file keeps under
    [PHOTO_ERROR_WITH_OPENCV].

    - single-precision numbers are IEEE binary32 values, computed with the
      Standard Library's executable specification of floating point;
    - the SSE intrinsics the kernel uses are functions on four-lane vectors;
    - raw pointers are an address together with the array they point to; an
      access outside the array is undefined behaviour in C++ and is a [Fault]
      here, and every index at which the target image is dereferenced is
      logged;
    - the preprocessor symbols [WITH_SIMD] and [__SSE4_1__] are the two
      booleans of [Section Build];
    - [projectPoints], which [init] calls, is defined outside
      photo_error.cc: [init] takes it as a parameter, and
      [projectPoints_spec] is what the specification says of it.

    The definitions come first; the proofs follow: the kernel under its
    precondition, the properties of [run] and [init], and, for the
    interpolation weights, the rounding of binary32 arithmetic on the unit
    interval. *)

From Stdlib Require Import ZArith Bool Lia QArith Qabs Qpower Lqa.
From Stdlib Require Import Floats.SpecFloat.
From stdpp Require Import base list.

Local Open Scope Z_scope.

(** ** Single precision *)

Definition prec : Z := 24.
Definition emax : Z := 128.

Definition float : Type := spec_float.

(** [0.0f] *)
Definition fzero : float := S754_zero false.
(** [1.f] *)
Definition fone : float := SFone prec emax.

Definition fadd : float -> float -> float := SFadd prec emax.
Definition fsub : float -> float -> float := SFsub prec emax.
Definition fmul : float -> float -> float := SFmul prec emax.
Definition fdiv : float -> float -> float := SFdiv prec emax.

(** The binary32 number nearest to [m * 2^e]; used to write literals. *)
Definition f32 (m e : Z) : float := binary_normalize prec emax m e false.

#[global] Instance float_inhabited : Inhabited float := populate fzero.

(** ** 32-bit [int] *)

Definition INT_MIN : Z := - 2 ^ 31.
Definition INT_MAX : Z := 2 ^ 31 - 1.

(** Conversion of a [size_t] to [int], as in [int num_points = v.size()]:
    the value is reduced modulo 2^32 into the signed range. *)
Definition int_of_size (n : nat) : Z :=
  (Z.of_nat n + 2 ^ 31) mod 2 ^ 32 - 2 ^ 31.

(** ** The SSE intrinsics of the kernel *)

(** [__m128]: four packed floats, lane 0 first.  [_mm_setr_ps a b c d] puts
    [a] in lane 0, so the intrinsic is the constructor. *)
Record __m128 : Type := _mm_setr_ps { e0 : float; e1 : float; e2 : float; e3 : float }.

#[global] Instance m128_inhabited : Inhabited __m128 :=
  populate (_mm_setr_ps fzero fzero fzero fzero).

Definition lane (v : __m128) (k : Z) : float :=
  if k =? 0 then e0 v else if k =? 1 then e1 v else if k =? 2 then e2 v else e3 v.

Definition _mm_set1_ps (a : float) : __m128 := _mm_setr_ps a a a a.

Definition _mm_sub_ps (a b : __m128) : __m128 :=
  _mm_setr_ps (fsub (e0 a) (e0 b)) (fsub (e1 a) (e1 b))
              (fsub (e2 a) (e2 b)) (fsub (e3 a) (e3 b)).

Definition _mm_mul_ps (a b : __m128) : __m128 :=
  _mm_setr_ps (fmul (e0 a) (e0 b)) (fmul (e1 a) (e1 b))
              (fmul (e2 a) (e2 b)) (fmul (e3 a) (e3 b)).

(** Horizontal add (SSE3): sums of adjacent pairs, [a]'s first. *)
Definition _mm_hadd_ps (a b : __m128) : __m128 :=
  _mm_setr_ps (fadd (e0 a) (e1 a)) (fadd (e2 a) (e3 a))
              (fadd (e0 b) (e1 b)) (fadd (e2 b) (e3 b)).

(** [_MM_SHUFFLE(z, y, x, w)] *)
Definition _MM_SHUFFLE (z y x w : Z) : Z :=
  Z.lor (Z.lor (Z.shiftl z 6) (Z.shiftl y 4)) (Z.lor (Z.shiftl x 2) w).

(** Lanes 0 and 1 come from [a], lanes 2 and 3 from [b], each selected by
    two bits of the immediate. *)
Definition _mm_shuffle_ps (a b : __m128) (imm8 : Z) : __m128 :=
  _mm_setr_ps (lane a (Z.land imm8 3))
              (lane a (Z.land (Z.shiftr imm8 2) 3))
              (lane b (Z.land (Z.shiftr imm8 4) 3))
              (lane b (Z.land (Z.shiftr imm8 6) 3)).

(** Dot product (SSE4.1).  Bits 4..7 of the immediate select the products
    that enter the sum, bits 0..3 the lanes that receive it; the products are
    summed in pairs, [(p0 + p1) + (p2 + p3)]. *)
Definition _mm_dp_ps (a b : __m128) (imm8 : Z) : __m128 :=
  let p (k : Z) (x y : float) := if Z.testbit imm8 (4 + k) then fmul x y else fzero in
  let s := fadd (fadd (p 0 (e0 a) (e0 b)) (p 1 (e1 a) (e1 b)))
                (fadd (p 2 (e2 a) (e2 b)) (p 3 (e3 a) (e3 b))) in
  let d (k : Z) := if Z.testbit imm8 k then s else fzero in
  _mm_setr_ps (d 0) (d 1) (d 2) (d 3).

(** [_mm_store_ss(&ret, v)] stores lane 0. *)
Definition _mm_store_ss (v : __m128) : float := e0 v.

(** ** Eigen's four-vector *)

(** [Eigen::Matrix<float,4,1>] holds four floats like [__m128], and
    [_mm_load_ps(v.data())] reads them in order: one record serves for both. *)
Definition Vector4 : Type := __m128.

(** [a.dot(b)] of Eigen, which is not part of this repository.  The kernel's
    own comment describes it: "EIGEN uses 2 applications of hadd after mul". *)
Definition Vector4_dot (a b : Vector4) : float :=
  let t0 := _mm_mul_ps a b in
  let t1 := _mm_hadd_ps t0 t0 in
  let t2 := _mm_hadd_ps t1 t1 in
  e0 t2.

(** ** Memory: faults and the log of image reads *)

Inductive fault : Type :=
| I1_out_of_bounds (idx : Z)     (* a read of the target image outside its buffer *)
| I0_out_of_bounds (idx : Z)     (* a read of the reference intensities outside theirs *)
| r_out_of_bounds (idx : Z)      (* a write outside the residual buffer *)
| impl_out_of_bounds (idx : Z)   (* [_inds], [_interp_coeffs] or [_valid_ptr] outside their size *)
| misaligned (address : Z)       (* an aligned load or store at an address not a multiple of 16 *)
| out_of_fuel.

Inductive outcome (A : Type) : Type :=
| Ok (a : A)
| Fault (f : fault).
Arguments Ok {A} a.
Arguments Fault {A} f.

(** A computation yields the indices of the target image it dereferenced, in
    order, and its outcome. *)
Definition M (A : Type) : Type := (list Z * outcome A)%type.

Definition ret {A} (a : A) : M A := ([], Ok a).
Definition raise {A} (f : fault) : M A := ([], Fault f).

Definition bind {A B} (m : M A) (k : A -> M B) : M B :=
  match snd m with
  | Ok a => (fst m ++ fst (k a), snd (k a))
  | Fault f => (fst m, Fault f)
  end.

Notation "'let*' x ':=' m 'in' k" := (bind m (fun x => k))
  (at level 10, x pattern, m at level 100, k at level 200).

(** Indexing by an [int]: nothing lives at a negative index. *)
Definition rdZ {A} (l : list A) (i : Z) : option A :=
  if 0 <=? i then l !! Z.to_nat i else None.

Definition read {A} (flt : Z -> fault) (l : list A) (i : Z) : M A :=
  match rdZ l i with
  | Some a => ret a
  | None => raise (flt i)
  end.

(** A dereference of the target image: logged, then checked. *)
Definition read_I1 (I1 : list float) (i : Z) : M float :=
  match rdZ I1 i with
  | Some a => ([i], Ok a)
  | None => ([i], Fault (I1_out_of_bounds i))
  end.

(** A [float*]: its address and the floats from that address on. *)
Record float_ptr : Type := { addr : Z; data : list float }.

(** Modelled from the spec: [simd::isAligned<N>] is declared in bpvo/simd.h,
    which is not among the sources; as its name says and as its use to guard
    the aligned loads and stores requires, it tests that the address is a
    multiple of [N]. *)
Definition isAligned (N : Z) (p : float_ptr) : bool := addr p mod N =? 0.

(** Address of [p + i] for a [float*] [p]. *)
Definition address_of (p : float_ptr) (i : Z) : Z := addr p + 4 * i.

Definition check_aligned (p : float_ptr) (i : Z) : M unit :=
  if address_of p i mod 16 =? 0 then ret tt else raise (misaligned (address_of p i)).

(** [_mm_loadu_ps(p + i)]: four consecutive floats. *)
Definition _mm_loadu_ps (rd : Z -> M float) (i : Z) : M __m128 :=
  let* a := rd i in
  let* b := rd (i + 1) in
  let* c := rd (i + 2) in
  let* d := rd (i + 3) in
  ret (_mm_setr_ps a b c d).

(** [_mm_load_ps(p + i)]: the same, and the address must be 16-byte aligned. *)
Definition _mm_load_ps (p : float_ptr) (rd : Z -> M float) (i : Z) : M __m128 :=
  let* _ := check_aligned p i in
  _mm_loadu_ps rd i.

(** [_mm_storeu_ps(r_ptr + i, v)]: writes four consecutive floats of the
    residual buffer, whose current contents are [r]. *)
Definition _mm_storeu_ps (r : list float) (i : Z) (v : __m128) : M (list float) :=
  if (0 <=? i) && (i + 4 <=? Z.of_nat (length r))
  then ret (list_inserts (Z.to_nat i) [e0 v; e1 v; e2 v; e3 v] r)
  else raise (r_out_of_bounds (if 0 <=? i then Z.of_nat (length r) else i)).

Definition _mm_store_ps (p : float_ptr) (r : list float) (i : Z) (v : __m128) : M (list float) :=
  let* _ := check_aligned p i in
  _mm_storeu_ps r i v.

(** [r_ptr[i] = x] *)
Definition store (r : list float) (i : Z) (x : float) : M (list float) :=
  if (0 <=? i) && (i <? Z.of_nat (length r))
  then ret (<[Z.to_nat i := x]> r)
  else raise (r_out_of_bounds i).

(** ** PhotoError::Impl *)

(** The members of [PhotoError::Impl].  [_valid_ptr] points into the caller's
    validity vector; it is modelled by the flags it points to, which the
    caller is taken to leave alone between [init] and [run]. *)
Record Impl : Type := {
  _stride : Z;
  _interp_coeffs : list Vector4;
  _inds : list Z;
  _valid_ptr : list bool
}.

Definition resize_vec {A} (n : nat) (d : A) (l : list A) : list A :=
  take n l ++ replicate (n - length l) d.

Section Build.

(** The two preprocessor symbols the kernel is conditional on. *)
Variable WITH_SIMD : bool.
Variable SSE4_1 : bool.

(** [dot_(__m128 a, __m128 b)] *)
Definition dot_simd (a b : __m128) : float :=
  if SSE4_1 then _mm_store_ss (_mm_dp_ps a b 255)
  else
    let t0 := _mm_mul_ps a b in
    let t1 := _mm_hadd_ps t0 t0 in
    let t2 := _mm_hadd_ps t1 t1 in
    _mm_store_ss t2.

(** [dot_(const Vector4& a, const Vector4& b)] *)
Definition dot_ (a b : Vector4) : float :=
  if SSE4_1 then _mm_store_ss (_mm_dp_ps a b 255)
  else Vector4_dot a b.

Section Methods.

Variable this : Impl.

(** [load_data(ptr, i)] *)
Definition load_data (ptr : list float) (i : Z) : M Vector4 :=
  let* o := read impl_out_of_bounds (_inds this) i in
  let* a := read_I1 ptr o in
  let* b := read_I1 ptr (o + 1) in
  let* c := read_I1 ptr (o + _stride this) in
  let* d := read_I1 ptr (o + _stride this + 1) in
  ret (_mm_setr_ps a b c d).

(** [load_data_simd(p)], with [p] the index of the pointer in the image. *)
Definition load_data_simd (ptr : list float) (p : Z) : M __m128 :=
  let* lo := _mm_loadu_ps (read_I1 ptr) p in
  let* hi := _mm_loadu_ps (read_I1 ptr) (p + _stride this) in
  ret (_mm_shuffle_ps lo hi (_MM_SHUFFLE 1 0 1 0)).

(** [operator()(ptr, i)]: the interpolated intensity of point [i]. *)
Definition operator_call (ptr : list float) (i : Z) : M float :=
  let* v := read impl_out_of_bounds (_valid_ptr this) i in
  if v : bool then
    if WITH_SIMD then
      let* c := read impl_out_of_bounds (_interp_coeffs this) i in
      let* o := read impl_out_of_bounds (_inds this) i in
      let* b := load_data_simd ptr o in
      ret (dot_simd c b)
    else
      let* c := read impl_out_of_bounds (_interp_coeffs this) i in
      let* b := load_data ptr i in
      ret (dot_ c b)
  else ret fzero.

(** *** What [operator()] does, as pure functions

    The indices of the image that the call for a point at offset [o]
    dereferences: the 2x2 footprint in the scalar build, two unaligned
    four-float loads in the SIMD build. *)
Definition footprint (o : Z) : list Z :=
  if WITH_SIMD
  then [o; o + 1; o + 2; o + 3;
        o + _stride this; o + _stride this + 1; o + _stride this + 2; o + _stride this + 3]
  else [o; o + 1; o + _stride this; o + _stride this + 1].

Definition in_bounds (ptr : list float) (k : Z) : bool :=
  (0 <=? k) && (k <? Z.of_nat (length ptr)).

Definition pixel (ptr : list float) (k : Z) : float := default fzero (rdZ ptr k).

(** The four neighbours of the point at offset [o]. *)
Definition neighbours (ptr : list float) (o : Z) : Vector4 :=
  _mm_setr_ps (pixel ptr o) (pixel ptr (o + 1))
              (pixel ptr (o + _stride this)) (pixel ptr (o + _stride this + 1)).

Definition point_reads (i : nat) : list Z :=
  if (_valid_ptr this !!! i : bool) then footprint (_inds this !!! i) else [].

Definition sampled (ptr : list float) (i : nat) : float :=
  if (_valid_ptr this !!! i : bool)
  then (if WITH_SIMD then dot_simd else dot_)
         (_interp_coeffs this !!! i) (neighbours ptr (_inds this !!! i))
  else fzero.

(** The four calls that fill one [_mm_setr_ps].  C++ leaves the order in
    which the arguments are evaluated open; they are taken from left to
    right here, which matters only for which fault comes first. *)
Definition setr_operator_calls (I1_ptr : list float) (i : Z) : M __m128 :=
  let* a := operator_call I1_ptr (i + 0) in
  let* b := operator_call I1_ptr (i + 1) in
  let* c := operator_call I1_ptr (i + 2) in
  let* d := operator_call I1_ptr (i + 3) in
  ret (_mm_setr_ps a b c d).

Section Run.

Variable I0_ptr : float_ptr.
Variable I1_ptr : list float.
Variable r_ptr : float_ptr.

Definition num_points : Z := int_of_size (length (_interp_coeffs this)).

Definition read_I0 : Z -> M float := read I0_out_of_bounds (data I0_ptr).

(** The loop of the branch taken when both pointers are 16-byte aligned. *)
Fixpoint aligned_loop (fuel : nat) (i : Z) (r : list float) : M (Z * list float) :=
  if i <=? num_points - 8 then
    match fuel with
    | O => raise out_of_fuel
    | S fuel =>
        let* s := setr_operator_calls I1_ptr i in
        let* x := _mm_load_ps I0_ptr read_I0 i in
        let* r := _mm_store_ps r_ptr r i (_mm_sub_ps s x) in
        let* s := setr_operator_calls I1_ptr (i + 4) in
        let* x := _mm_load_ps I0_ptr read_I0 (i + 4) in
        let* r := _mm_store_ps r_ptr r (i + 4) (_mm_sub_ps s x) in
        aligned_loop fuel (i + 8) r
    end
  else ret (i, r).

(** The loop of the other branch. *)
Fixpoint unaligned_loop (fuel : nat) (i : Z) (r : list float) : M (Z * list float) :=
  if i <=? num_points - 8 then
    match fuel with
    | O => raise out_of_fuel
    | S fuel =>
        let* s := setr_operator_calls I1_ptr i in
        let* x := _mm_loadu_ps read_I0 i in
        let* r := _mm_storeu_ps r i (_mm_sub_ps s x) in
        let* s := setr_operator_calls I1_ptr (i + 4) in
        let* x := _mm_loadu_ps read_I0 (i + 4) in
        let* r := _mm_storeu_ps r (i + 4) (_mm_sub_ps s x) in
        unaligned_loop fuel (i + 8) r
    end
  else ret (i, r).

(** The remainder loop, one point at a time. *)
Fixpoint scalar_loop (fuel : nat) (i : Z) (r : list float) : M (list float) :=
  if i <? num_points then
    match fuel with
    | O => raise out_of_fuel
    | S fuel =>
        let* s := operator_call I1_ptr i in
        let* x := read_I0 i in
        let* r := store r i (fsub s x) in
        scalar_loop fuel (i + 1) r
    end
  else ret r.

(** Neither loop can take more steps than there are points. *)
Definition fuel : nat := Z.to_nat num_points.

(** [run(I0_ptr, I1, r_ptr)]; the result is the residual buffer. *)
Definition run : M (list float) :=
  if num_points =? 0 then ret (data r_ptr)
  else
    let* ir :=
      (if isAligned 16 r_ptr && isAligned 16 I0_ptr
       then aligned_loop fuel 0 (data r_ptr)
       else unaligned_loop fuel 0 (data r_ptr)) in
    scalar_loop fuel (fst ir) (snd ir).

(** The element-by-element path on its own: the remainder loop of [run]
    started at the first point.  This is the scalar reference the wide loops
    are compared with. *)
Definition run_scalar : M (list float) :=
  if num_points =? 0 then ret (data r_ptr)
  else scalar_loop fuel 0 (data r_ptr).

(** *** What [run] computes, as pure functions *)

Definition N : nat := length (_interp_coeffs this).

Definition residual (i : nat) : float :=
  fsub (sampled I1_ptr i) (data I0_ptr !!! i).

(** The residual buffer once the first [n] points are done. *)
Definition residuals_upto (n : nat) : list float :=
  map residual (seq 0 n) ++ drop n (data r_ptr).

Definition reads_from (i n : nat) : list Z := flat_map point_reads (seq i n).

(** The precondition of [run]: the point count fits an [int], the per-point
    arrays and the caller's buffers hold at least [N] elements, and the
    footprint of every valid point lies inside the image buffer. *)
Definition run_pre : bool :=
  (Z.of_nat N <=? INT_MAX)
  && (length (_inds this) =? N)%nat
  && (N <=? length (_valid_ptr this))%nat
  && (N <=? length (data I0_ptr))%nat
  && (N <=? length (data r_ptr))%nat
  && forallb (fun i => forallb (in_bounds I1_ptr) (point_reads i)) (seq 0 N).

End Run.
End Methods.
End Build.

(** ** init *)

(** [Matrix34]: the three rows of the projection. *)
Record Matrix34 : Type := { row0 : Vector4; row1 : Vector4; row2 : Vector4 }.

(** [Point]: a homogeneous scene point, four floats. *)
Definition Point : Type := Vector4.

(** [Eigen::Vector3f], the homogeneous image coordinate. *)
Record Vector3f : Type := { p0 : float; p1 : float; p2 : float }.

Record ImageSize : Type := { rows : Z; cols : Z }.

Definition zero4 : Vector4 := _mm_setr_ps fzero fzero fzero fzero.

(** [resize(N)]; the coefficients Eigen leaves uninitialised are zeros here. *)
Definition resize (this : Impl) (n : nat) : Impl :=
  {| _stride := _stride this;
     _interp_coeffs := resize_vec n zero4 (_interp_coeffs this);
     _inds := resize_vec n 0 (_inds this);
     _valid_ptr := _valid_ptr this |}.

(** The members before the first [init]: no points, a null [_valid_ptr]. *)
Definition Impl_new : Impl :=
  {| _stride := 0; _interp_coeffs := []; _inds := []; _valid_ptr := [] |}.

Section Init.

(** [projectPoints] is declared in bpvo/project_points.h and defined outside
    the sources at hand.  It receives the projection, the points, the image
    size and the three output arrays, and yields the arrays as it leaves
    them: validity flags, offsets, interpolation coefficients. *)
Variable projectPoints :
  Matrix34 -> list Point -> ImageSize ->
  list bool -> list Z -> list Vector4 -> list bool * list Z * list Vector4.

(** [init(P, X, valid, rows, cols)]: the new members and the caller's
    validity vector. *)
Definition init (this : Impl) (P : Matrix34) (X : list Point) (valid : list bool)
    (rows cols : Z) : Impl * list bool :=
  let this := resize this (length X) in
  let valid := resize_vec (length X) false valid in
  match X with
  | [] =>
      ({| _stride := cols; _interp_coeffs := _interp_coeffs this;
          _inds := _inds this; _valid_ptr := valid |}, valid)
  | _ :: _ =>
      let '(valid, inds, coeffs) :=
        projectPoints P X {| rows := rows; cols := cols |}
                      valid (_inds this) (_interp_coeffs this) in
      ({| _stride := cols; _interp_coeffs := coeffs;
          _inds := inds; _valid_ptr := valid |}, valid)
  end.

End Init.

(** ** The public class *)

Record PhotoError : Type := { _impl : Impl }.

(** [PhotoError::run] is a [const] method: the object comes back as it was,
    next to the residual buffer. *)
Definition PhotoError_run (WITH_SIMD SSE4_1 : bool) (self : PhotoError)
    (I0_ptr : float_ptr) (I1 : list float) (r_ptr : float_ptr)
  : M (PhotoError * list float) :=
  let* r := run WITH_SIMD SSE4_1 (_impl self) I0_ptr I1 r_ptr in
  ret (self, r).

(** ** The variant of [init] under [PHOTO_ERROR_WITH_OPENCV]

    The file defines [PHOTO_ERROR_WITH_OPENCV] as 0, so this variant is
    compiled out; it is the only place of the sources where a projected
    point is classified. *)

(** The value of a finite float, truncated toward zero. *)
Definition trunc_float (x : float) : option Z :=
  match x with
  | S754_zero _ => Some 0
  | S754_finite s m e =>
      Some (cond_Zopp s (if 0 <=? e then Zpos m * 2 ^ e else Zpos m / 2 ^ (- e)))
  | _ => None
  end.

(** The value of a finite float, rounded down. *)
Definition floor_float (x : float) : option Z :=
  match x with
  | S754_zero _ => Some 0
  | S754_finite s m e =>
      Some (if 0 <=? e then cond_Zopp s (Zpos m) * 2 ^ e
            else cond_Zopp s (Zpos m) / 2 ^ (- e))
  | _ => None
  end.

(** [static_cast<int>(x)] of a [float].  C++ truncates toward zero and leaves
    the conversion undefined when the result does not fit; the kernel is x86
    code (SSE intrinsics), where the conversion instruction then yields
    [INT_MIN], the "integer indefinite" value. *)
Definition static_cast_int (x : float) : Z :=
  match trunc_float x with
  | Some z => if (INT_MIN <=? z) && (z <=? INT_MAX) then z else INT_MIN
  | None => INT_MIN
  end.

(** The margin rule, [xi>=0 && xi<cols-1 && yi>=0 && yi<rows-1]. *)
Definition inside (rows cols xi yi : Z) : bool :=
  (0 <=? xi) && (xi <? cols - 1) && (0 <=? yi) && (yi <? rows - 1).

(** One product of Eigen, [P * X[i]], with the four terms of each row added
    from left to right.  The statements below are about the coordinate [p]
    that results, whatever the order. *)
Definition row_dot (r : Vector4) (X : Point) : float :=
  fadd (fadd (fadd (fmul (e0 r) (e0 X)) (fmul (e1 r) (e1 X))) (fmul (e2 r) (e2 X)))
       (fmul (e3 r) (e3 X)).

Definition Matrix34_mul (P : Matrix34) (X : Point) : Vector3f :=
  {| p0 := row_dot (row0 P) X; p1 := row_dot (row1 P) X; p2 := row_dot (row2 P) X |}.

(** The body of the loop of the OpenCV variant, from the homogeneous
    coordinate on: [_x[i]], [_y[i]] and [valid[i]]. *)
Definition classify_opencv (rows cols : Z) (p : Vector3f) : float * float * bool :=
  let w_i := fdiv fone (p2 p) in
  let x := fmul w_i (p0 p) in
  let y := fmul w_i (p1 p) in
  let xi := static_cast_int x in
  let yi := static_cast_int y in
  (x, y, inside rows cols xi yi).

(** The members of the OpenCV variant that [init] fills itself; the two maps
    come from [cv::convertMaps], which belongs to OpenCV. *)
Record Impl_opencv : Type := { _x : list float; _y : list float }.

(** [init] of the OpenCV variant: every point is projected and classified on
    its own, in order. *)
Definition init_opencv (P : Matrix34) (X : list Point) (rows cols : Z)
  : Impl_opencv * list bool :=
  let out := map (fun Xi => classify_opencv rows cols (Matrix34_mul P Xi)) X in
  ({| _x := map (fun o => fst (fst o)) out; _y := map (fun o => snd (fst o)) out |},
   map snd out).

(** ** projectPoints *)

(** [w00=(1-dx)(1-dy)], [w10=dx(1-dy)], [w01=(1-dx)dy], [w11=dx*dy], in
    single precision. *)
Definition bilinear_weights (dx dy : float) : Vector4 :=
  _mm_setr_ps (fmul (fsub fone dx) (fsub fone dy))
              (fmul dx (fsub fone dy))
              (fmul (fsub fone dx) dy)
              (fmul dx dy).

Definition is_zero (x : float) : bool :=
  match x with
  | S754_zero _ => true
  | _ => false
  end.

(** Modelled from the spec: [projectPoints] is declared in
    bpvo/project_points.h and its definition is not among the sources.  The
    spec, section 4.1: compute [p = P * X[i]]; if the homogeneous scale is
    non-zero, divide through to get [(x_i, y_i)]; [(xi, yi)] are the floors;
    [valid[i] = (0 <= xi < cols-1) AND (0 <= yi < rows-1)]; for valid points
    only, [dx = x_i - xi], [dy = y_i - yi], the four bilinear weights and the
    offset [yi*stride + xi], with [stride = cols]; for invalid points weights
    and offset are zeroed; a zero scale is treated as invalid.  A coordinate
    that is not finite has no floor and is invalid as well. *)
Definition project_point (P : Matrix34) (size : ImageSize) (Xi : Point)
  : bool * Z * Vector4 :=
  let p := Matrix34_mul P Xi in
  if is_zero (p2 p) then (false, 0, zero4)
  else
    let x := fdiv (p0 p) (p2 p) in
    let y := fdiv (p1 p) (p2 p) in
    match floor_float x, floor_float y with
    | Some xi, Some yi =>
        if inside (rows size) (cols size) xi yi
        then (true, yi * cols size + xi,
              bilinear_weights (fsub x (f32 xi 0)) (fsub y (f32 yi 0)))
        else (false, 0, zero4)
    | _, _ => (false, 0, zero4)
    end.

(** Modelled from the spec: [projectPoints] fills the three output arrays
    with one entry per point, in order (see [project_point]). *)
Definition projectPoints_spec (P : Matrix34) (X : list Point) (size : ImageSize)
    (valid : list bool) (inds : list Z) (C : list Vector4)
  : list bool * list Z * list Vector4 :=
  let out := map (project_point P size) X in
  (map (fun o => fst (fst o)) out, map (fun o => snd (fst o)) out, map snd out).

(** ** Values of floats *)

(** The rational a finite float stands for. *)
Definition F2Q (x : float) : Q :=
  match x with
  | S754_finite sg m e => (inject_Z (cond_Zopp sg (Zpos m)) * Qpower 2 e)%Q
  | _ => 0%Q
  end.

(** A float of the unit interval: a zero, or a positive finite number
    [m * 2^e] with [e <= 0] and [m <= 2^-e]. *)
Definition unit_float (x : float) : Prop :=
  match x with
  | S754_zero _ => True
  | S754_finite false m e => e <= 0 /\ Zpos m <= 2 ^ (- e)
  | _ => False
  end.

(** With [- s <= e] the finite float [m * 2^e] is the integer
    [m * 2^(e+s)] in units of [2^-s]. *)
Definition scaled (s : Z) (x : float) : Z :=
  match x with
  | S754_finite sg m e => cond_Zopp sg (Zpos m) * 2 ^ (e + s)
  | _ => 0
  end.

Definition on_grid (s : Z) (x : float) : Prop :=
  match x with
  | S754_finite _ _ e => - s <= e
  | _ => True
  end.

(** The least [s] with [on_grid s x]. *)
Definition grid_of (x : float) : Z :=
  match x with
  | S754_finite _ _ e => - e
  | _ => 0
  end.

(** [rec] is what is left of the integer [M] after [n] shifts to the right:
    the quotient, and the position of the remainder with respect to one
    half. *)
Definition shifted (M n : Z) (rec : shr_record) : Prop :=
  exists rem : Z,
    M = shr_m rec * 2 ^ n + rem /\ 0 <= shr_m rec /\ 0 <= rem < 2 ^ n
    /\ shr_r rec = (2 ^ n <=? 2 * rem)
    /\ shr_s rec = (if shr_r rec then 2 ^ n <? 2 * rem else 0 <? rem).

Ltac zbool :=
  repeat match goal with
         | |- context [?a <=? ?b] => destruct (Z.leb_spec a b)
         | |- context [?a <? ?b] => destruct (Z.ltb_spec a b)
         | H : context [?a <=? ?b] |- _ => destruct (Z.leb_spec a b)
         | H : context [?a <? ?b] |- _ => destruct (Z.ltb_spec a b)
         end;
  simpl in *; try lia; try done.

(** ** The margin rule on the cached offsets *)

(** Every point marked valid has floor coordinates [(xi, yi)] inside the
    margin, and its offset is [yi * stride + xi]. *)
Definition margin_rule (rows cols : Z) (this : Impl) : Prop :=
  forall (i : nat) (o : Z),
    _valid_ptr this !! i = Some true -> _inds this !! i = Some o ->
    exists xi yi, inside rows cols xi yi = true /\ o = yi * _stride this + xi.

(** ** The margin the SIMD build needs *)

(** The margin rule, tightened for [load_data_simd]: a valid point in the
    last admissible row, [yi = rows - 2], stays at least three columns away
    from the right border. *)
Definition simd_margin_rule (rows cols : Z) (this : Impl) : Prop :=
  forall (i : nat) (o : Z),
    _valid_ptr this !! i = Some true -> _inds this !! i = Some o ->
    exists xi yi,
      inside rows cols xi yi = true /\ (yi < rows - 2 \/ xi < cols - 3)
      /\ o = yi * _stride this + xi.

(** ** Pixels that are not numbers *)

(** A float that is a number: a zero or a finite value. *)
Definition finite_float (x : float) : bool :=
  match x with
  | S754_zero _ | S754_finite _ _ _ => true
  | _ => false
  end.

(** A neighbour whose product with the weight [w] is NaN: a NaN, or an
    infinity under a zero weight. *)
Definition poisons (w v : float) : bool :=
  match v with
  | S754_nan => true
  | S754_infinity _ => is_zero w
  | _ => false
  end.

(** ** The public [init] *)

(** [PhotoError::PhotoError()]: a fresh implementation object. *)
Definition PhotoError_new : PhotoError := {| _impl := Impl_new |}.

(** What [run] needs of the arrays [projectPoints] leaves behind: each has
    one entry per point, and every point marked valid has floor coordinates
    inside the margin and the offset [yi * cols + xi]. *)
Definition projectPoints_contract (rows cols : Z) (n : nat)
    (out : list bool * list Z * list Vector4) : Prop :=
  length (fst (fst out)) = n /\ length (snd (fst out)) = n /\ length (snd out) = n
  /\ forall (i : nat) (o : Z),
       fst (fst out) !! i = Some true -> snd (fst out) !! i = Some o ->
       exists xi yi, inside rows cols xi yi = true /\ o = yi * cols + xi.

Section PublicInit.

Variable projectPoints :
  Matrix34 -> list Point -> ImageSize ->
  list bool -> list Z -> list Vector4 -> list bool * list Z * list Vector4.

(** [PhotoError::init] forwards to the implementation; the result is the
    object and the caller's validity vector. *)
Definition PhotoError_init (self : PhotoError) (P : Matrix34) (X : list Point)
    (valid : list bool) (rows cols : Z) : PhotoError * list bool :=
  let out := init projectPoints (_impl self) P X valid rows cols in
  ({| _impl := fst out |}, snd out).

End PublicInit.

(** ** Scenes used below *)

(** The 4x4 image with intensities 0 .. 15, stride 4. *)
Definition image4x4 : list float :=
  map (fun z => f32 z 0) [0; 1; 2; 3; 4; 5; 6; 7; 8; 9; 10; 11; 12; 13; 14; 15].

Definition quarter : float := f32 1 (-2).
Definition quarters : Vector4 := _mm_setr_ps quarter quarter quarter quarter.

(** One valid point at pixel (1.5, 1.5). *)
Definition one_point : Impl :=
  {| _stride := 4; _interp_coeffs := [quarters]; _inds := [5]; _valid_ptr := [true] |}.

(** One valid point whose floor coordinates are (2, 2), the last ones the
    margin rule admits in a 4x4 image. *)
Definition corner_point : Impl :=
  {| _stride := 4; _interp_coeffs := [quarters]; _inds := [10]; _valid_ptr := [true] |}.

(** One invalid point. *)
Definition invalid_point : Impl :=
  {| _stride := 4; _interp_coeffs := [quarters]; _inds := [3]; _valid_ptr := [false] |}.

(** Nine points, the fourth invalid: one round of the wide loop and one of
    the remainder loop. *)
Definition nine_points : Impl :=
  {| _stride := 4;
     _interp_coeffs := replicate 9 quarters;
     _inds := [0; 1; 2; 4; 5; 6; 8; 9; 10];
     _valid_ptr := [true; true; true; false; true; true; true; true; true] |}.

Definition sevens (n : nat) : list float := replicate n (f32 7 0).

Definition buffer (a : Z) (l : list float) : float_ptr := {| addr := a; data := l |}.

(** The projection that keeps x, y, z. *)
Definition P_id : Matrix34 :=
  {| row0 := _mm_setr_ps fone fzero fzero fzero;
     row1 := _mm_setr_ps fzero fone fzero fzero;
     row2 := _mm_setr_ps fzero fzero fone fzero |}.

Definition point (x y z : float) : Point := _mm_setr_ps x y z fone.


(** One valid point on the pixel (1, 1) itself: the weights are those of a
    projection with no fractional part. *)
Definition pixel_point : Impl :=
  {| _stride := 4; _interp_coeffs := [_mm_setr_ps fone fzero fzero fzero];
     _inds := [5]; _valid_ptr := [true] |}.

(** * Proofs *)

(** ** The monad *)

Lemma bind_ret {A B} (a : A) (k : A -> M B) : bind (ret a) k = k a.
Proof. unfold bind, ret; simpl. by destruct (k a). Qed.

Lemma bind_ok {A B} (m : M A) (k : A -> M B) t a t' o :
  m = (t, Ok a) -> k a = (t', o) -> bind m k = (t ++ t', o).
Proof. intros -> Hk. unfold bind; simpl. by rewrite Hk. Qed.

Lemma bind_fault {A B} (m : M A) (k : A -> M B) t f :
  m = (t, Fault f) -> bind m k = (t, Fault f).
Proof. by intros ->. Qed.

Lemma bind_inv_ok {A B} (m : M A) (k : A -> M B) t b :
  bind m k = (t, Ok b) ->
  exists t1 a t2, m = (t1, Ok a) /\ k a = (t2, Ok b) /\ t = t1 ++ t2.
Proof.
  destruct m as [t1 [a|f]]; unfold bind; simpl; [|discriminate].
  destruct (k a) as [t2 o] eqn:Hk; simpl. intros [= <- ->].
  by exists t1, a, t2.
Qed.

(** ** Indexing *)

Lemma rdZ_of_nat {A} (l : list A) (i : nat) : rdZ l (Z.of_nat i) = l !! i.
Proof.
  unfold rdZ. destruct (Z.leb_spec 0 (Z.of_nat i)); [|lia].
  by rewrite Nat2Z.id.
Qed.

Lemma rdZ_Some {A} (l : list A) (k : Z) (a : A) :
  rdZ l k = Some a -> 0 <= k < Z.of_nat (length l).
Proof.
  unfold rdZ. destruct (Z.leb_spec 0 k) as [Hk|Hk]; [|discriminate].
  intros Hl%lookup_lt_Some. lia.
Qed.

Lemma rdZ_in_bounds (l : list float) (k : Z) :
  in_bounds l k = true -> rdZ l k = Some (pixel l k).
Proof.
  unfold in_bounds, pixel. intros [H1 H2]%andb_prop.
  apply Z.leb_le in H1. apply Z.ltb_lt in H2.
  destruct (rdZ l k) eqn:E; [done|].
  unfold rdZ in E. destruct (Z.leb_spec 0 k); [|lia].
  apply lookup_ge_None in E. lia.
Qed.

Lemma read_ok {A} `{Inhabited A} flt (l : list A) (i : nat) :
  (i < length l)%nat -> read flt l (Z.of_nat i) = ret (l !!! i).
Proof.
  intros Hi. unfold read. rewrite rdZ_of_nat.
  destruct (lookup_lt_is_Some_2 l i Hi) as [a Ha].
  by rewrite Ha, (list_lookup_total_correct _ _ _ Ha).
Qed.

Lemma read_I1_ok (l : list float) (k : Z) :
  in_bounds l k = true -> read_I1 l k = ([k], Ok (pixel l k)).
Proof. intros Hk. unfold read_I1. by rewrite (rdZ_in_bounds _ _ Hk). Qed.

(** ** The kernel under its precondition *)

Lemma int_of_size_small (n : nat) : Z.of_nat n <= INT_MAX -> int_of_size n = Z.of_nat n.
Proof.
  unfold int_of_size, INT_MAX. intros Hn.
  rewrite Z.mod_small by lia. lia.
Qed.

Lemma dot_simd_dot_ (SSE4_1 : bool) (a b : __m128) : dot_simd SSE4_1 a b = dot_ SSE4_1 a b.
Proof. reflexivity. Qed.

(** Either build sums the four products in pairs. *)
Lemma dot__pairwise (SSE4_1 : bool) (a b : Vector4) :
  dot_ SSE4_1 a b =
  fadd (fadd (fmul (e0 a) (e0 b)) (fmul (e1 a) (e1 b)))
       (fadd (fmul (e2 a) (e2 b)) (fmul (e3 a) (e3 b))).
Proof. by destruct SSE4_1. Qed.

Section Kernel.

Variables WITH_SIMD SSE4_1 : bool.
Variable this : Impl.
Variable I0_ptr : float_ptr.
Variable I1_ptr : list float.
Variable r_ptr : float_ptr.

Hypothesis Hpre : run_pre WITH_SIMD this I0_ptr I1_ptr r_ptr = true.

Local Abbreviation n_pts := (N this).
Local Abbreviation op := (operator_call WITH_SIMD SSE4_1 this I1_ptr).
Local Abbreviation reads := (point_reads WITH_SIMD this).
Local Abbreviation res := (residual WITH_SIMD SSE4_1 this I0_ptr I1_ptr).
Local Abbreviation upto := (residuals_upto WITH_SIMD SSE4_1 this I0_ptr I1_ptr r_ptr).

Lemma pre_int : Z.of_nat n_pts <= INT_MAX.
Proof using Hpre.
  unfold run_pre in Hpre. repeat (apply andb_prop in Hpre as [Hpre ?]).
  by apply Z.leb_le.
Qed.

Lemma pre_inds : length (_inds this) = n_pts.
Proof using Hpre.
  unfold run_pre in Hpre. repeat (apply andb_prop in Hpre as [Hpre ?]).
  by apply Nat.eqb_eq.
Qed.

Lemma pre_valid : (n_pts <= length (_valid_ptr this))%nat.
Proof using Hpre.
  unfold run_pre in Hpre. repeat (apply andb_prop in Hpre as [Hpre ?]).
  by apply Nat.leb_le.
Qed.

Lemma pre_I0 : (n_pts <= length (data I0_ptr))%nat.
Proof using Hpre.
  unfold run_pre in Hpre. repeat (apply andb_prop in Hpre as [Hpre ?]).
  by apply Nat.leb_le.
Qed.

Lemma pre_r : (n_pts <= length (data r_ptr))%nat.
Proof using Hpre.
  unfold run_pre in Hpre. repeat (apply andb_prop in Hpre as [Hpre ?]).
  by apply Nat.leb_le.
Qed.

Lemma pre_reads (i : nat) :
  (i < n_pts)%nat -> forallb (in_bounds I1_ptr) (reads i) = true.
Proof using Hpre.
  intros Hi. unfold run_pre in Hpre. apply andb_prop in Hpre as [_ Hall].
  rewrite forallb_forall in Hall. apply Hall, in_seq. lia.
Qed.

Lemma num_points_N : num_points this = Z.of_nat n_pts.
Proof using Hpre. apply int_of_size_small, pre_int. Qed.

(** [operator()] on a point below [N]: it dereferences the footprint of a
    valid point and nothing for an invalid one, and it cannot fault. *)
Lemma operator_call_ok (i : nat) :
  (i < n_pts)%nat ->
  op (Z.of_nat i) = (reads i, Ok (sampled WITH_SIMD SSE4_1 this I1_ptr i)).
Proof using Hpre.
  intros Hi. pose proof (pre_reads i Hi) as Hrd.
  pose proof pre_valid as Hv. pose proof pre_inds as Hx.
  assert (Hc : (i < length (_interp_coeffs this))%nat) by done.
  clear Hpre.
  unfold operator_call, point_reads, sampled. unfold point_reads in Hrd.
  rewrite read_ok by lia. rewrite bind_ret.
  destruct (_valid_ptr this !!! i); [|done].
  unfold footprint in Hrd.
  destruct WITH_SIMD.
  - rewrite read_ok by done. rewrite bind_ret.
    rewrite read_ok by lia. rewrite bind_ret.
    simpl in Hrd. repeat (apply andb_prop in Hrd as [? Hrd]).
    unfold load_data_simd, _mm_loadu_ps.
    rewrite !read_I1_ok by done.
    reflexivity.
  - rewrite read_ok by done. rewrite bind_ret.
    unfold load_data.
    rewrite read_ok by lia. rewrite bind_ret.
    simpl in Hrd. repeat (apply andb_prop in Hrd as [? Hrd]).
    rewrite !read_I1_ok by done.
    reflexivity.
Qed.

Lemma setr_operator_calls_ok (i : nat) :
  (i + 4 <= n_pts)%nat ->
  setr_operator_calls WITH_SIMD SSE4_1 this I1_ptr (Z.of_nat i) =
  (reads_from WITH_SIMD this i 4,
   Ok (_mm_setr_ps (sampled WITH_SIMD SSE4_1 this I1_ptr i)
                   (sampled WITH_SIMD SSE4_1 this I1_ptr (i + 1))
                   (sampled WITH_SIMD SSE4_1 this I1_ptr (i + 2))
                   (sampled WITH_SIMD SSE4_1 this I1_ptr (i + 3)))).
Proof using Hpre.
  intros Hi. unfold setr_operator_calls.
  replace (Z.of_nat i + 0) with (Z.of_nat i) by lia.
  replace (Z.of_nat i + 1) with (Z.of_nat (i + 1)) by lia.
  replace (Z.of_nat i + 2) with (Z.of_nat (i + 2)) by lia.
  replace (Z.of_nat i + 3) with (Z.of_nat (i + 3)) by lia.
  rewrite !operator_call_ok by lia.
  unfold reads_from, bind, ret; simpl.
  replace (S i) with (i + 1)%nat by lia.
  replace (S (i + 1)) with (i + 2)%nat by lia.
  replace (S (i + 2)) with (i + 3)%nat by lia.
  reflexivity.
Qed.

Lemma loadu_I0_ok (i : nat) :
  (i + 4 <= n_pts)%nat ->
  _mm_loadu_ps (read_I0 I0_ptr) (Z.of_nat i) =
  ret (_mm_setr_ps (data I0_ptr !!! i) (data I0_ptr !!! (i + 1)%nat)
                   (data I0_ptr !!! (i + 2)%nat) (data I0_ptr !!! (i + 3)%nat)).
Proof using Hpre.
  intros Hi. pose proof pre_I0 as H0. unfold _mm_loadu_ps, read_I0.
  replace (Z.of_nat i + 1) with (Z.of_nat (i + 1)) by lia.
  replace (Z.of_nat i + 2) with (Z.of_nat (i + 2)) by lia.
  replace (Z.of_nat i + 3) with (Z.of_nat (i + 3)) by lia.
  rewrite !read_ok by lia. by rewrite !bind_ret.
Qed.

Lemma length_upto (n : nat) :
  (n <= length (data r_ptr))%nat -> length (upto n) = length (data r_ptr).
Proof.
  intros Hn. unfold residuals_upto.
  rewrite length_app, length_map, length_seq, length_drop. lia.
Qed.

Lemma upto_S (n : nat) :
  (n < length (data r_ptr))%nat -> <[n := res n]> (upto n) = upto (S n).
Proof.
  intros Hn. unfold residuals_upto.
  destruct (lookup_lt_is_Some_2 (data r_ptr) n Hn) as [x Hx].
  rewrite (drop_S _ _ _ Hx).
  rewrite insert_app_r_alt by (rewrite length_map, length_seq; lia).
  rewrite length_map, length_seq, Nat.sub_diag.
  rewrite seq_S, map_app, <- app_assoc. reflexivity.
Qed.

Lemma upto_4 (n : nat) :
  (n + 4 <= length (data r_ptr))%nat ->
  list_inserts n [res n; res (n + 1); res (n + 2); res (n + 3)] (upto n) = upto (n + 4).
Proof.
  intros Hn. simpl.
  rewrite list_insert_insert_ne, (list_insert_insert_ne _ n), (list_insert_insert_ne _ n) by lia.
  rewrite upto_S by lia.
  rewrite list_insert_insert_ne, (list_insert_insert_ne _ (S n)) by lia.
  rewrite Nat.add_1_r, upto_S by lia.
  rewrite list_insert_insert_ne by lia.
  replace (n + 2)%nat with (S (S n)) by lia. rewrite upto_S by lia.
  replace (n + 3)%nat with (S (S (S n))) by lia. rewrite upto_S by lia.
  f_equal. lia.
Qed.

Lemma storeu_ok (n : nat) :
  (n + 4 <= n_pts)%nat ->
  _mm_storeu_ps (upto n) (Z.of_nat n)
    (_mm_sub_ps
       (_mm_setr_ps (sampled WITH_SIMD SSE4_1 this I1_ptr n)
                    (sampled WITH_SIMD SSE4_1 this I1_ptr (n + 1))
                    (sampled WITH_SIMD SSE4_1 this I1_ptr (n + 2))
                    (sampled WITH_SIMD SSE4_1 this I1_ptr (n + 3)))
       (_mm_setr_ps (data I0_ptr !!! n) (data I0_ptr !!! (n + 1)%nat)
                    (data I0_ptr !!! (n + 2)%nat) (data I0_ptr !!! (n + 3)%nat)))
  = ret (upto (n + 4)).
Proof using Hpre.
  intros Hn. pose proof pre_r as Hr. unfold _mm_storeu_ps.
  rewrite length_upto by lia.
  destruct (Z.leb_spec 0 (Z.of_nat n)); [|lia].
  destruct (Z.leb_spec (Z.of_nat n + 4) (Z.of_nat (length (data r_ptr)))); [|lia].
  simpl andb. cbv iota. rewrite Nat2Z.id.
  change (ret ?a = ret ?b) with (@ret (list float) a = ret b). f_equal.
  rewrite <- upto_4 by lia. reflexivity.
Qed.

Lemma reads_from_app (i a b : nat) :
  reads_from WITH_SIMD this i (a + b) =
  reads_from WITH_SIMD this i a ++ reads_from WITH_SIMD this (i + a) b.
Proof. unfold reads_from. by rewrite seq_app, flat_map_app. Qed.

(** One group of four points of the wide loop, followed by [k]. *)
Lemma group_ok {B} (i : nat) (k : list float -> M B) :
  (i + 4 <= n_pts)%nat ->
  (let* s := setr_operator_calls WITH_SIMD SSE4_1 this I1_ptr (Z.of_nat i) in
   let* x := _mm_loadu_ps (read_I0 I0_ptr) (Z.of_nat i) in
   let* r := _mm_storeu_ps (upto i) (Z.of_nat i) (_mm_sub_ps s x) in
   k r)
  = (reads_from WITH_SIMD this i 4 ++ fst (k (upto (i + 4))), snd (k (upto (i + 4)))).
Proof using Hpre.
  intros Hi. rewrite setr_operator_calls_ok by done.
  unfold bind at 1. cbn [fst snd].
  rewrite loadu_I0_ok by done. rewrite bind_ret.
  rewrite storeu_ok by done. rewrite bind_ret.
  reflexivity.
Qed.

Lemma unaligned_loop_ok (k : nat) : forall (fuel i : nat),
  (i + 8 * k <= n_pts)%nat -> (n_pts < i + 8 * k + 8)%nat -> (k <= fuel)%nat ->
  unaligned_loop WITH_SIMD SSE4_1 this I0_ptr I1_ptr fuel (Z.of_nat i) (upto i)
  = (reads_from WITH_SIMD this i (8 * k), Ok (Z.of_nat (i + 8 * k), upto (i + 8 * k))).
Proof using Hpre.
  induction k as [|k IH]; intros fuel i Hlo Hhi Hfuel.
  - replace (i + 8 * 0)%nat with i by lia.
    assert (Hc : (Z.of_nat i <=? num_points this - 8) = false)
      by (apply Z.leb_gt; rewrite num_points_N; lia).
    destruct fuel; simpl; rewrite Hc; reflexivity.
  - destruct fuel as [|fuel]; [lia|].
    assert (Hc : (Z.of_nat i <=? num_points this - 8) = true)
      by (apply Z.leb_le; rewrite num_points_N; lia).
    simpl unaligned_loop. rewrite Hc.
    rewrite group_ok by lia. cbn [fst snd].
    replace (Z.of_nat i + 4) with (Z.of_nat (i + 4)) by lia.
    rewrite group_ok by lia. cbn [fst snd].
    replace (Z.of_nat i + 8) with (Z.of_nat (i + 8)) by lia.
    replace (i + 4 + 4)%nat with (i + 8)%nat by lia.
    rewrite IH by lia. cbn [fst snd].
    replace (i + 8 + 8 * k)%nat with (i + 8 * S k)%nat by lia.
    replace (8 * S k)%nat with (4 + (4 + 8 * k))%nat by lia.
    rewrite !reads_from_app.
    replace (i + 4 + 4)%nat with (i + 8)%nat by lia.
    reflexivity.
Qed.

Lemma scalar_loop_ok (k : nat) : forall (fuel i : nat),
  (i + k = n_pts)%nat -> (k <= fuel)%nat ->
  scalar_loop WITH_SIMD SSE4_1 this I0_ptr I1_ptr fuel (Z.of_nat i) (upto i)
  = (reads_from WITH_SIMD this i k, Ok (upto n_pts)).
Proof using Hpre.
  pose proof pre_r as Hr. pose proof pre_I0 as H0.
  induction k as [|k IH]; intros fuel i Hik Hfuel.
  - replace i with n_pts by lia.
    assert (Hc : (Z.of_nat n_pts <? num_points this) = false)
      by (apply Z.ltb_ge; rewrite num_points_N; lia).
    destruct fuel; simpl; rewrite Hc; reflexivity.
  - destruct fuel as [|fuel]; [lia|].
    assert (Hc : (Z.of_nat i <? num_points this) = true)
      by (apply Z.ltb_lt; rewrite num_points_N; lia).
    simpl scalar_loop. rewrite Hc.
    rewrite operator_call_ok by lia. unfold bind at 1. cbn [fst snd].
    unfold read_I0. rewrite read_ok by lia. rewrite bind_ret.
    unfold store. rewrite length_upto by lia.
    destruct (Z.leb_spec 0 (Z.of_nat i)); [|lia].
    destruct (Z.ltb_spec (Z.of_nat i) (Z.of_nat (length (data r_ptr)))); [|lia].
    simpl andb. cbv iota. rewrite bind_ret, Nat2Z.id.
    change (fsub (sampled WITH_SIMD SSE4_1 this I1_ptr i) (data I0_ptr !!! i)) with (res i).
    rewrite upto_S by lia.
    replace (Z.of_nat i + 1) with (Z.of_nat (S i)) by lia.
    rewrite IH by lia. cbn [fst snd].
    unfold reads_from. simpl. reflexivity.
Qed.

End Kernel.

(** ** The two branches of [run] *)

Lemma bind_ext {A B} (m : M A) (k k' : A -> M B) :
  (forall a, k a = k' a) -> bind m k = bind m k'.
Proof. intros Hk. unfold bind. destruct (snd m); [by rewrite Hk|done]. Qed.

Lemma aligned_address (p : float_ptr) (i : Z) :
  isAligned 16 p = true -> i mod 4 = 0 -> address_of p i mod 16 = 0.
Proof.
  unfold isAligned, address_of. intros Hp%Z.eqb_eq Hi.
  apply Z.mod_divide in Hp as [a Ha]; [|done].
  apply Z.mod_divide in Hi as [b Hb]; [|done].
  apply Z.mod_divide; [done|]. exists (a + b). lia.
Qed.

Lemma _mm_load_ps_aligned (p : float_ptr) (rd : Z -> M float) (i : Z) :
  address_of p i mod 16 = 0 -> _mm_load_ps p rd i = _mm_loadu_ps rd i.
Proof.
  intros Ha. unfold _mm_load_ps, check_aligned.
  rewrite Ha. simpl. by rewrite bind_ret.
Qed.

Lemma _mm_store_ps_aligned (p : float_ptr) (r : list float) (i : Z) (v : __m128) :
  address_of p i mod 16 = 0 -> _mm_store_ps p r i v = _mm_storeu_ps r i v.
Proof.
  intros Ha. unfold _mm_store_ps, check_aligned.
  rewrite Ha. simpl. by rewrite bind_ret.
Qed.

Section Alignment.

Variables WITH_SIMD SSE4_1 : bool.
Variable this : Impl.
Variable I0_ptr : float_ptr.
Variable I1_ptr : list float.
Variable r_ptr : float_ptr.

(** With both pointers aligned, no aligned load or store of the first loop
    can fault, and the loop is the unaligned one. *)
Lemma aligned_loop_unaligned_loop (fuel : nat) : forall (i : Z) (r : list float),
  isAligned 16 r_ptr = true -> isAligned 16 I0_ptr = true -> i mod 4 = 0 ->
  aligned_loop WITH_SIMD SSE4_1 this I0_ptr I1_ptr r_ptr fuel i r =
  unaligned_loop WITH_SIMD SSE4_1 this I0_ptr I1_ptr fuel i r.
Proof.
  induction fuel as [|fuel IH]; intros i r Hr H0 Hi; [done|].
  assert (Hi4 : (i + 4) mod 4 = 0).
  { replace (i + 4) with (i + 1 * 4) by lia. by rewrite Z.mod_add. }
  assert (Hi8 : (i + 8) mod 4 = 0).
  { replace (i + 8) with (i + 2 * 4) by lia. by rewrite Z.mod_add. }
  simpl. destruct (i <=? num_points this - 8); [|done].
  apply bind_ext; intros s0.
  rewrite _mm_load_ps_aligned by by apply aligned_address.
  apply bind_ext; intros x0.
  rewrite _mm_store_ps_aligned by by apply aligned_address.
  apply bind_ext; intros r1.
  apply bind_ext; intros s1.
  rewrite _mm_load_ps_aligned by by apply aligned_address.
  apply bind_ext; intros x1.
  rewrite _mm_store_ps_aligned by by apply aligned_address.
  apply bind_ext; intros r2.
  by apply IH.
Qed.

(** Whatever the addresses, [run] is the unaligned loop and the remainder. *)
Lemma run_unaligned :
  run WITH_SIMD SSE4_1 this I0_ptr I1_ptr r_ptr =
  if num_points this =? 0 then ret (data r_ptr)
  else
    let* ir := unaligned_loop WITH_SIMD SSE4_1 this I0_ptr I1_ptr (fuel this) 0 (data r_ptr) in
    scalar_loop WITH_SIMD SSE4_1 this I0_ptr I1_ptr (fuel this) (fst ir) (snd ir).
Proof.
  unfold run. destruct (num_points this =? 0); [done|].
  destruct (isAligned 16 r_ptr) eqn:Hr; [|done].
  destruct (isAligned 16 I0_ptr) eqn:H0; [|done].
  simpl andb. cbv iota.
  by rewrite aligned_loop_unaligned_loop.
Qed.

End Alignment.

(** ** [run] and the scalar reference under the precondition *)

Section RunOk.

Variables WITH_SIMD SSE4_1 : bool.
Variable this : Impl.
Variable I0_ptr : float_ptr.
Variable I1_ptr : list float.
Variable r_ptr : float_ptr.

Hypothesis Hpre : run_pre WITH_SIMD this I0_ptr I1_ptr r_ptr = true.

Lemma upto_0 : residuals_upto WITH_SIMD SSE4_1 this I0_ptr I1_ptr r_ptr 0 = data r_ptr.
Proof. reflexivity. Qed.

Lemma run_scalar_ok :
  run_scalar WITH_SIMD SSE4_1 this I0_ptr I1_ptr r_ptr =
  (reads_from WITH_SIMD this 0 (N this),
   Ok (residuals_upto WITH_SIMD SSE4_1 this I0_ptr I1_ptr r_ptr (N this))).
Proof using Hpre.
  unfold run_scalar. rewrite (num_points_N _ _ _ _ _ Hpre).
  destruct (Z.eqb_spec (Z.of_nat (N this)) 0) as [Hz|Hz].
  - assert (HN : N this = 0%nat) by lia. by rewrite HN.
  - rewrite <- upto_0. change 0 with (Z.of_nat 0).
    apply (scalar_loop_ok _ _ _ _ _ _ Hpre); [done|].
    unfold fuel. rewrite (num_points_N _ _ _ _ _ Hpre). lia.
Qed.

Lemma run_ok :
  run WITH_SIMD SSE4_1 this I0_ptr I1_ptr r_ptr =
  (reads_from WITH_SIMD this 0 (N this),
   Ok (residuals_upto WITH_SIMD SSE4_1 this I0_ptr I1_ptr r_ptr (N this))).
Proof using Hpre.
  rewrite run_unaligned. rewrite (num_points_N _ _ _ _ _ Hpre).
  destruct (Z.eqb_spec (Z.of_nat (N this)) 0) as [Hz|Hz].
  - assert (HN : N this = 0%nat) by lia. by rewrite HN.
  - assert (Hfuel : fuel this = N this).
    { unfold fuel. rewrite (num_points_N _ _ _ _ _ Hpre). lia. }
    pose proof (Nat.div_mod_eq (N this) 8) as Hdiv.
    pose proof (Nat.mod_upper_bound (N this) 8) as Hmod.
    rewrite <- upto_0. change 0 with (Z.of_nat 0).
    rewrite (unaligned_loop_ok _ _ _ _ _ _ Hpre (N this / 8)) by lia.
    unfold bind at 1. cbn [fst snd].
    rewrite (scalar_loop_ok _ _ _ _ _ _ Hpre (N this mod 8)) by lia.
    cbn [fst snd]. rewrite <- reads_from_app.
    by replace (8 * (N this / 8) + N this mod 8)%nat with (N this) by lia.
Qed.

End RunOk.

Lemma lookup_residuals_upto WITH_SIMD SSE4_1 this I0_ptr I1_ptr r_ptr (n i : nat) :
  (i < n)%nat ->
  residuals_upto WITH_SIMD SSE4_1 this I0_ptr I1_ptr r_ptr n !! i
  = Some (residual WITH_SIMD SSE4_1 this I0_ptr I1_ptr i).
Proof.
  intros Hi. unfold residuals_upto.
  rewrite lookup_app_l by (rewrite length_map, length_seq; lia).
  rewrite list_lookup_fmap, lookup_seq_lt by done. reflexivity.
Qed.

Lemma lookup_residuals_upto_ge WITH_SIMD SSE4_1 this I0_ptr I1_ptr r_ptr (n j : nat) :
  (n <= j)%nat ->
  residuals_upto WITH_SIMD SSE4_1 this I0_ptr I1_ptr r_ptr n !! j = data r_ptr !! j.
Proof.
  intros Hj. unfold residuals_upto.
  rewrite lookup_app_r by (rewrite length_map, length_seq; lia).
  rewrite length_map, length_seq, lookup_drop. f_equal. lia.
Qed.

Lemma take_residuals_upto WITH_SIMD SSE4_1 this I0_ptr I1_ptr r_ptr (n : nat) :
  take n (residuals_upto WITH_SIMD SSE4_1 this I0_ptr I1_ptr r_ptr n)
  = map (residual WITH_SIMD SSE4_1 this I0_ptr I1_ptr) (seq 0 n).
Proof.
  unfold residuals_upto. apply take_app_length'.
  by rewrite length_map, length_seq.
Qed.

(** * The claims *)

(** ** Residuals of invalid points *)

(** C1, as the code has it.  For a point whose validity flag is false,
    [operator()] yields exactly 0 without touching the image, and [run]
    still subtracts the reference intensity: it writes [0 - I0[i]] into
    [r[i]], for every [I0] and [I1]. *)
Theorem run_invalid_point_residual (WITH_SIMD SSE4_1 : bool) (this : Impl)
    (I0_ptr : float_ptr) (I1 : list float) (r_ptr : float_ptr) (i : nat) (x : float) :
  run_pre WITH_SIMD this I0_ptr I1 r_ptr = true ->
  (i < N this)%nat ->
  _valid_ptr this !! i = Some false ->
  data I0_ptr !! i = Some x ->
  exists t r,
    run WITH_SIMD SSE4_1 this I0_ptr I1 r_ptr = (t, Ok r)
    /\ r !! i = Some (fsub fzero x)
    /\ t = flat_map (point_reads WITH_SIMD this) (seq 0 (N this))
    /\ point_reads WITH_SIMD this i = [].
Proof.
  intros Hpre Hi Hv Hx.
  exists (reads_from WITH_SIMD this 0 (N this)),
         (residuals_upto WITH_SIMD SSE4_1 this I0_ptr I1 r_ptr (N this)).
  split; [by apply run_ok|].
  rewrite lookup_residuals_upto by done.
  unfold residual, sampled, point_reads.
  rewrite (list_lookup_total_correct _ _ _ Hv), (list_lookup_total_correct _ _ _ Hx).
  done.
Qed.

Lemma run_invalid_point_residual_witness :
  exists t r,
    run false false invalid_point (buffer 0 (sevens 1)) image4x4 (buffer 16 [fzero]) = (t, Ok r)
    /\ r !! 0%nat = Some (fsub fzero (f32 7 0))
    /\ t = flat_map (point_reads false invalid_point) (seq 0 (N invalid_point))
    /\ point_reads false invalid_point 0 = [].
Proof.
  apply (run_invalid_point_residual false false invalid_point
           (buffer 0 (sevens 1)) image4x4 (buffer 16 [fzero]) 0 (f32 7 0));
    [reflexivity | unfold N; simpl; lia | reflexivity | reflexivity].
Defined.

(** C1, as the claim states it, fails: with the reference intensity 7 the
    residual written for an invalid point is -7, not 0. *)
Lemma run_invalid_point_not_zero :
  ~ (forall (WITH_SIMD SSE4_1 : bool) (this : Impl) (I0_ptr : float_ptr)
            (I1 : list float) (r_ptr : float_ptr) (i : nat) t r,
        run_pre WITH_SIMD this I0_ptr I1 r_ptr = true ->
        (i < N this)%nat ->
        _valid_ptr this !! i = Some false ->
        run WITH_SIMD SSE4_1 this I0_ptr I1 r_ptr = (t, Ok r) ->
        r !! i = Some fzero).
Proof.
  intros H.
  specialize (H false false invalid_point (buffer 0 (sevens 1)) image4x4
                (buffer 16 [fzero]) 0%nat [] [f32 (-7) 0] eq_refl (le_n 1) eq_refl eq_refl).
  discriminate H.
Qed.

(** ** Residuals of valid points *)

(** C3.  For a valid point with offset [o] and weights [w], [run] writes the
    dot product of the weights with the four neighbours [I1[o]], [I1[o+1]],
    [I1[o+stride]], [I1[o+stride+1]], minus [I0[i]].  Every build adds the
    four products in pairs. *)
Theorem run_valid_point_residual (WITH_SIMD SSE4_1 : bool) (this : Impl)
    (I0_ptr : float_ptr) (I1 : list float) (r_ptr : float_ptr)
    (i : nat) (o : Z) (w : Vector4) (a b c d x : float) :
  run_pre WITH_SIMD this I0_ptr I1 r_ptr = true ->
  _valid_ptr this !! i = Some true ->
  _inds this !! i = Some o ->
  _interp_coeffs this !! i = Some w ->
  rdZ I1 o = Some a ->
  rdZ I1 (o + 1) = Some b ->
  rdZ I1 (o + _stride this) = Some c ->
  rdZ I1 (o + _stride this + 1) = Some d ->
  data I0_ptr !! i = Some x ->
  exists t r,
    run WITH_SIMD SSE4_1 this I0_ptr I1 r_ptr = (t, Ok r)
    /\ r !! i =
       Some (fsub (fadd (fadd (fmul (e0 w) a) (fmul (e1 w) b))
                        (fadd (fmul (e2 w) c) (fmul (e3 w) d)))
                  x).
Proof.
  intros Hpre Hv Ho Hw Ha Hb Hc Hd Hx.
  exists (reads_from WITH_SIMD this 0 (N this)),
         (residuals_upto WITH_SIMD SSE4_1 this I0_ptr I1 r_ptr (N this)).
  split; [by apply run_ok|].
  rewrite lookup_residuals_upto by (by apply lookup_lt_Some in Hw).
  unfold residual, sampled, neighbours, pixel.
  rewrite (list_lookup_total_correct _ _ _ Hv), (list_lookup_total_correct _ _ _ Hx),
    (list_lookup_total_correct _ _ _ Ho), (list_lookup_total_correct _ _ _ Hw).
  rewrite Ha, Hb, Hc, Hd. simpl default.
  destruct WITH_SIMD; [rewrite dot_simd_dot_|]; by rewrite dot__pairwise.
Qed.

Lemma run_valid_point_residual_witness :
  exists t r,
    run false false one_point (buffer 0 (sevens 1)) image4x4 (buffer 16 [fzero]) = (t, Ok r)
    /\ r !! 0%nat =
       Some (fsub (fadd (fadd (fmul quarter (f32 5 0)) (fmul quarter (f32 6 0)))
                        (fadd (fmul quarter (f32 9 0)) (fmul quarter (f32 10 0))))
                  (f32 7 0)).
Proof.
  apply (run_valid_point_residual false false one_point
           (buffer 0 (sevens 1)) image4x4 (buffer 16 [fzero]) 0 5 quarters);
    reflexivity.
Defined.

(** The scene of the specification: the point at (1.5, 1.5) of the 4x4
    image samples 7.5, and with [I0 = 7] the residual is 0.5. *)
Lemma run_one_point (WITH_SIMD SSE4_1 : bool) :
  snd (run WITH_SIMD SSE4_1 one_point (buffer 0 (sevens 1)) image4x4 (buffer 16 [fzero]))
  = Ok [f32 1 (-1)].
Proof. by destruct WITH_SIMD, SSE4_1; vm_compute. Qed.

(** ** The wide loop against the scalar reference *)

(** C5.  On the same inputs [run], with its loop over groups of eight
    points, and the element-by-element loop alone read the image at the same
    indices and leave the same residual buffer, float for float, for every
    point count. *)
Theorem run_eq_run_scalar (WITH_SIMD SSE4_1 : bool) (this : Impl)
    (I0_ptr : float_ptr) (I1 : list float) (r_ptr : float_ptr) :
  run_pre WITH_SIMD this I0_ptr I1 r_ptr = true ->
  exists t r,
    run WITH_SIMD SSE4_1 this I0_ptr I1 r_ptr = (t, Ok r)
    /\ run_scalar WITH_SIMD SSE4_1 this I0_ptr I1 r_ptr = (t, Ok r).
Proof.
  intros Hpre.
  exists (reads_from WITH_SIMD this 0 (N this)),
         (residuals_upto WITH_SIMD SSE4_1 this I0_ptr I1 r_ptr (N this)).
  split; [by apply run_ok | by apply run_scalar_ok].
Qed.

Lemma run_eq_run_scalar_witness :
  exists t r,
    run false true nine_points (buffer 0 (sevens 9)) image4x4 (buffer 16 (replicate 10 fzero))
      = (t, Ok r)
    /\ run_scalar false true nine_points (buffer 0 (sevens 9)) image4x4
         (buffer 16 (replicate 10 fzero)) = (t, Ok r).
Proof.
  apply (run_eq_run_scalar false true nine_points (buffer 0 (sevens 9)) image4x4
           (buffer 16 (replicate 10 fzero))).
  reflexivity.
Defined.

(** ** Frame *)

Lemma run_pre_buffer WITH_SIMD this I0_ptr I1 (r_ptr r_ptr' : float_ptr) :
  run_pre WITH_SIMD this I0_ptr I1 r_ptr = true ->
  (N this <= length (data r_ptr'))%nat ->
  run_pre WITH_SIMD this I0_ptr I1 r_ptr' = true.
Proof.
  unfold run_pre. intros Hpre Hr.
  repeat (apply andb_prop in Hpre as [Hpre ?]).
  repeat (apply andb_true_intro; split); try done.
  by apply Nat.leb_le.
Qed.

(** C9.  [run] returns the object as it was, keeps the length of the
    residual buffer and every entry from index [N] on, and depends on the
    buffer only there: called again with the same [I0] and [I1], on the
    buffer it has just filled or on any other one with room for [N]
    residuals, it reads the same pixels and writes the same [N] residuals. *)
Theorem run_frame (WITH_SIMD SSE4_1 : bool) (self : PhotoError)
    (I0_ptr : float_ptr) (I1 : list float) (r_ptr r_ptr' : float_ptr) :
  run_pre WITH_SIMD (_impl self) I0_ptr I1 r_ptr = true ->
  (N (_impl self) <= length (data r_ptr'))%nat ->
  exists t r,
    PhotoError_run WITH_SIMD SSE4_1 self I0_ptr I1 r_ptr = (t, Ok (self, r))
    /\ length r = length (data r_ptr)
    /\ (forall j : nat, (N (_impl self) <= j)%nat -> r !! j = data r_ptr !! j)
    /\ PhotoError_run WITH_SIMD SSE4_1 self I0_ptr I1 (buffer (addr r_ptr) r)
       = (t, Ok (self, r))
    /\ exists r',
         PhotoError_run WITH_SIMD SSE4_1 self I0_ptr I1 r_ptr' = (t, Ok (self, r'))
         /\ take (N (_impl self)) r' = take (N (_impl self)) r.
Proof.
  intros Hpre Hr'.
  pose proof (pre_r _ _ _ _ _ Hpre) as Hr.
  pose proof (run_pre_buffer _ _ _ _ _ _ Hpre Hr') as Hpre'.
  set (r1 := residuals_upto WITH_SIMD SSE4_1 (_impl self) I0_ptr I1 r_ptr (N (_impl self))).
  assert (Hlen : length r1 = length (data r_ptr)) by (by apply length_upto).
  assert (Hpre1 : run_pre WITH_SIMD (_impl self) I0_ptr I1 (buffer (addr r_ptr) r1) = true).
  { apply (run_pre_buffer _ _ _ _ r_ptr); [done|]. simpl. lia. }
  exists (reads_from WITH_SIMD (_impl self) 0 (N (_impl self))), r1.
  unfold PhotoError_run.
  rewrite (run_ok _ SSE4_1 _ _ _ _ Hpre), (run_ok _ SSE4_1 _ _ _ _ Hpre'),
    (run_ok _ SSE4_1 _ _ _ _ Hpre1).
  unfold bind, ret; cbn [fst snd]. rewrite !app_nil_r.
  split; [done|]. split; [done|].
  split; [intros j Hj; by apply lookup_residuals_upto_ge|].
  split.
  - do 3 f_equal. unfold residuals_upto at 1. cbn [data buffer].
    subst r1. unfold residuals_upto at 1.
    rewrite drop_app_length'; [done|]. by rewrite length_map, length_seq.
  - eexists; split; [done|].
    subst r1. by rewrite !take_residuals_upto.
Qed.

Lemma run_frame_witness :
  exists t r,
    PhotoError_run false true {| _impl := nine_points |} (buffer 0 (sevens 9)) image4x4
      (buffer 16 (replicate 10 fzero)) = (t, Ok ({| _impl := nine_points |}, r))
    /\ length r = length (data (buffer 16 (replicate 10 fzero)))
    /\ (forall j : nat, (N (_impl {| _impl := nine_points |}) <= j)%nat ->
          r !! j = data (buffer 16 (replicate 10 fzero)) !! j)
    /\ PhotoError_run false true {| _impl := nine_points |} (buffer 0 (sevens 9)) image4x4
         (buffer (addr (buffer 16 (replicate 10 fzero))) r)
       = (t, Ok ({| _impl := nine_points |}, r))
    /\ exists r',
         PhotoError_run false true {| _impl := nine_points |} (buffer 0 (sevens 9)) image4x4
           (buffer 4 (sevens 12)) = (t, Ok ({| _impl := nine_points |}, r'))
         /\ take (N (_impl {| _impl := nine_points |})) r'
            = take (N (_impl {| _impl := nine_points |})) r.
Proof.
  apply (run_frame false true {| _impl := nine_points |} (buffer 0 (sevens 9)) image4x4
           (buffer 16 (replicate 10 fzero)) (buffer 4 (sevens 12)));
    [reflexivity | unfold N; simpl; lia].
Defined.

(** ** Alignment *)

(** C10.  The result of [run] does not depend on the addresses of [r] and
    [I0]: a call that takes the aligned branch (both addresses multiples of
    16) and a call on the same arrays at other addresses, which takes the
    unaligned branch, read the same pixels and leave the same residuals or
    stop at the same fault.  Where the aligned branch is taken, its loop is
    the loop of the unaligned branch. *)
Theorem run_alignment (WITH_SIMD SSE4_1 : bool) (this : Impl)
    (I0_ptr I0_ptr' : float_ptr) (I1 : list float) (r_ptr r_ptr' : float_ptr) :
  data I0_ptr = data I0_ptr' ->
  data r_ptr = data r_ptr' ->
  run WITH_SIMD SSE4_1 this I0_ptr I1 r_ptr = run WITH_SIMD SSE4_1 this I0_ptr' I1 r_ptr'
  /\ (isAligned 16 r_ptr && isAligned 16 I0_ptr = true ->
      forall (fuel : nat) (r : list float),
        aligned_loop WITH_SIMD SSE4_1 this I0_ptr I1 r_ptr fuel 0 r
        = unaligned_loop WITH_SIMD SSE4_1 this I0_ptr I1 fuel 0 r).
Proof.
  intros H0 Hr. split.
  - rewrite !run_unaligned.
    destruct I0_ptr, I0_ptr', r_ptr, r_ptr'. simpl in H0, Hr. by subst.
  - intros [Ha_r Ha_0]%andb_prop fuel r.
    by apply aligned_loop_unaligned_loop.
Qed.

Lemma run_alignment_witness :
  (isAligned 16 (buffer 36 (replicate 10 fzero)) && isAligned 16 (buffer 8 (sevens 9)) = false)
  /\ run false true nine_points (buffer 0 (sevens 9)) image4x4 (buffer 32 (replicate 10 fzero))
     = run false true nine_points (buffer 8 (sevens 9)) image4x4 (buffer 36 (replicate 10 fzero))
  /\ (isAligned 16 (buffer 32 (replicate 10 fzero)) && isAligned 16 (buffer 0 (sevens 9)) = true ->
      forall (fuel : nat) (r : list float),
        aligned_loop false true nine_points (buffer 0 (sevens 9)) image4x4
          (buffer 32 (replicate 10 fzero)) fuel 0 r
        = unaligned_loop false true nine_points (buffer 0 (sevens 9)) image4x4 fuel 0 r).
Proof.
  split; [reflexivity|].
  apply (run_alignment false true nine_points); reflexivity.
Defined.

(** ** The empty point set *)

(** C8.  With no points [init] leaves every per-point array empty, whatever
    it held before and without calling [projectPoints], and [run] then
    returns at once: it reads no pixel and the residual buffer is as it
    was. *)
Theorem init_run_empty
    (projectPoints : Matrix34 -> list Point -> ImageSize ->
                     list bool -> list Z -> list Vector4 -> list bool * list Z * list Vector4)
    (WITH_SIMD SSE4_1 : bool) (this : Impl) (P : Matrix34) (valid : list bool)
    (rows cols : Z) (I0_ptr : float_ptr) (I1 : list float) (r_ptr : float_ptr) :
  let this' := fst (init projectPoints this P [] valid rows cols) in
  let valid' := snd (init projectPoints this P [] valid rows cols) in
  valid' = []
  /\ _interp_coeffs this' = [] /\ _inds this' = [] /\ _valid_ptr this' = []
  /\ _stride this' = cols
  /\ run WITH_SIMD SSE4_1 this' I0_ptr I1 r_ptr = ([], Ok (data r_ptr)).
Proof. simpl. repeat split. Qed.

(** ** Reads of the target image *)

Lemma run_pre_intro (WITH_SIMD : bool) (this : Impl)
    (I0_ptr : float_ptr) (I1 : list float) (r_ptr : float_ptr) :
  Z.of_nat (N this) <= INT_MAX ->
  length (_inds this) = N this ->
  (N this <= length (_valid_ptr this))%nat ->
  (N this <= length (data I0_ptr))%nat ->
  (N this <= length (data r_ptr))%nat ->
  (forall i : nat, (i < N this)%nat ->
     forallb (in_bounds I1) (point_reads WITH_SIMD this i) = true) ->
  run_pre WITH_SIMD this I0_ptr I1 r_ptr = true.
Proof.
  intros H1 H2 H3 H4 H5 H6. unfold run_pre.
  repeat (apply andb_true_intro; split).
  - by apply Z.leb_le.
  - by apply Nat.eqb_eq.
  - by apply Nat.leb_le.
  - by apply Nat.leb_le.
  - by apply Nat.leb_le.
  - apply forallb_forall. intros i Hi%in_seq. apply H6. lia.
Qed.

(** Under the precondition every index [run] dereferences is inside the
    image buffer. *)
Lemma run_reads_in_bounds (WITH_SIMD : bool) (this : Impl)
    (I0_ptr : float_ptr) (I1 : list float) (r_ptr : float_ptr) :
  run_pre WITH_SIMD this I0_ptr I1 r_ptr = true ->
  Forall (fun k => 0 <= k < Z.of_nat (length I1)) (reads_from WITH_SIMD this 0 (N this)).
Proof.
  intros Hpre. apply Forall_forall. intros k Hk%list_elem_of_In.
  unfold reads_from in Hk. apply in_flat_map in Hk as (i & Hi%in_seq & Hk).
  pose proof (pre_reads _ _ _ _ _ Hpre i ltac:(lia)) as Hall.
  rewrite forallb_forall in Hall. apply Hall in Hk.
  unfold in_bounds in Hk. apply andb_prop in Hk as [Hlo Hhi].
  apply Z.leb_le in Hlo. apply Z.ltb_lt in Hhi. lia.
Qed.

(** The 2x2 footprint of a point inside the margin lies inside the image. *)
Lemma footprint_inside (this : Impl) (I1 : list float) (rows cols xi yi : Z) :
  _stride this = cols ->
  Z.of_nat (length I1) = rows * cols ->
  inside rows cols xi yi = true ->
  forallb (in_bounds I1) (footprint false this (yi * _stride this + xi)) = true.
Proof.
  intros Hs Hlen Hin. unfold inside in Hin.
  repeat (apply andb_prop in Hin as [Hin ?]).
  repeat match goal with
         | H : (_ <=? _) = true |- _ => apply Z.leb_le in H
         | H : (_ <? _) = true |- _ => apply Z.ltb_lt in H
         end.
  unfold footprint, in_bounds. rewrite Hs, Hlen. simpl.
  repeat (apply andb_true_intro; split); try done;
    first [apply Z.leb_le | apply Z.ltb_lt]; nia.
Qed.

(** X1.  The scalar build keeps what C2 asks for: with the margin rule on the
    valid points, [load_data] dereferences the image only inside
    [0, rows * stride). *)
Theorem run_scalar_build_reads_in_bounds (SSE4_1 : bool) (this : Impl)
    (I0_ptr : float_ptr) (I1 : list float) (r_ptr : float_ptr) (rows cols : Z) :
  _stride this = cols ->
  Z.of_nat (length I1) = rows * cols ->
  margin_rule rows cols this ->
  Z.of_nat (N this) <= INT_MAX ->
  length (_inds this) = N this ->
  (N this <= length (_valid_ptr this))%nat ->
  (N this <= length (data I0_ptr))%nat ->
  (N this <= length (data r_ptr))%nat ->
  exists t r,
    run false SSE4_1 this I0_ptr I1 r_ptr = (t, Ok r)
    /\ Forall (fun k => 0 <= k < rows * _stride this) t.
Proof.
  intros Hs Hlen Hm H1 H2 H3 H4 H5.
  assert (Hpre : run_pre false this I0_ptr I1 r_ptr = true).
  { apply run_pre_intro; try done. intros i Hi. unfold point_reads.
    destruct (lookup_lt_is_Some_2 (_valid_ptr this) i ltac:(lia)) as [v Hv].
    destruct (lookup_lt_is_Some_2 (_inds this) i ltac:(lia)) as [o Ho].
    rewrite (list_lookup_total_correct _ _ _ Hv), (list_lookup_total_correct _ _ _ Ho).
    destruct v; [|done].
    destruct (Hm i o Hv Ho) as (xi & yi & Hin & ->).
    by apply (footprint_inside this I1 rows cols). }
  exists (reads_from false this 0 (N this)),
         (residuals_upto false SSE4_1 this I0_ptr I1 r_ptr (N this)).
  split; [by apply run_ok|].
  rewrite Hs, <- Hlen. by apply (run_reads_in_bounds false this I0_ptr I1 r_ptr).
Qed.

Lemma margin_rule_corner_point : margin_rule 4 4 corner_point.
Proof.
  intros [|i] o Hv Ho; [|done].
  injection Ho as <-. by exists 2, 2.
Qed.

Lemma run_scalar_build_reads_in_bounds_witness :
  exists t r,
    run false false corner_point (buffer 0 (sevens 1)) image4x4 (buffer 16 [fzero]) = (t, Ok r)
    /\ Forall (fun k => 0 <= k < 4 * _stride corner_point) t.
Proof.
  apply (run_scalar_build_reads_in_bounds false corner_point (buffer 0 (sevens 1))
           image4x4 (buffer 16 [fzero]) 4 4);
    [reflexivity | reflexivity | exact margin_rule_corner_point
    | vm_compute; discriminate | reflexivity
    | unfold N; simpl; lia | unfold N; simpl; lia | unfold N; simpl; lia].
Defined.

(** C2 fails in the SIMD build.  The point with floor coordinates (2, 2) of
    a 4x4 image satisfies the margin rule, its offset is 10, and
    [load_data_simd] loads four floats from offset 10 and four from offset
    14: the read at index 16 is outside [0, 16).  The source says so itself:
    "NOTE this might segfault for points near the boundary". *)
Theorem run_simd_reads_past_image (SSE4_1 : bool) :
  margin_rule 4 4 corner_point
  /\ Z.of_nat (length image4x4) = 4 * _stride corner_point
  /\ run true SSE4_1 corner_point (buffer 0 (sevens 1)) image4x4 (buffer 16 [fzero])
     = ([10; 11; 12; 13; 14; 15; 16], Fault (I1_out_of_bounds 16)).
Proof.
  split; [exact margin_rule_corner_point|]. split; [reflexivity|].
  by destruct SSE4_1.
Qed.

(** ** The two builds

    Where the SIMD build stays inside the image, it and the scalar build
    leave the same residuals. *)
Lemma run_pre_scalar_build (this : Impl) (I0_ptr : float_ptr) (I1 : list float)
    (r_ptr : float_ptr) :
  run_pre true this I0_ptr I1 r_ptr = true -> run_pre false this I0_ptr I1 r_ptr = true.
Proof.
  intros Hpre. apply run_pre_intro;
    [by apply (pre_int true this I0_ptr I1 r_ptr) | by apply (pre_inds true this I0_ptr I1 r_ptr)
    | by apply (pre_valid true this I0_ptr I1 r_ptr) | by apply (pre_I0 true this I0_ptr I1 r_ptr)
    | by apply (pre_r true this I0_ptr I1 r_ptr) |].
  intros i Hi. pose proof (pre_reads _ _ _ _ _ Hpre i Hi) as Hrd.
  unfold point_reads in *. destruct (_valid_ptr this !!! i); [|done].
  unfold footprint in *. cbn [forallb] in *.
  apply andb_prop in Hrd as [Ha Hrd]. apply andb_prop in Hrd as [Hb Hrd].
  apply andb_prop in Hrd as [_ Hrd]. apply andb_prop in Hrd as [_ Hrd].
  apply andb_prop in Hrd as [Hc Hrd]. apply andb_prop in Hrd as [Hd _].
  by rewrite Ha, Hb, Hc, Hd.
Qed.

(** X12.  On inputs where the SIMD build stays inside the image, the SIMD
    build and the scalar build return the same residual buffer, float for
    float. *)
Lemma run_builds_agree (SSE4_1 : bool) (this : Impl) (I0_ptr : float_ptr)
    (I1 : list float) (r_ptr : float_ptr) :
  run_pre true this I0_ptr I1 r_ptr = true ->
  exists r,
    snd (run true SSE4_1 this I0_ptr I1 r_ptr) = Ok r
    /\ snd (run false SSE4_1 this I0_ptr I1 r_ptr) = Ok r.
Proof.
  intros Hpre. pose proof (run_pre_scalar_build _ _ _ _ Hpre) as Hpre'.
  rewrite (run_ok _ SSE4_1 _ _ _ _ Hpre), (run_ok _ SSE4_1 _ _ _ _ Hpre').
  eexists; split; [done|]. cbn [snd]. reflexivity.
Qed.

(** ** Classification of projected points (OpenCV variant) *)

Lemma floor_float_spec (s : bool) (m : positive) (e : Z) (z : Z) :
  floor_float (S754_finite s m e) = Some z ->
  if 0 <=? e then z = cond_Zopp s (Zpos m) * 2 ^ e
  else z * 2 ^ (- e) <= cond_Zopp s (Zpos m) < (z + 1) * 2 ^ (- e).
Proof.
  simpl. intros [= <-]. destruct (Z.leb_spec 0 e) as [He|He]; [done|].
  assert (Hp : 0 < 2 ^ (- e)) by (apply Z.pow_pos_nonneg; lia).
  pose proof (Z.mul_div_le (cond_Zopp s (Z.pos m)) _ Hp).
  pose proof (Z.mul_succ_div_gt (cond_Zopp s (Z.pos m)) _ Hp).
  nia.
Qed.

(** A coordinate whose floor is not negative truncates to its floor. *)
Lemma trunc_float_floor (x : float) (xi : Z) :
  floor_float x = Some xi -> 0 <= xi -> trunc_float x = Some xi.
Proof.
  destruct x as [s|s| |s m e]; simpl; try done.
  intros [= <-] Hxi. f_equal.
  destruct s; simpl in *; [exfalso|done].
  destruct (Z.leb_spec 0 e) as [He|He].
  - assert (0 < 2 ^ e) by (apply Z.pow_pos_nonneg; lia). nia.
  - assert (Hp : 0 < 2 ^ (- e)) by (apply Z.pow_pos_nonneg; lia).
    pose proof (Z.mul_div_le (Z.neg m) _ Hp). nia.
Qed.

(** There the conversion to [int] is the floor, *)
Lemma static_cast_int_floor (x : float) (xi : Z) :
  floor_float x = Some xi -> 0 <= xi <= INT_MAX -> static_cast_int x = xi.
Proof.
  intros Hx Hxi. unfold static_cast_int.
  rewrite (trunc_float_floor x xi) by (done || lia).
  assert (Hmin : INT_MIN < 0) by done.
  destruct (Z.leb_spec INT_MIN xi); [|lia].
  destruct (Z.leb_spec xi INT_MAX); [done|lia].
Qed.

Lemma static_cast_int_range (x : float) : INT_MIN <= static_cast_int x <= INT_MAX.
Proof.
  unfold static_cast_int. destruct (trunc_float x) as [z|]; [|by vm_compute].
  destruct (Z.leb_spec INT_MIN z); simpl; [|by vm_compute].
  destruct (Z.leb_spec z INT_MAX); simpl; [lia|by vm_compute].
Qed.

(** and beyond [INT_MAX] it is [INT_MIN]. *)
Lemma static_cast_int_floor_big (x : float) (xi : Z) :
  floor_float x = Some xi -> INT_MAX < xi -> static_cast_int x = INT_MIN.
Proof.
  intros Hx Hxi. unfold static_cast_int.
  assert (Hmax : 0 < INT_MAX) by done.
  rewrite (trunc_float_floor x xi) by (done || lia).
  destruct (Z.leb_spec xi INT_MAX); [lia|]. by rewrite andb_false_r.
Qed.

Lemma inside_static_cast_int_floor (rows cols : Z) (x y : float) (xi yi : Z) :
  rows <= INT_MAX -> cols <= INT_MAX ->
  floor_float x = Some xi -> floor_float y = Some yi -> 0 <= xi -> 0 <= yi ->
  inside rows cols (static_cast_int x) (static_cast_int y) = inside rows cols xi yi.
Proof.
  intros Hrows Hcols Hx Hy Hxi Hyi.
  assert (Hmin : INT_MIN < 0) by done.
  destruct (Z.le_gt_cases xi INT_MAX) as [Hxs|Hxb];
    destruct (Z.le_gt_cases yi INT_MAX) as [Hys|Hyb].
  - by rewrite (static_cast_int_floor x xi), (static_cast_int_floor y yi).
  - rewrite (static_cast_int_floor_big y yi) by done.
    unfold inside.
    destruct (Z.leb_spec 0 INT_MIN); [lia|].
    destruct (Z.ltb_spec yi (rows - 1)); [lia|].
    by rewrite !andb_false_r.
  - rewrite (static_cast_int_floor_big x xi) by done.
    unfold inside.
    destruct (Z.leb_spec 0 INT_MIN); [lia|].
    destruct (Z.ltb_spec xi (cols - 1)); [lia|].
    by rewrite !andb_false_r.
  - rewrite (static_cast_int_floor_big x xi) by done.
    unfold inside.
    destruct (Z.leb_spec 0 INT_MIN); [lia|].
    destruct (Z.ltb_spec xi (cols - 1)); [lia|].
    by rewrite !andb_false_r.
Qed.

Lemma init_opencv_lookup (P : Matrix34) (X : list Point) (rows cols : Z)
    (i : nat) (Xi : Point) :
  X !! i = Some Xi ->
  snd (init_opencv P X rows cols) !! i
  = Some (snd (classify_opencv rows cols (Matrix34_mul P Xi))).
Proof.
  intros Hi. unfold init_opencv. cbn [snd].
  rewrite !list_lookup_fmap, Hi. reflexivity.
Qed.

(** The variant of [init] under [PHOTO_ERROR_WITH_OPENCV], which line 11
    compiles out.
    [valid[i]] is the margin rule on [(xi, yi)], the projected coordinate
    converted by [static_cast<int>], which truncates toward zero.  Where the
    floors are not negative this is the rule on the floors; hence a point
    with floor [cols-1] in x or [rows-1] in y is invalid, and a point with
    floors in [0, cols-2] x [0, rows-2] is valid. *)
Theorem init_opencv_valid (P : Matrix34) (X : list Point) (rows cols : Z)
    (i : nat) (Xi : Point) (x y : float) (v : bool) :
  X !! i = Some Xi ->
  classify_opencv rows cols (Matrix34_mul P Xi) = (x, y, v) ->
  rows <= INT_MAX -> cols <= INT_MAX ->
  snd (init_opencv P X rows cols) !! i = Some v
  /\ v = inside rows cols (static_cast_int x) (static_cast_int y)
  /\ (forall xi yi : Z,
        floor_float x = Some xi -> floor_float y = Some yi -> 0 <= xi -> 0 <= yi ->
        v = inside rows cols xi yi)
  /\ (floor_float x = Some (cols - 1) -> v = false)
  /\ (floor_float y = Some (rows - 1) -> v = false)
  /\ (forall xi yi : Z,
        floor_float x = Some xi -> floor_float y = Some yi ->
        0 <= xi <= cols - 2 -> 0 <= yi <= rows - 2 -> v = true).
Proof.
  intros Hi Hc Hrows Hcols.
  assert (Hv : v = inside rows cols (static_cast_int x) (static_cast_int y)).
  { unfold classify_opencv in Hc. by injection Hc as <- <- <-. }
  assert (Hfl : forall xi yi : Z,
             floor_float x = Some xi -> floor_float y = Some yi -> 0 <= xi -> 0 <= yi ->
             v = inside rows cols xi yi).
  { intros xi yi Hx Hy Hxi Hyi. rewrite Hv. by apply inside_static_cast_int_floor. }
  split; [by rewrite (init_opencv_lookup _ _ _ _ _ _ Hi), Hc|].
  split; [done|]. split; [done|].
  split; [|split].
  - intros Hx. rewrite Hv. unfold inside.
    destruct (Z.le_gt_cases 0 (cols - 1)) as [Hpos|Hneg].
    + rewrite (static_cast_int_floor x (cols - 1)) by (done || lia).
      rewrite Z.ltb_irrefl. by rewrite andb_false_r.
    + destruct (Z.leb_spec 0 (static_cast_int x)); [|done].
      destruct (Z.ltb_spec (static_cast_int x) (cols - 1)); [lia|done].
  - intros Hy. rewrite Hv. unfold inside.
    destruct (Z.le_gt_cases 0 (rows - 1)) as [Hpos|Hneg].
    + rewrite (static_cast_int_floor y (rows - 1)) by (done || lia).
      rewrite Z.ltb_irrefl. by rewrite andb_false_r.
    + destruct (Z.leb_spec 0 (static_cast_int y)); [|by rewrite andb_false_r].
      destruct (Z.ltb_spec (static_cast_int y) (rows - 1)); [lia|by rewrite andb_false_r].
  - intros xi yi Hx Hy Hxi Hyi. rewrite (Hfl xi yi) by (done || lia).
    unfold inside.
    destruct (Z.leb_spec 0 xi); [|lia]. destruct (Z.ltb_spec xi (cols - 1)); [|lia].
    destruct (Z.leb_spec 0 yi); [|lia]. destruct (Z.ltb_spec yi (rows - 1)); [|lia].
    done.
Qed.

Lemma init_opencv_valid_witness :
  snd (init_opencv P_id [point (f32 5 (-1)) (f32 3 (-1)) fone] 4 4) !! 0%nat = Some true
  /\ true = inside 4 4 (static_cast_int (f32 5 (-1))) (static_cast_int (f32 3 (-1)))
  /\ (forall xi yi : Z,
        floor_float (f32 5 (-1)) = Some xi -> floor_float (f32 3 (-1)) = Some yi ->
        0 <= xi -> 0 <= yi -> true = inside 4 4 xi yi)
  /\ (floor_float (f32 5 (-1)) = Some (4 - 1) -> true = false)
  /\ (floor_float (f32 3 (-1)) = Some (4 - 1) -> true = false)
  /\ (forall xi yi : Z,
        floor_float (f32 5 (-1)) = Some xi -> floor_float (f32 3 (-1)) = Some yi ->
        0 <= xi <= 4 - 2 -> 0 <= yi <= 4 - 2 -> true = true).
Proof.
  apply (init_opencv_valid P_id [point (f32 5 (-1)) (f32 3 (-1)) fone] 4 4 0
           (point (f32 5 (-1)) (f32 3 (-1)) fone));
    [reflexivity | reflexivity | vm_compute; discriminate | vm_compute; discriminate].
Defined.

(** The rule on the floors fails on that variant: the point projecting
    to (-0.5, 1) has floor coordinates (-1, 1), outside the margin, and is
    marked valid, because -0.5 converts to 0. *)
Lemma init_opencv_valid_not_floor :
  ~ (forall (P : Matrix34) (X : list Point) (rows cols : Z) (i : nat) (Xi : Point)
            (x y : float) (v : bool) (xi yi : Z),
        X !! i = Some Xi ->
        classify_opencv rows cols (Matrix34_mul P Xi) = (x, y, v) ->
        rows <= INT_MAX -> cols <= INT_MAX ->
        floor_float x = Some xi -> floor_float y = Some yi ->
        snd (init_opencv P X rows cols) !! i = Some (inside rows cols xi yi)).
Proof.
  intros H.
  specialize (H P_id [point (f32 (-1) (-1)) fone fone] 4 4 0%nat
                (point (f32 (-1) (-1)) fone fone) (f32 (-1) (-1)) fone true (-1) 1
                eq_refl eq_refl).
  assert (Hb : 4 <= INT_MAX) by (vm_compute; discriminate).
  specialize (H Hb Hb eq_refl eq_refl).
  vm_compute in H. discriminate H.
Qed.

(** ** Degenerate projections (OpenCV variant) *)

Lemma fdiv_fone_zero (s : bool) : fdiv fone (S754_zero s) = S754_infinity s.
Proof. by destruct s. Qed.

(** An infinite factor makes the product infinite or NaN, and either
    converts to [INT_MIN]. *)
Lemma static_cast_int_fmul_infinity (s : bool) (y : float) :
  static_cast_int (fmul (S754_infinity s) y) = INT_MIN.
Proof. by destruct y. Qed.

Lemma classify_opencv_infinite (rows cols : Z) (p : Vector3f) (s : bool) :
  fdiv fone (p2 p) = S754_infinity s -> snd (classify_opencv rows cols p) = false.
Proof.
  intros Hw. unfold classify_opencv. cbn [snd]. rewrite Hw.
  by rewrite !static_cast_int_fmul_infinity.
Qed.

(** The variant of [init] under [PHOTO_ERROR_WITH_OPENCV], which line 11
    compiles out.  There is no guard on the division: a scale
    that is zero, or so near zero that its reciprocal overflows, gives an
    infinite [w_i], an infinite or NaN coordinate, [INT_MIN] as its
    conversion, and so an invalid point.  No step can fail, [valid] has one
    entry per point, and every point is classified as it would be alone. *)
Theorem init_opencv_degenerate (P : Matrix34) (X : list Point) (rows cols : Z)
    (i : nat) (Xi : Point) :
  X !! i = Some Xi ->
  (exists s, p2 (Matrix34_mul P Xi) = S754_zero s)
  \/ (exists s, fdiv fone (p2 (Matrix34_mul P Xi)) = S754_infinity s) ->
  snd (init_opencv P X rows cols) !! i = Some false
  /\ length (snd (init_opencv P X rows cols)) = length X
  /\ (forall (j : nat) (Xj : Point),
        X !! j = Some Xj ->
        snd (init_opencv P X rows cols) !! j
        = snd (init_opencv P [Xj] rows cols) !! 0%nat).
Proof.
  intros Hi Hz. split; [|split].
  - rewrite (init_opencv_lookup _ _ _ _ _ _ Hi). f_equal.
    destruct Hz as [[s Hs]|[s Hs]].
    + apply (classify_opencv_infinite _ _ _ s). by rewrite Hs, fdiv_fone_zero.
    + by apply (classify_opencv_infinite _ _ _ s).
  - unfold init_opencv. cbn [snd]. by rewrite !length_map.
  - intros j Xj Hj. by rewrite (init_opencv_lookup _ _ _ _ _ _ Hj).
Qed.

Lemma init_opencv_degenerate_witness :
  snd (init_opencv P_id [point fone fone fone; point fone fone fzero; point (f32 2 0) (f32 2 0) fone]
         4 4) !! 1%nat = Some false
  /\ length (snd (init_opencv P_id
                    [point fone fone fone; point fone fone fzero; point (f32 2 0) (f32 2 0) fone]
                    4 4))
     = length [point fone fone fone; point fone fone fzero; point (f32 2 0) (f32 2 0) fone]
  /\ (forall (j : nat) (Xj : Point),
        [point fone fone fone; point fone fone fzero; point (f32 2 0) (f32 2 0) fone] !! j
          = Some Xj ->
        snd (init_opencv P_id
               [point fone fone fone; point fone fone fzero; point (f32 2 0) (f32 2 0) fone]
               4 4) !! j
        = snd (init_opencv P_id [Xj] 4 4) !! 0%nat).
Proof.
  apply (init_opencv_degenerate P_id
           [point fone fone fone; point fone fone fzero; point (f32 2 0) (f32 2 0) fone]
           4 4 1 (point fone fone fzero));
    [reflexivity | left; exists false; reflexivity].
Defined.

(** A batch of three: the degenerate point in the middle is invalid and its
    neighbours are valid. *)
Lemma init_opencv_batch :
  snd (init_opencv P_id
         [point fone fone fone; point fone fone fzero; point (f32 2 0) (f32 2 0) fone] 4 4)
  = [true; false; true].
Proof. reflexivity. Qed.

(** A reciprocal that overflows: the scale 2^-130. *)
Lemma fdiv_fone_subnormal : fdiv fone (f32 1 (-130)) = S754_infinity false.
Proof. reflexivity. Qed.

(** * Single-precision rounding on the unit interval *)


(** ** Digits *)

Lemma digits2_pos_bounds (p : positive) :
  2 ^ (Zpos (digits2_pos p) - 1) <= Zpos p < 2 ^ Zpos (digits2_pos p).
Proof.
  induction p as [p IH|p IH|]; simpl digits2_pos.
  - rewrite Pos2Z.inj_succ.
    replace (Z.succ (Z.pos (digits2_pos p)) - 1) with (Z.succ (Z.pos (digits2_pos p) - 1)) by lia.
    rewrite !Z.pow_succ_r by lia. lia.
  - rewrite Pos2Z.inj_succ.
    replace (Z.succ (Z.pos (digits2_pos p)) - 1) with (Z.succ (Z.pos (digits2_pos p) - 1)) by lia.
    rewrite !Z.pow_succ_r by lia. lia.
  - by vm_compute.
Qed.

Lemma Zdigits2_bounds (m : Z) :
  0 < m -> 2 ^ (Zdigits2 m - 1) <= m < 2 ^ Zdigits2 m.
Proof. destruct m as [|p|p]; try lia. intros _. apply digits2_pos_bounds. Qed.

Lemma Zdigits2_pos (m : Z) : 0 < m -> 0 < Zdigits2 m.
Proof. destruct m; simpl; lia. Qed.

Lemma Zdigits2_le (m : Z) (k : Z) : 0 < m -> 0 <= k -> m < 2 ^ k -> Zdigits2 m <= k.
Proof.
  intros Hm Hk Hlt. pose proof (Zdigits2_bounds m Hm) as [Hlo _].
  pose proof (Zdigits2_pos m Hm).
  destruct (Z.le_gt_cases (Zdigits2 m) k) as [|Hgt]; [done|].
  assert (2 ^ k <= 2 ^ (Zdigits2 m - 1)) by (apply Z.pow_le_mono_r; lia). lia.
Qed.

Lemma Zdigits2_ge (m : Z) (k : Z) : 0 < m -> 2 ^ k <= m -> k < Zdigits2 m.
Proof.
  intros Hm Hle. pose proof (Zdigits2_bounds m Hm) as [_ Hhi].
  pose proof (Zdigits2_pos m Hm).
  destruct (Z.lt_ge_cases k (Zdigits2 m)) as [|Hge]; [done|].
  assert (2 ^ Zdigits2 m <= 2 ^ k) by (apply Z.pow_le_mono_r; lia). lia.
Qed.

(** ** Shifting right *)

Lemma iter_pos_nat {A} (f : A -> A) (p : positive) : forall x : A,
  SpecFloat.iter_pos f p x = Nat.iter (Pos.to_nat p) f x.
Proof.
  induction p as [p IH|p IH|]; intros x; simpl SpecFloat.iter_pos.
  - rewrite !IH, Pos2Nat.inj_xI, <- Nat.iter_add.
    replace (S (2 * Pos.to_nat p)) with (S (Pos.to_nat p + Pos.to_nat p)) by lia.
    by rewrite Nat.iter_succ_r.
  - rewrite !IH, Pos2Nat.inj_xO, <- Nat.iter_add. f_equal. lia.
  - reflexivity.
Qed.

Lemma shifted_0 (M : Z) : 0 <= M -> shifted M 0 (shr_record_of_loc M loc_Exact).
Proof. intros HM. exists 0. simpl. repeat split; lia. Qed.

Lemma shifted_shr_1 (M n : Z) (rec : shr_record) :
  0 <= n -> shifted M n rec -> shifted M (n + 1) (shr_1 rec).
Proof.
  intros Hn (rem & HM & Hm & Hrem & Hr & Hs).
  assert (Hp : 0 < 2 ^ n) by (apply Z.pow_pos_nonneg; lia).
  assert (Hp1 : 2 ^ (n + 1) = 2 * 2 ^ n) by (rewrite Z.pow_add_r by lia; lia).
  destruct rec as [m r s]. simpl in Hm, HM, Hr, Hs. subst r s.
  unfold shifted. rewrite Hp1. generalize dependent (2 ^ n). intros P HM Hrem Hp Hp1.
  destruct m as [|[p|p|]|p]; try lia; simpl.
  - exists rem. simpl. repeat split; try lia; zbool.
  - exists (rem + P). simpl. repeat split; try lia; zbool.
  - exists rem. simpl. repeat split; try lia; zbool.
  - exists (rem + P). simpl. repeat split; try lia; zbool.
Qed.

Lemma shifted_iter (M : Z) (k : nat) : forall (n : Z) (rec : shr_record),
  0 <= n -> shifted M n rec -> shifted M (n + Z.of_nat k) (Nat.iter k shr_1 rec).
Proof.
  induction k as [|k IH]; intros n rec Hn Hrec.
  - by rewrite Z.add_0_r.
  - rewrite Nat.iter_succ_r.
    replace (n + Z.of_nat (S k)) with (n + 1 + Z.of_nat k) by lia.
    apply IH; [lia|]. by apply shifted_shr_1.
Qed.

(** [shr] from an exact start: the exponent moves up by the number of
    shifts. *)
Lemma shifted_shr (M e n : Z) :
  0 <= M ->
  exists rec k, shr (shr_record_of_loc M loc_Exact) e n = (rec, e + k)
                /\ k = Z.max 0 n /\ shifted M k rec.
Proof.
  intros HM. destruct n as [|p|p]; simpl.
  - exists (shr_record_of_loc M loc_Exact), 0.
    rewrite Z.add_0_r. split; [done|]. split; [done|]. by apply shifted_0.
  - exists (SpecFloat.iter_pos shr_1 p (shr_record_of_loc M loc_Exact)), (Z.pos p).
    split; [done|]. split; [lia|]. rewrite iter_pos_nat.
    replace (Z.pos p) with (0 + Z.of_nat (Pos.to_nat p)) at 1 by lia.
    apply shifted_iter; [lia|]. by apply shifted_0.
  - exists (shr_record_of_loc M loc_Exact), 0.
    rewrite Z.add_0_r. split; [done|]. split; [done|]. by apply shifted_0.
Qed.

(** ** Rounding to nearest, ties to even *)

Lemma round_nearest_even_shifted (M n : Z) (rec : shr_record) :
  0 <= n -> shifted M n rec ->
  let m2 := round_nearest_even (shr_m rec) (loc_of_shr_record rec) in
  shr_m rec <= m2 <= shr_m rec + 1
  /\ 2 * Z.abs (m2 * 2 ^ n - M) <= 2 ^ n
  /\ (forall K : Z, M <= K * 2 ^ n -> m2 <= K)
  /\ (M = shr_m rec * 2 ^ n -> m2 = shr_m rec).
Proof.
  intros Hn (rem & HM & Hm & Hrem & Hr & Hs).
  assert (Hp : 0 < 2 ^ n) by (apply Z.pow_pos_nonneg; lia).
  destruct rec as [m r s]. simpl in Hm, HM, Hr, Hs. subst r s. simpl.
  generalize dependent (2 ^ n). intros P HM Hrem Hp.
  destruct (Z.leb_spec P (2 * rem)); simpl.
  - destruct (Z.ltb_spec P (2 * rem)); simpl.
    + repeat split; try lia. intros K HK. nia.
    + destruct (Z.even m); repeat split; try lia; intros K HK; nia.
  - destruct (Z.ltb_spec 0 rem); simpl; repeat split; try lia; intros K HK; nia.
Qed.

(** ** [binary_round_aux] on the unit interval *)

Lemma fexp_eq (x : Z) : fexp prec emax x = Z.max (x - 24) (-149).
Proof. reflexivity. Qed.

Lemma pow2_pos (a : Z) : 0 <= a -> 0 < 2 ^ a.
Proof. intros. by apply Z.pow_pos_nonneg. Qed.

Lemma pow2_le (a b : Z) : 0 <= a <= b -> 2 ^ a <= 2 ^ b.
Proof. intros. apply Z.pow_le_mono_r; lia. Qed.

Lemma pow2_le_inv (a b : Z) : 0 <= a -> 0 <= b -> 2 ^ a <= 2 ^ b -> a <= b.
Proof. intros Ha Hb H. apply (Z.pow_le_mono_r_iff 2); lia. Qed.

Lemma pow2_lt_inv (a b : Z) : 0 <= a -> 0 <= b -> 2 ^ a < 2 ^ b -> a < b.
Proof. intros Ha Hb H. apply (Z.pow_lt_mono_r_iff 2); lia. Qed.

Lemma shifted_0_inv (M : Z) (rec : shr_record) : shifted M 0 rec -> shr_m rec = M.
Proof. intros (rem & HM & _ & Hrem & _). simpl in *. lia. Qed.

(** The second call to [shr_fexp], on a mantissa of at most [prec] digits or
    on 2^prec, loses nothing. *)
Lemma shr_fexp_exact (m2 e1 : Z) :
  0 <= m2 <= 2 ^ 24 -> -149 <= e1 ->
  exists m3 k2,
    shr_fexp prec emax m2 e1 loc_Exact = ({| shr_m := m3; shr_r := false; shr_s := false |}, e1 + k2)
    /\ 0 <= k2 <= 1 /\ m2 = m3 * 2 ^ k2 /\ 0 <= m3 /\ (m2 < 2 ^ 24 -> k2 = 0).
Proof.
  intros Hm2 He1. unfold shr_fexp. rewrite fexp_eq.
  destruct (Z.eq_dec m2 (2 ^ 24)) as [->|Hne].
  - exists (2 ^ 23), 1. replace (Z.max _ _ - e1) with 1 by (simpl Zdigits2; lia).
    split; [|by vm_compute]. simpl. by rewrite Z.add_comm.
  - exists m2, 0.
    assert (Hn : Z.max (Zdigits2 m2 + e1 - 24) (-149) - e1 <= 0).
    { destruct (Z.eq_dec m2 0) as [->|Hz]; [simpl; lia|].
      pose proof (Zdigits2_le m2 24 ltac:(lia) ltac:(lia) ltac:(lia)). lia. }
    rewrite Z.add_0_r, Z.pow_0_r, Z.mul_1_r.
    destruct (Z.max (Zdigits2 m2 + e1 - 24) (-149) - e1) as [|q|q]; try lia; simpl;
      (split; [done|lia]).
Qed.

Lemma shr_fexp_shifted (M e : Z) :
  0 <= M ->
  exists rec k,
    shr_fexp prec emax M e loc_Exact = (rec, e + k)
    /\ k = Z.max 0 (Z.max (Zdigits2 M + e - 24) (-149) - e)
    /\ shifted M k rec.
Proof. intros HM. unfold shr_fexp. rewrite fexp_eq. by apply shifted_shr. Qed.

(** Rounding [M * 2^e <= 1] to binary32: the result is in the unit interval,
    at most 2^-24 away. *)
Lemma binary_round_aux_unit (p : positive) (e : Z) :
  e <= 0 -> Zpos p <= 2 ^ (- e) ->
  (binary_round_aux prec emax false (Zpos p) e loc_Exact = S754_zero false
   /\ 2 ^ 24 * Zpos p <= 2 ^ (- e))
  \/ exists (m' : positive) (e' : Z),
       binary_round_aux prec emax false (Zpos p) e loc_Exact = S754_finite false m' e'
       /\ e <= e' <= 0 /\ -149 <= e' /\ Zpos m' <= 2 ^ (- e')
       /\ 2 ^ 24 * Z.abs (Zpos m' * 2 ^ (e' - e) - Zpos p) <= 2 ^ (- e).
Proof.
  intros He HM.
  set (M := Zpos p) in *.
  pose proof (Zdigits2_bounds M ltac:(done)) as [Hdlo Hdhi].
  pose proof (Zdigits2_pos M ltac:(done)) as Hdpos.
  set (d := Zdigits2 M) in *.
  assert (Hde : d + e <= 1).
  { assert (d - 1 <= - e); [|lia]. apply pow2_le_inv; lia. }
  set (n := Z.max (d + e - 24) (-149) - e).
  destruct (shr_fexp_shifted M e ltac:(done)) as (rec & k & Hshr & Hk & Hrec).
  fold d n in Hk.
  assert (Hk' : 0 <= k /\ (n <= 0 -> k = 0) /\ (0 < n -> k = n)) by lia.
  clear Hk. destruct Hk' as (Hknn & Hkz & Hkn).
  unfold binary_round_aux. rewrite Hshr.
  pose proof (round_nearest_even_shifted M k rec ltac:(lia) Hrec) as (Hm2 & Herr & Hup & Hex).
  set (m2 := round_nearest_even (shr_m rec) (loc_of_shr_record rec)) in *.
  assert (Hm0 : 0 <= shr_m rec) by (destruct Hrec as (? & ? & ? & _); done).
  assert (He1 : -149 <= e + k) by lia.
  assert (Hpk : 0 < 2 ^ k) by (apply pow2_pos; lia).
  (* the rounded mantissa is at most 2^-(e+k) *)
  assert (Hm2le : m2 <= 2 ^ (- (e + k))).
  { apply Hup. rewrite <- Z.pow_add_r by lia. by replace (- (e + k) + k) with (- e) by lia. }
  (* and at most 2^24 *)
  assert (Hm2p : m2 <= 2 ^ 24).
  { destruct (Z.le_gt_cases n 0) as [Hn|Hn].
    - assert (k = 0) by lia. subst k. rewrite (shifted_0_inv _ _ Hrec) in Hm2.
      assert (d <= 24) by lia.
      assert (2 ^ d <= 2 ^ 24) by (apply pow2_le; lia). lia.
    - assert (k = n) by lia.
      destruct Hrec as (rem & HMeq & _ & Hrem & _).
      assert (Hdk : d - k <= 24) by lia.
      destruct (Z.le_gt_cases 0 (d - k)) as [Hnn|Hneg].
      + assert (2 ^ d = 2 ^ (d - k) * 2 ^ k).
        { rewrite <- Z.pow_add_r by lia. f_equal. lia. }
        assert (shr_m rec < 2 ^ (d - k)) by nia.
        assert (2 ^ (d - k) <= 2 ^ 24) by (apply pow2_le; lia). lia.
      + assert (2 ^ d <= 2 ^ k) by (apply pow2_le; lia).
        assert (shr_m rec = 0) by nia.
        assert (0 < 2 ^ 24) by done. lia. }
  destruct (shr_fexp_exact m2 (e + k) ltac:(lia) He1) as (m3 & k2 & -> & Hk2 & Hm3 & Hm3pos & _).
  cbn [shr_m].
  assert (He1' : e + k <= -23 \/ k = 0) by lia.
  destruct m3 as [|q|q]; [left|right|lia].
  - split; [done|].
    assert (Hm2z : m2 = 0) by lia. rewrite Hm2z in Herr.
    destruct He1' as [He1'|Hk0].
    + assert (2 * M <= 2 ^ k) by lia.
      assert (2 ^ 23 * 2 ^ k <= 2 ^ (- e)).
      { rewrite <- Z.pow_add_r by lia. apply pow2_le. lia. }
      assert (2 ^ 24 = 2 * 2 ^ 23) by done. nia.
    + subst k. rewrite (shifted_0_inv _ _ Hrec) in Hm2. lia.
  - exists q, (e + k + k2).
    assert (Hle : (e + k + k2 <=? emax - prec) = true).
    { apply Z.leb_le. unfold emax, prec. lia. }
    rewrite Hle. split; [done|].
    assert (Hk2m : 0 < 2 ^ k2) by (apply pow2_pos; lia).
    assert (Hpow : 2 ^ (- (e + k)) = 2 ^ (- (e + k + k2)) * 2 ^ k2).
    { assert (k2 <= - (e + k)).
      { destruct (Z.eq_dec k2 0); [lia|]. assert (k2 = 1) by lia. subst k2.
        assert (2 <= m2) by lia.
        assert (1 < - (e + k) + 1); [|lia].
        apply pow2_lt_inv; try lia.
        rewrite Z.pow_add_r by lia. lia. }
      rewrite <- Z.pow_add_r by lia. f_equal. lia. }
    split; [|split; [lia|split]].
    + split; [lia|].
      destruct (Z.eq_dec k2 0); [|].
      * subst k2. destruct He1'; [lia|]. lia.
      * assert (k2 = 1) by lia. subst k2.
        assert (2 <= m2) by lia.
        assert (1 < - (e + k) + 1); [|lia].
        apply pow2_lt_inv; try lia.
        rewrite Z.pow_add_r by lia. lia.
    + nia.
    + replace (e + k + k2 - e) with (k2 + k) by lia.
      rewrite Z.pow_add_r by lia.
      replace (Z.pos q * (2 ^ k2 * 2 ^ k)) with (m2 * 2 ^ k) by lia.
      destruct He1' as [He1'|Hk0].
      * assert (2 ^ 23 * 2 ^ k <= 2 ^ (- e)).
        { rewrite <- Z.pow_add_r by lia. apply pow2_le. lia. }
        assert (2 ^ 24 = 2 * 2 ^ 23) by done. nia.
      * subst k. rewrite (shifted_0_inv _ _ Hrec) in Hex.
        rewrite Hex by lia.
        replace (M * 2 ^ 0 - M) with 0 by lia. simpl Z.abs.
        assert (0 < 2 ^ (- e)) by (apply pow2_pos; lia). lia.
Qed.

Lemma scaled_unit (s : Z) (x : float) :
  unit_float x -> on_grid s x -> 0 <= scaled s x <= 2 ^ s.
Proof.
  destruct x as [sg|sg| |sg m e]; simpl; try done.
  - intros _ _. split; [done|]. apply Z.pow_nonneg. lia.
  - destruct sg; [done|]. intros [He Hm] Hs. simpl.
    assert (0 < 2 ^ (e + s)) by (apply pow2_pos; lia).
    split; [nia|].
    replace s with (- e + (e + s)) at 2 by lia.
    rewrite (Z.pow_add_r 2 (- e) (e + s)) by lia. nia.
Qed.

Lemma on_grid_le (s s' : Z) (x : float) : s <= s' -> on_grid s x -> on_grid s' x.
Proof. destruct x; simpl; lia. Qed.

(** [binary_round_aux] in these terms. *)
Lemma binary_round_aux_scaled (p : positive) (e s : Z) :
  e <= 0 -> Zpos p <= 2 ^ (- e) -> 0 <= e + s -> 149 <= s ->
  let r := binary_round_aux prec emax false (Zpos p) e loc_Exact in
  unit_float r /\ on_grid 149 r /\ on_grid (- e) r
  /\ 2 ^ 24 * Z.abs (scaled s r - Zpos p * 2 ^ (e + s)) <= 2 ^ s.
Proof.
  intros He HM Hes Hs r.
  assert (Hsplit : 2 ^ s = 2 ^ (- e) * 2 ^ (e + s)).
  { rewrite <- Z.pow_add_r by lia. f_equal. lia. }
  assert (Hpes : 0 < 2 ^ (e + s)) by (apply pow2_pos; lia).
  destruct (binary_round_aux_unit p e He HM) as [[Hr Hz]|(m' & e' & Hr & He' & Hg & Hm' & Herr)];
    subst r; rewrite Hr; simpl.
  - repeat split; try done.
    rewrite Z.sub_0_l, Z.abs_opp, Z.abs_eq by lia. nia.
  - repeat split; try lia.
    replace (e' + s) with (e' - e + (e + s)) by lia.
    rewrite Z.pow_add_r by lia.
    replace (Z.pos m' * (2 ^ (e' - e) * 2 ^ (e + s)) - Z.pos p * 2 ^ (e + s))
      with ((Z.pos m' * 2 ^ (e' - e) - Z.pos p) * 2 ^ (e + s)) by lia.
    rewrite Z.abs_mul, (Z.abs_eq (2 ^ (e + s))) by lia. nia.
Qed.

(** A mantissa of exactly [prec] digits is kept as it is. *)
Lemma binary_round_aux_exact (p : positive) (e : Z) :
  2 ^ 23 <= Zpos p < 2 ^ 24 -> -149 <= e <= 104 ->
  binary_round_aux prec emax false (Zpos p) e loc_Exact = S754_finite false p e.
Proof.
  intros Hp He.
  assert (Hd : Zdigits2 (Zpos p) = 24).
  { pose proof (Zdigits2_le (Zpos p) 24 ltac:(done) ltac:(done) ltac:(lia)).
    pose proof (Zdigits2_ge (Zpos p) 23 ltac:(done) ltac:(lia)). lia. }
  destruct (shr_fexp_shifted (Zpos p) e ltac:(done)) as (rec & k & Hshr & Hk & Hrec).
  rewrite Hd in Hk. assert (Hk0 : k = 0) by lia. clear Hk. subst k.
  pose proof (round_nearest_even_shifted (Zpos p) 0 rec ltac:(lia) Hrec) as (_ & _ & _ & Hex).
  pose proof (shifted_0_inv _ _ Hrec) as Hm. specialize (Hex ltac:(lia)).
  unfold binary_round_aux. rewrite Hshr, Hex, Hm, Z.add_0_r.
  destruct (shr_fexp_exact (Zpos p) e ltac:(lia) ltac:(lia)) as (m3 & k2 & -> & _ & Hm3 & _ & Hk2).
  specialize (Hk2 ltac:(lia)). subst k2.
  rewrite Z.pow_0_r, Z.mul_1_r in Hm3. subst m3. cbn [shr_m].
  rewrite Z.add_0_r.
  assert (Hle : (e <=? emax - prec) = true) by (apply Z.leb_le; unfold emax, prec; lia).
  by rewrite Hle.
Qed.

(** ** Aligning, and rounding after it *)

Lemma pos_iter_xO (m d : positive) : Zpos (Pos.iter xO m d) = Zpos m * 2 ^ Zpos d.
Proof.
  induction d as [|d IH] using Pos.peano_ind.
  - simpl. lia.
  - rewrite Pos.iter_succ, Pos2Z.inj_xO, IH, Pos2Z.inj_succ, Z.pow_succ_r by lia. lia.
Qed.

Lemma shl_align_spec (m : positive) (e e' : Z) :
  snd (shl_align m e e') = Z.min e e'
  /\ Zpos (fst (shl_align m e e')) = Zpos m * 2 ^ (e - Z.min e e').
Proof.
  unfold shl_align. destruct (e' - e) as [|d|d] eqn:Hd; simpl.
  - replace (Z.min e e') with e by lia. rewrite Z.sub_diag. lia.
  - replace (Z.min e e') with e by lia. rewrite Z.sub_diag. lia.
  - replace (Z.min e e') with e' by lia. split; [done|].
    rewrite pos_iter_xO. f_equal. f_equal. lia.
Qed.

Lemma binary_round_scaled (p : positive) (e s : Z) :
  e <= 0 -> Zpos p <= 2 ^ (- e) -> 0 <= e + s -> 149 <= s ->
  let r := binary_round prec emax false p e in
  unit_float r /\ on_grid s r
  /\ 2 ^ 24 * Z.abs (scaled s r - Zpos p * 2 ^ (e + s)) <= 2 ^ s.
Proof.
  intros He Hp Hes Hs r. subst r. unfold binary_round.
  pose proof (shl_align_spec p e (fexp prec emax (Z.pos (digits2_pos p) + e))) as [Hez Hmz].
  destruct (shl_align p e _) as [mz ez]. cbn [fst snd] in Hez, Hmz.
  rewrite <- Hez in Hmz. rewrite fexp_eq in Hez.
  assert (Hez0 : ez <= e) by lia.
  assert (Hezs : 0 <= ez + s) by lia.
  assert (Hmzle : Zpos mz <= 2 ^ (- ez)).
  { rewrite Hmz. replace (- ez) with (- e + (e - ez)) by lia.
    rewrite Z.pow_add_r by lia.
    assert (0 < 2 ^ (e - ez)) by (apply pow2_pos; lia). nia. }
  destruct (binary_round_aux_scaled mz ez s ltac:(lia) Hmzle Hezs Hs) as (Hu & _ & Hg & Herr).
  split; [done|]. split; [apply (on_grid_le (- ez)); [lia|done]|].
  replace (Z.pos p * 2 ^ (e + s)) with (Z.pos mz * 2 ^ (ez + s)); [done|].
  rewrite Hmz, <- Z.mul_assoc, <- Z.pow_add_r by lia. do 2 f_equal. lia.
Qed.

Lemma binary_normalize_scaled (D e s : Z) :
  e <= 0 -> 0 <= D <= 2 ^ (- e) -> 0 <= e + s -> 149 <= s ->
  let r := binary_normalize prec emax D e false in
  unit_float r /\ on_grid s r
  /\ 2 ^ 24 * Z.abs (scaled s r - D * 2 ^ (e + s)) <= 2 ^ s.
Proof.
  intros He HD Hes Hs r. subst r.
  destruct D as [|p|p]; [|exact (binary_round_scaled p e s He (proj2 HD) Hes Hs)|lia].
  simpl. repeat split; try done. apply Z.pow_nonneg. lia.
Qed.

(** ** The operations on the unit interval *)

Lemma scaled_double (s : Z) (x : float) :
  0 <= s -> on_grid s x -> scaled (s + s) x = scaled s x * 2 ^ s.
Proof.
  destruct x as [sg|sg| |sg m e]; simpl; try done. intros Hs He.
  replace (e + (s + s)) with (e + s + s) by lia.
  rewrite Z.pow_add_r by lia. lia.
Qed.

(** Product: the result is at most 2^-24 away from the exact product. *)
Lemma fmul_scaled (s : Z) (x y : float) :
  149 <= s -> unit_float x -> unit_float y -> on_grid s x -> on_grid s y ->
  unit_float (fmul x y) /\ on_grid s (fmul x y)
  /\ 2 ^ 24 * Z.abs (scaled s (fmul x y) * 2 ^ s - scaled s x * scaled s y) <= 2 ^ s * 2 ^ s.
Proof.
  intros Hs Hx Hy Hgx Hgy.
  assert (Hp : 0 < 2 ^ s) by (apply pow2_pos; lia).
  destruct x as [sx|sx| |sx mx ex]; try done;
    destruct y as [sy|sy| |sy my ey]; try done; simpl in Hx, Hy.
  - simpl. repeat split; try done. nia.
  - destruct sy; [done|]. simpl. repeat split; try done. nia.
  - destruct sx; [done|]. simpl. repeat split; try done.
    rewrite Z.mul_0_r. simpl. nia.
  - destruct sx; [done|]. destruct sy; [done|].
    destruct Hx as [Hex Hmx]. destruct Hy as [Hey Hmy]. simpl in Hgx, Hgy.
    assert (Hm : Zpos (mx * my) <= 2 ^ (- (ex + ey))).
    { replace (- (ex + ey)) with (- ex + - ey) by lia.
      rewrite Z.pow_add_r, Pos2Z.inj_mul by lia. nia. }
    pose proof (binary_round_aux_scaled (mx * my) (ex + ey) (s + s) ltac:(lia) Hm
                  ltac:(lia) ltac:(lia)) as (Hu & Hg & _ & Herr).
    change (fmul (S754_finite false mx ex) (S754_finite false my ey))
      with (binary_round_aux prec emax false (Z.pos (mx * my)) (ex + ey) loc_Exact).
    split; [done|]. split; [by apply (on_grid_le 149)|].
    rewrite scaled_double in Herr by (lia || by apply (on_grid_le 149)).
    rewrite <- Z.pow_add_r by lia.
    replace (scaled s (S754_finite false mx ex) * scaled s (S754_finite false my ey))
      with (Z.pos (mx * my) * 2 ^ (ex + ey + (s + s))); [done|].
    simpl. replace (ex + ey + (s + s)) with (ex + s + (ey + s)) by lia.
    rewrite Z.pow_add_r, Pos2Z.inj_mul by lia. lia.
Qed.

(** Difference of two positive finite numbers when it lies in the unit
    interval: [D] is the exact difference at the smaller exponent. *)
Lemma fsub_finite_scaled (s : Z) (mx : positive) (ex : Z) (my : positive) (ey : Z) :
  let ez := Z.min ex ey in
  let D := Zpos mx * 2 ^ (ex - ez) - Zpos my * 2 ^ (ey - ez) in
  149 <= s -> 0 <= ez + s -> ez <= 0 -> 0 <= D <= 2 ^ (- ez) ->
  let r := fsub (S754_finite false mx ex) (S754_finite false my ey) in
  unit_float r /\ on_grid s r
  /\ 2 ^ 24 * Z.abs (scaled s r - D * 2 ^ (ez + s)) <= 2 ^ s.
Proof.
  intros ez D Hs Hes Hez HD r.
  pose proof (shl_align_spec mx ex ez) as [_ Hax].
  pose proof (shl_align_spec my ey ez) as [_ Hay].
  replace (Z.min ex ez) with ez in Hax by lia.
  replace (Z.min ey ez) with ez in Hay by lia.
  assert (Hr : r = binary_normalize prec emax D ez false).
  { subst r D. unfold fsub, SFsub. fold ez. simpl cond_Zopp. by rewrite Hax, Hay. }
  rewrite Hr. by apply binary_normalize_scaled.
Qed.

Lemma scaled_fone (s : Z) : 23 <= s -> scaled s fone = 2 ^ s.
Proof.
  intros Hs. change (scaled s fone) with (2 ^ 23 * 2 ^ (-23 + s)).
  rewrite <- Z.pow_add_r by lia. f_equal. lia.
Qed.

(** [1 - dx] *)
Lemma fsub_fone_scaled (s : Z) (dx : float) :
  149 <= s -> unit_float dx -> on_grid s dx ->
  unit_float (fsub fone dx) /\ on_grid s (fsub fone dx)
  /\ 2 ^ 24 * Z.abs (scaled s (fsub fone dx) - (2 ^ s - scaled s dx)) <= 2 ^ s.
Proof.
  intros Hs Hdx Hg.
  assert (Hp : 0 < 2 ^ s) by (apply pow2_pos; lia).
  destruct dx as [sg|sg| |sg m e]; try done; simpl in Hdx.
  - change (fsub fone (S754_zero sg)) with fone.
    rewrite scaled_fone by lia. simpl scaled.
    split; [by vm_compute|].
    split; [change (on_grid s (S754_finite false 8388608 (-23))); simpl; lia|].
    replace (2 ^ s - (2 ^ s - 0)) with 0 by lia. simpl. lia.
  - destruct sg; [done|]. destruct Hdx as [He Hm]. simpl in Hg.
    pose proof (fsub_finite_scaled s 8388608 (-23) m e) as H.
    cbv zeta in H.
    assert (Hone : Z.pos 8388608 * 2 ^ (-23 - Z.min (-23) e) = 2 ^ (- Z.min (-23) e)).
    { change (Z.pos 8388608) with (2 ^ 23). rewrite <- Z.pow_add_r by lia. f_equal. lia. }
    assert (Hmm : Z.pos m * 2 ^ (e - Z.min (-23) e) <= 2 ^ (- Z.min (-23) e)).
    { replace (- Z.min (-23) e) with (- e + (e - Z.min (-23) e)) by lia.
      rewrite Z.pow_add_r by lia.
      assert (0 < 2 ^ (e - Z.min (-23) e)) by (apply pow2_pos; lia). nia. }
    assert (0 < Z.pos m * 2 ^ (e - Z.min (-23) e)).
    { assert (0 < 2 ^ (e - Z.min (-23) e)) by (apply pow2_pos; lia). nia. }
    rewrite Hone in H.
    specialize (H Hs ltac:(lia) ltac:(lia) ltac:(lia)) as (Hu & Hgr & Herr).
    split; [done|]. split; [done|].
    replace (2 ^ s - scaled s (S754_finite false m e))
      with ((2 ^ (- Z.min (-23) e) - Z.pos m * 2 ^ (e - Z.min (-23) e))
            * 2 ^ (Z.min (-23) e + s)); [done|].
    simpl scaled.
    rewrite Z.mul_sub_distr_r, <- Z.mul_assoc, <- !Z.pow_add_r by lia.
    f_equal; [f_equal; lia|]. do 2 f_equal. lia.
Qed.



(** ** The four weights *)

Lemma weights_sum_scaled (S A B X Y W00 W10 W01 W11 : Z) :
  0 < S -> 0 <= X <= S -> 0 <= Y <= S -> 0 <= A <= S -> 0 <= B <= S ->
  16777216 * Z.abs (A - (S - X)) <= S ->
  16777216 * Z.abs (B - (S - Y)) <= S ->
  16777216 * Z.abs (W00 * S - A * B) <= S * S ->
  16777216 * Z.abs (W10 * S - X * B) <= S * S ->
  16777216 * Z.abs (W01 * S - A * Y) <= S * S ->
  16777216 * Z.abs (W11 * S - X * Y) <= S * S ->
  1000000 * Z.abs (W00 + W10 + W01 + W11 - S) <= S.
Proof.
  intros HS HX HY HA HB Ha Hb H00 H10 H01 H11.
  remember (A + X - S) as da eqn:Hda. remember (B + Y - S) as db eqn:Hdb.
  replace (A - (S - X)) with da in Ha by lia.
  replace (B - (S - Y)) with db in Hb by lia.
  remember (W00 * S - A * B) as e00 eqn:He00.
  remember (W10 * S - X * B) as e10 eqn:He10.
  remember (W01 * S - A * Y) as e01 eqn:He01.
  remember (W11 * S - X * Y) as e11 eqn:He11.
  remember (W00 + W10 + W01 + W11 - S) as t eqn:Ht.
  assert (HE : t * S = e00 + e10 + e01 + e11 + da * (B + Y) + S * db).
  { subst. ring. }
  remember (da * (B + Y)) as c1 eqn:Hc1. remember (S * db) as c2 eqn:Hc2.
  remember (S * S) as SS eqn:HSS.
  assert (H1 : 16777216 * Z.abs c1 <= 2 * SS).
  { rewrite Hc1, Z.abs_mul, (Z.abs_eq (B + Y)) by lia.
    transitivity (S * (B + Y)).
    - rewrite Z.mul_assoc. apply Z.mul_le_mono_nonneg_r; lia.
    - rewrite HSS. replace (2 * (S * S)) with (S * (2 * S)) by ring.
      apply Z.mul_le_mono_nonneg_l; lia. }
  assert (H2 : 16777216 * Z.abs c2 <= SS).
  { rewrite Hc2, Z.abs_mul, (Z.abs_eq S) by lia.
    rewrite HSS. replace (16777216 * (S * Z.abs db)) with (S * (16777216 * Z.abs db)) by ring.
    apply Z.mul_le_mono_nonneg_l; lia. }
  assert (H3 : 16777216 * Z.abs (t * S) <= 7 * SS).
  { rewrite HE. clear - H00 H10 H01 H11 H1 H2. lia. }
  rewrite Z.abs_mul, (Z.abs_eq S) in H3 by lia.
  assert (H4 : 16777216 * Z.abs t <= 7 * S).
  { apply (Z.mul_le_mono_pos_r _ _ S HS).
    rewrite HSS in H3. clear - H3. lia. }
  clear - H4 HS. lia.
Qed.

(** ** The fractional part *)

(** An integer below 2^24 converts to [float] exactly. *)
Lemma f32_int_exact (xi : Z) :
  0 < xi < 2 ^ 24 ->
  exists (mz : positive) (ez : Z),
    f32 xi 0 = S754_finite false mz ez /\ -23 <= ez <= 0 /\ Zpos mz = xi * 2 ^ (- ez).
Proof.
  intros Hxi. destruct xi as [|q|q]; try lia.
  pose proof (digits2_pos_bounds q) as [Hlo Hhi].
  set (d := Zpos (digits2_pos q)) in *.
  assert (Hd : 1 <= d <= 24).
  { split; [subst d; lia|]. apply (Zdigits2_le (Zpos q) 24); lia. }
  unfold f32, binary_normalize, binary_round.
  pose proof (shl_align_spec q 0 (fexp prec emax (Z.pos (digits2_pos q) + 0))) as [Hez Hmz].
  destruct (shl_align q 0 _) as [mz ez]. cbn [fst snd] in Hez, Hmz.
  rewrite <- Hez in Hmz. rewrite fexp_eq in Hez. fold d in Hez.
  assert (Hezd : ez = d - 24) by lia. clear Hez.
  exists mz, ez.
  assert (Hpow : 2 ^ 24 = 2 ^ d * 2 ^ (0 - ez)).
  { rewrite <- Z.pow_add_r by lia. f_equal. lia. }
  assert (Hpow' : 2 ^ 23 = 2 ^ (d - 1) * 2 ^ (0 - ez)).
  { rewrite <- Z.pow_add_r by lia. f_equal. lia. }
  assert (Hp : 0 < 2 ^ (0 - ez)) by (apply pow2_pos; lia).
  rewrite binary_round_aux_exact by (split; nia || lia).
  split; [done|]. split; [lia|]. by rewrite Hmz.
Qed.

Lemma floor_float_nonneg_sign (sg : bool) (m : positive) (e xi : Z) :
  floor_float (S754_finite sg m e) = Some xi -> 0 <= xi -> sg = false.
Proof.
  simpl. intros [= <-] Hxi. destruct sg; [exfalso|done]. simpl in Hxi.
  destruct (Z.leb_spec 0 e) as [He|He].
  - assert (0 < 2 ^ e) by (apply pow2_pos; lia). nia.
  - assert (Hp : 0 < 2 ^ (- e)) by (apply pow2_pos; lia).
    pose proof (Z.mul_div_le (Z.neg m) _ Hp). nia.
Qed.

(** [x - floor x], computed as the spec has it, lies in the unit
    interval. *)
Lemma frac_unit (s : Z) (x : float) (xi : Z) :
  floor_float x = Some xi -> 0 <= xi < 2 ^ 24 ->
  149 <= s -> on_grid s x ->
  unit_float (fsub x (f32 xi 0)) /\ on_grid s (fsub x (f32 xi 0)).
Proof.
  intros Hfl Hxi Hs Hg.
  destruct x as [sg|sg| |sg m e]; try done.
  - injection Hfl as <-. by destruct sg.
  - pose proof (floor_float_nonneg_sign _ _ _ _ Hfl ltac:(lia)) as ->.
    pose proof (floor_float_spec _ _ _ _ Hfl) as Hsp. simpl cond_Zopp in Hsp.
    simpl in Hg.
    destruct (Z.eq_dec xi 0) as [->|Hnz].
    + change (f32 0 0) with (S754_zero false).
      change (fsub (S754_finite false m e) (S754_zero false)) with (S754_finite false m e).
      split; [|done]. simpl.
      destruct (Z.leb_spec 0 e) as [He|He].
      * assert (0 < 2 ^ e) by (apply pow2_pos; lia). nia.
      * split; lia.
    + destruct (f32_int_exact xi ltac:(lia)) as (mz & ez & -> & Hez & Hmz).
      pose proof (fsub_finite_scaled s m e mz ez) as H. cbv zeta in H.
      set (ez' := Z.min e ez) in *.
      assert (Hxz : Z.pos mz * 2 ^ (ez - ez') = xi * 2 ^ (- ez')).
      { rewrite Hmz, <- Z.mul_assoc, <- Z.pow_add_r by lia. do 2 f_equal. lia. }
      rewrite Hxz in H.
      assert (Hp : 0 < 2 ^ (e - ez')) by (apply pow2_pos; lia).
      assert (HD : 0 <= Z.pos m * 2 ^ (e - ez') - xi * 2 ^ (- ez') <= 2 ^ (- ez')).
      { destruct (Z.leb_spec 0 e) as [He|He].
        - assert (ez' = ez) by lia.
          replace (Z.pos m * 2 ^ (e - ez')) with (xi * 2 ^ (- ez')).
          + assert (0 < 2 ^ (- ez')) by (apply pow2_pos; lia). lia.
          + rewrite Hsp, <- Z.mul_assoc, <- Z.pow_add_r by lia. f_equal; f_equal; lia.
        - assert (Hsplit : 2 ^ (- ez') = 2 ^ (- e) * 2 ^ (e - ez')).
          { rewrite <- Z.pow_add_r by lia. f_equal. lia. }
          rewrite Hsplit. nia. }
      specialize (H Hs ltac:(lia) ltac:(lia) HD) as (Hu & Hgr & _).
      done.
Qed.

(** ** From the grid to the rationals *)


Lemma Qpower2_pos (s : Z) : 0 <= s -> (2 ^ s == inject_Z (2 ^ s))%Q.
Proof. intros Hs. by rewrite Zpower_Qpower. Qed.

Lemma F2Q_scaled (s : Z) (x : float) :
  0 <= s -> on_grid s x -> (F2Q x * inject_Z (2 ^ s) == inject_Z (scaled s x))%Q.
Proof.
  intros Hs Hg. destruct x as [sg|sg| |sg m e]; simpl; try (by rewrite Qmult_0_l).
  simpl in Hg.
  rewrite inject_Z_mult, <- !Qpower2_pos by lia.
  rewrite Qpower_plus by done. ring.
Qed.

Lemma F2Q_unit (x : float) : unit_float x -> (0 <= F2Q x <= 1)%Q.
Proof.
  intros Hu.
  destruct x as [sg|sg| |sg m e]; simpl in *; try done.
  destruct sg; [done|]. destruct Hu as [He Hm].
  pose proof (F2Q_scaled (- e) (S754_finite false m e) ltac:(lia) ltac:(simpl; lia)) as H.
  simpl in H. rewrite Z.add_opp_diag_r, Z.mul_1_r in H.
  assert (Hp : (0 < inject_Z (2 ^ (- e)))%Q).
  { change 0%Q with (inject_Z 0). rewrite <- Zlt_Qlt. apply pow2_pos. lia. }
  assert (Hm' : (inject_Z (Z.pos m) <= inject_Z (2 ^ (- e)))%Q) by (by rewrite <- Zle_Qle).
  assert (Hm0 : (0 <= inject_Z (Z.pos m))%Q) by (change 0%Q with (inject_Z 0); by rewrite <- Zle_Qle).
  simpl cond_Zopp.
  set (f := (inject_Z (Z.pos m) * 2 ^ e)%Q) in *.
  set (S := inject_Z (2 ^ (- e))) in *. set (M := inject_Z (Z.pos m)) in *.
  split; nra.
Qed.

(** From the grid to the rationals. *)
Lemma weights_sum_Q (s : Z) (w00 w10 w01 w11 : float) :
  0 <= s -> on_grid s w00 -> on_grid s w10 -> on_grid s w01 -> on_grid s w11 ->
  1000000 * Z.abs (scaled s w00 + scaled s w10 + scaled s w01 + scaled s w11 - 2 ^ s) <= 2 ^ s ->
  (Qabs (F2Q w00 + F2Q w10 + F2Q w01 + F2Q w11 - 1) <= 1 # 1000000)%Q.
Proof.
  intros Hs H00 H10 H01 H11 Hsum.
  pose proof (F2Q_scaled s w00 Hs H00) as E00. pose proof (F2Q_scaled s w10 Hs H10) as E10.
  pose proof (F2Q_scaled s w01 Hs H01) as E01. pose proof (F2Q_scaled s w11 Hs H11) as E11.
  assert (Hp : (0 < inject_Z (2 ^ s))%Q).
  { change 0%Q with (inject_Z 0). rewrite <- Zlt_Qlt. by apply pow2_pos. }
  assert (Hlo : 1000000 * 2 ^ s
                <= 1000000 * (scaled s w00 + scaled s w10 + scaled s w01 + scaled s w11) + 2 ^ s)
    by lia.
  assert (Hhi : 1000000 * (scaled s w00 + scaled s w10 + scaled s w01 + scaled s w11)
                <= 1000000 * 2 ^ s + 2 ^ s) by lia.
  clear Hsum.
  rewrite Zle_Qle in Hlo, Hhi.
  rewrite !inject_Z_plus, !inject_Z_mult, !inject_Z_plus in Hlo, Hhi.
  set (S := inject_Z (2 ^ s)) in *.
  set (f00 := F2Q w00) in *. set (f10 := F2Q w10) in *.
  set (f01 := F2Q w01) in *. set (f11 := F2Q w11) in *.
  set (a00 := inject_Z (scaled s w00)) in *. set (a10 := inject_Z (scaled s w10)) in *.
  set (a01 := inject_Z (scaled s w01)) in *. set (a11 := inject_Z (scaled s w11)) in *.
  change (inject_Z 1000000) with (1000000 # 1)%Q in *.
  apply Qabs_Qle_condition. split.
  - apply (Qmult_le_r _ _ S Hp). lra.
  - apply (Qmult_le_r _ _ S Hp). lra.
Qed.

(** ** The bilinear weights *)

Lemma on_grid_grid_of (s : Z) (x : float) : grid_of x <= s -> on_grid s x.
Proof. destruct x; simpl; lia. Qed.

(** For [dx], [dy] in the unit interval the four weights are in the unit
    interval and their sum is within 1e-6 of 1. *)
Lemma bilinear_weights_sum (dx dy : float) :
  unit_float dx -> unit_float dy ->
  let w := bilinear_weights dx dy in
  (unit_float (e0 w) /\ unit_float (e1 w) /\ unit_float (e2 w) /\ unit_float (e3 w))
  /\ (Qabs (F2Q (e0 w) + F2Q (e1 w) + F2Q (e2 w) + F2Q (e3 w) - 1) <= 1 # 1000000)%Q.
Proof.
  intros Hdx Hdy w.
  set (s := Z.max 149 (Z.max (grid_of dx) (grid_of dy))).
  assert (Hs : 149 <= s) by lia.
  assert (Hgx : on_grid s dx) by (apply on_grid_grid_of; lia).
  assert (Hgy : on_grid s dy) by (apply on_grid_grid_of; lia).
  destruct (fsub_fone_scaled s dx Hs Hdx Hgx) as (Hua & Hga & Ha).
  destruct (fsub_fone_scaled s dy Hs Hdy Hgy) as (Hub & Hgb & Hb).
  set (a := fsub fone dx) in *. set (b := fsub fone dy) in *.
  destruct (fmul_scaled s a b Hs Hua Hub Hga Hgb) as (Hu00 & Hg00 & H00).
  destruct (fmul_scaled s dx b Hs Hdx Hub Hgx Hgb) as (Hu10 & Hg10 & H10).
  destruct (fmul_scaled s a dy Hs Hua Hdy Hga Hgy) as (Hu01 & Hg01 & H01).
  destruct (fmul_scaled s dx dy Hs Hdx Hdy Hgx Hgy) as (Hu11 & Hg11 & H11).
  split; [done|].
  apply (weights_sum_Q s); try done; [lia|].
  change (2 ^ 24) with 16777216 in *.
  apply (weights_sum_scaled (2 ^ s) (scaled s a) (scaled s b) (scaled s dx) (scaled s dy));
    try done; try (by apply scaled_unit).
  apply pow2_pos. lia.
Qed.

Lemma init_projectPoints_spec_lookup (this : Impl) (P : Matrix34) (X : list Point)
    (valid : list bool) (rows cols : Z) (i : nat) (Xi : Point) :
  X !! i = Some Xi ->
  let out := project_point P {| rows := rows; cols := cols |} Xi in
  snd (init projectPoints_spec this P X valid rows cols) !! i = Some (fst (fst out))
  /\ _valid_ptr (fst (init projectPoints_spec this P X valid rows cols)) !! i
     = Some (fst (fst out))
  /\ _inds (fst (init projectPoints_spec this P X valid rows cols)) !! i
     = Some (snd (fst out))
  /\ _interp_coeffs (fst (init projectPoints_spec this P X valid rows cols)) !! i
     = Some (snd out).
Proof.
  intros Hi out. unfold init.
  destruct X as [|X0 X']; [done|].
  unfold projectPoints_spec. cbn [fst snd _valid_ptr _inds _interp_coeffs].
  rewrite !list_lookup_fmap, Hi. done.
Qed.

(** What [project_point] computed when it says valid. *)
Lemma project_point_valid (P : Matrix34) (size : ImageSize) (Xi : Point) :
  fst (fst (project_point P size Xi)) = true ->
  exists (x y : float) (xi yi : Z),
    floor_float x = Some xi /\ floor_float y = Some yi
    /\ inside (rows size) (cols size) xi yi = true
    /\ project_point P size Xi
       = (true, yi * cols size + xi,
          bilinear_weights (fsub x (f32 xi 0)) (fsub y (f32 yi 0))).
Proof.
  unfold project_point.
  set (p := Matrix34_mul P Xi).
  destruct (is_zero (p2 p)); [done|].
  set (x := fdiv (p0 p) (p2 p)). set (y := fdiv (p1 p) (p2 p)).
  destruct (floor_float x) as [xi|] eqn:Hx; [|done].
  destruct (floor_float y) as [yi|] eqn:Hy; [|done].
  destruct (inside (rows size) (cols size) xi yi) eqn:Hin; [|done].
  intros _. by exists x, y, xi, yi.
Qed.

(** The scene of the specification: the point projecting to (1.5, 1.5) of a
    4x4 image is valid, at offset 5, with four weights of 0.25. *)
Lemma init_one_point :
  init projectPoints_spec Impl_new P_id [point (f32 3 (-1)) (f32 3 (-1)) fone] [] 4 4
  = (one_point, [true]).
Proof. reflexivity. Qed.

(** [corner_point] comes out of [init]: the point projects to (2.5, 2.5), is
    valid, and its offset is 10. *)
Lemma init_corner_point :
  init projectPoints_spec Impl_new P_id [point (f32 5 (-1)) (f32 5 (-1)) fone] [] 4 4
  = (corner_point, [true]).
Proof. reflexivity. Qed.

(** * Further properties of the kernel *)

(** ** The builds on the same input *)

Lemma run_builds_agree_witness :
  exists r,
    snd (run true false nine_points (buffer 0 (sevens 9)) (image4x4 ++ [fzero; fzero])
           (buffer 16 (sevens 9))) = Ok r
    /\ snd (run false false nine_points (buffer 0 (sevens 9)) (image4x4 ++ [fzero; fzero])
              (buffer 16 (sevens 9))) = Ok r.
Proof.
  apply (run_builds_agree false nine_points (buffer 0 (sevens 9)) (image4x4 ++ [fzero; fzero])
           (buffer 16 (sevens 9))).
  reflexivity.
Defined.

(** ** Where the SIMD build is safe, and where it is not *)

Lemma read_I1_out (l : list float) (k : Z) :
  in_bounds l k = false -> read_I1 l k = ([k], Fault (I1_out_of_bounds k)).
Proof.
  intros Hk. unfold read_I1. destruct (rdZ l k) as [a|] eqn:E; [|done].
  apply rdZ_Some in E. unfold in_bounds in Hk.
  destruct (Z.leb_spec 0 k); destruct (Z.ltb_spec k (Z.of_nat (length l)));
    simpl in Hk; done || lia.
Qed.

(** The two four-float loads of a point inside the tightened margin lie
    inside the image. *)
Lemma footprint_inside_simd (this : Impl) (I1 : list float) (rows cols xi yi : Z) :
  _stride this = cols ->
  Z.of_nat (length I1) = rows * cols ->
  inside rows cols xi yi = true ->
  yi < rows - 2 \/ xi < cols - 3 ->
  forallb (in_bounds I1) (footprint true this (yi * _stride this + xi)) = true.
Proof.
  intros Hs Hlen Hin Hm. unfold inside in Hin.
  repeat (apply andb_prop in Hin as [Hin ?]).
  repeat match goal with
         | H : (_ <=? _) = true |- _ => apply Z.leb_le in H
         | H : (_ <? _) = true |- _ => apply Z.ltb_lt in H
         end.
  unfold footprint, in_bounds. rewrite Hs, Hlen. cbn [forallb].
  repeat (apply andb_true_intro; split); try done;
    first [apply Z.leb_le | apply Z.ltb_lt]; nia.
Qed.

(** X2.  The SIMD build stays inside the image when the valid points obey
    the margin rule and, in the last admissible row [yi = rows - 2], keep
    [xi < cols - 3]: every index [load_data_simd] dereferences is then in
    [0, rows * stride), and [run] returns. *)
Theorem run_simd_build_reads_in_bounds (SSE4_1 : bool) (this : Impl)
    (I0_ptr : float_ptr) (I1 : list float) (r_ptr : float_ptr) (rows cols : Z) :
  _stride this = cols ->
  Z.of_nat (length I1) = rows * cols ->
  simd_margin_rule rows cols this ->
  Z.of_nat (N this) <= INT_MAX ->
  length (_inds this) = N this ->
  (N this <= length (_valid_ptr this))%nat ->
  (N this <= length (data I0_ptr))%nat ->
  (N this <= length (data r_ptr))%nat ->
  exists t r,
    run true SSE4_1 this I0_ptr I1 r_ptr = (t, Ok r)
    /\ Forall (fun k => 0 <= k < rows * _stride this) t.
Proof.
  intros Hs Hlen Hm H1 H2 H3 H4 H5.
  assert (Hpre : run_pre true this I0_ptr I1 r_ptr = true).
  { apply run_pre_intro; try done. intros i Hi. unfold point_reads.
    destruct (lookup_lt_is_Some_2 (_valid_ptr this) i ltac:(lia)) as [v Hv].
    destruct (lookup_lt_is_Some_2 (_inds this) i ltac:(lia)) as [o Ho].
    rewrite (list_lookup_total_correct _ _ _ Hv), (list_lookup_total_correct _ _ _ Ho).
    destruct v; [|done].
    destruct (Hm i o Hv Ho) as (xi & yi & Hin & Hx & ->).
    by apply (footprint_inside_simd this I1 rows cols). }
  exists (reads_from true this 0 (N this)),
         (residuals_upto true SSE4_1 this I0_ptr I1 r_ptr (N this)).
  split; [by apply run_ok|].
  rewrite Hs, <- Hlen. by apply (run_reads_in_bounds true this I0_ptr I1 r_ptr).
Qed.

Lemma simd_margin_rule_one_point : simd_margin_rule 4 4 one_point.
Proof.
  intros [|i] o Hv Ho; [|done].
  injection Ho as <-. exists 1, 1. repeat split. left. lia.
Qed.

Lemma run_simd_build_reads_in_bounds_witness :
  exists t r,
    run true false one_point (buffer 0 (sevens 1)) image4x4 (buffer 16 [fzero]) = (t, Ok r)
    /\ Forall (fun k => 0 <= k < 4 * _stride one_point) t.
Proof.
  apply (run_simd_build_reads_in_bounds false one_point (buffer 0 (sevens 1))
           image4x4 (buffer 16 [fzero]) 4 4);
    [reflexivity | reflexivity | exact simd_margin_rule_one_point
    | vm_compute; discriminate | reflexivity
    | unfold N; simpl; lia | unfold N; simpl; lia | unfold N; simpl; lia].
Defined.

(** X3.  In the SIMD build, [operator()] on a valid point of the last
    admissible row whose column is [cols - 3] or [cols - 2] reads the float
    just past the image, index [rows * cols], whatever the size of the
    image: the margin rule does not protect the second load of
    [load_data_simd]. *)
Theorem operator_call_simd_past_image (SSE4_1 : bool) (this : Impl) (I1 : list float)
    (rows cols xi : Z) (i : nat) :
  _stride this = cols ->
  Z.of_nat (length I1) = rows * cols ->
  _valid_ptr this !! i = Some true ->
  _inds this !! i = Some ((rows - 2) * cols + xi) ->
  (i < length (_interp_coeffs this))%nat ->
  inside rows cols xi (rows - 2) = true ->
  cols - 3 <= xi ->
  exists t,
    operator_call true SSE4_1 this I1 (Z.of_nat i) = (t, Fault (I1_out_of_bounds (rows * cols))).
Proof.
  intros Hs Hlen Hv Ho Hc Hin Hx. unfold inside in Hin.
  repeat (apply andb_prop in Hin as [Hin ?]).
  repeat match goal with
         | H : (_ <=? _) = true |- _ => apply Z.leb_le in H
         | H : (_ <? _) = true |- _ => apply Z.ltb_lt in H
         end.
  set (o := (rows - 2) * cols + xi) in *.
  assert (Hib : forall k, 0 <= k -> o + k < rows * cols -> in_bounds I1 (o + k) = true).
  { intros k Hk Hlt. unfold in_bounds. rewrite Hlen.
    apply andb_true_intro. split; [apply Z.leb_le|apply Z.ltb_lt]; subst o; nia. }
  assert (Hob : in_bounds I1 (rows * cols) = false).
  { unfold in_bounds. rewrite Hlen, Z.ltb_irrefl. by rewrite andb_false_r. }
  unfold operator_call.
  rewrite read_ok by (by apply lookup_lt_Some in Hv). rewrite bind_ret.
  rewrite (list_lookup_total_correct _ _ _ Hv).
  rewrite read_ok by done. rewrite bind_ret.
  rewrite read_ok by (by apply lookup_lt_Some in Ho). rewrite bind_ret.
  rewrite (list_lookup_total_correct _ _ _ Ho). fold o.
  unfold load_data_simd, _mm_loadu_ps. rewrite Hs.
  rewrite (read_I1_ok I1 o) by (rewrite <- (Z.add_0_r o); apply Hib; subst o; nia).
  rewrite (read_I1_ok I1 (o + 1)) by (apply Hib; subst o; nia).
  rewrite (read_I1_ok I1 (o + 2)) by (apply Hib; subst o; nia).
  rewrite (read_I1_ok I1 (o + 3)) by (apply Hib; subst o; nia).
  rewrite (read_I1_ok I1 (o + cols)) by (apply Hib; subst o; nia).
  rewrite (read_I1_ok I1 (o + cols + 1))
    by (rewrite <- Z.add_assoc; apply Hib; subst o; nia).
  destruct (Z.eq_dec xi (cols - 2)) as [Hx2|Hx3].
  - replace (o + cols + 2) with (rows * cols) by (subst o; nia).
    rewrite (read_I1_out _ _ Hob). eexists. reflexivity.
  - rewrite (read_I1_ok I1 (o + cols + 2))
      by (rewrite <- Z.add_assoc; apply Hib; subst o; nia).
    replace (o + cols + 3) with (rows * cols) by (subst o; nia).
    rewrite (read_I1_out _ _ Hob). eexists. reflexivity.
Qed.

Lemma operator_call_simd_past_image_witness :
  exists t,
    operator_call true false corner_point image4x4 (Z.of_nat 0)
    = (t, Fault (I1_out_of_bounds (4 * 4))).
Proof.
  apply (operator_call_simd_past_image false corner_point image4x4 4 4 2 0);
    [reflexivity | reflexivity | reflexivity | reflexivity | simpl; lia | reflexivity | lia].
Defined.

(** ** The two ways to load the neighbours *)

(** X4.  Where its eight reads are inside the image, [load_data_simd]
    yields the very vector [load_data] yields, the four neighbours
    [I1[o]], [I1[o+1]], [I1[o+stride]], [I1[o+stride+1]]: the shuffle keeps
    the two low lanes of each load.  It dereferences eight indices where
    [load_data] dereferences four. *)
Theorem load_data_simd_load_data (this : Impl) (ptr : list float) (i : nat) (o : Z) :
  _inds this !! i = Some o ->
  forallb (in_bounds ptr) (footprint true this o) = true ->
  load_data_simd this ptr o = (footprint true this o, Ok (neighbours this ptr o))
  /\ load_data this ptr (Z.of_nat i) = (footprint false this o, Ok (neighbours this ptr o)).
Proof.
  intros Ho Hrd. unfold footprint in *. cbn [forallb] in Hrd.
  repeat (apply andb_prop in Hrd as [? Hrd]).
  split.
  - unfold load_data_simd, _mm_loadu_ps. rewrite !read_I1_ok by done. reflexivity.
  - unfold load_data. rewrite read_ok by (by apply lookup_lt_Some in Ho).
    rewrite bind_ret, (list_lookup_total_correct _ _ _ Ho).
    rewrite !read_I1_ok by done. reflexivity.
Qed.

Lemma load_data_simd_load_data_witness :
  load_data_simd one_point image4x4 5
  = (footprint true one_point 5, Ok (neighbours one_point image4x4 5))
  /\ load_data one_point image4x4 (Z.of_nat 0)
     = (footprint false one_point 5, Ok (neighbours one_point image4x4 5)).
Proof.
  apply (load_data_simd_load_data one_point image4x4 0 5); reflexivity.
Defined.

(** ** One point at a time *)

(** The residual of a valid point, spelled out. *)
Lemma residual_valid_point (WITH_SIMD SSE4_1 : bool) (this : Impl)
    (I0_ptr : float_ptr) (I1 : list float)
    (i : nat) (o : Z) (w : Vector4) (a b c d x : float) :
  _valid_ptr this !! i = Some true ->
  _inds this !! i = Some o ->
  _interp_coeffs this !! i = Some w ->
  rdZ I1 o = Some a ->
  rdZ I1 (o + 1) = Some b ->
  rdZ I1 (o + _stride this) = Some c ->
  rdZ I1 (o + _stride this + 1) = Some d ->
  data I0_ptr !! i = Some x ->
  residual WITH_SIMD SSE4_1 this I0_ptr I1 i
  = fsub (fadd (fadd (fmul (e0 w) a) (fmul (e1 w) b))
               (fadd (fmul (e2 w) c) (fmul (e3 w) d))) x.
Proof.
  intros Hv Ho Hw Ha Hb Hc Hd Hx.
  unfold residual, sampled, neighbours, pixel.
  rewrite (list_lookup_total_correct _ _ _ Hv), (list_lookup_total_correct _ _ _ Hx),
    (list_lookup_total_correct _ _ _ Ho), (list_lookup_total_correct _ _ _ Hw).
  rewrite Ha, Hb, Hc, Hd. simpl default.
  destruct WITH_SIMD; [rewrite dot_simd_dot_|]; by rewrite dot__pairwise.
Qed.

(** X5.  The residual of point [i] depends on the inputs only through
    [I0[i]] and the four neighbours of the point in [I1]: two runs of the
    same object on inputs that agree there write the same [r[i]], whatever
    the rest of the images, the other reference intensities and the
    residual buffers hold, and they read the image at the same indices.  In
    the SIMD build this includes the four extra floats [load_data_simd]
    loads: they do not reach the result. *)
Theorem run_residual_local (WITH_SIMD SSE4_1 : bool) (this : Impl)
    (I0_ptr I0_ptr' : float_ptr) (I1 I1' : list float) (r_ptr r_ptr' : float_ptr)
    (i : nat) (o : Z) :
  run_pre WITH_SIMD this I0_ptr I1 r_ptr = true ->
  run_pre WITH_SIMD this I0_ptr' I1' r_ptr' = true ->
  _inds this !! i = Some o ->
  data I0_ptr !! i = data I0_ptr' !! i ->
  rdZ I1 o = rdZ I1' o ->
  rdZ I1 (o + 1) = rdZ I1' (o + 1) ->
  rdZ I1 (o + _stride this) = rdZ I1' (o + _stride this) ->
  rdZ I1 (o + _stride this + 1) = rdZ I1' (o + _stride this + 1) ->
  exists t r r',
    run WITH_SIMD SSE4_1 this I0_ptr I1 r_ptr = (t, Ok r)
    /\ run WITH_SIMD SSE4_1 this I0_ptr' I1' r_ptr' = (t, Ok r')
    /\ r !! i = r' !! i /\ is_Some (r !! i).
Proof.
  intros Hpre Hpre' Ho H0 Ha Hb Hc Hd.
  exists (reads_from WITH_SIMD this 0 (N this)),
         (residuals_upto WITH_SIMD SSE4_1 this I0_ptr I1 r_ptr (N this)),
         (residuals_upto WITH_SIMD SSE4_1 this I0_ptr' I1' r_ptr' (N this)).
  split; [by apply run_ok|]. split; [by apply run_ok|].
  assert (Hi : (i < N this)%nat).
  { rewrite <- (pre_inds _ _ _ _ _ Hpre). by apply lookup_lt_Some in Ho. }
  rewrite !lookup_residuals_upto by done. split; [|done]. f_equal.
  unfold residual, sampled, neighbours, pixel.
  rewrite (list_lookup_total_correct _ _ _ Ho), Ha, Hb, Hc, Hd.
  f_equal. rewrite !list_lookup_total_alt. by rewrite H0.
Qed.

Lemma run_residual_local_witness :
  exists t r r',
    run true false one_point (buffer 0 (sevens 1)) image4x4 (buffer 16 [fzero]) = (t, Ok r)
    /\ run true false one_point (buffer 4 (sevens 1 ++ [fone]))
         (<[0%nat := f32 99 0]> (<[7%nat := f32 99 0]> image4x4)) (buffer 20 [fone; fone])
       = (t, Ok r')
    /\ r !! 0%nat = r' !! 0%nat /\ is_Some (r !! 0%nat).
Proof.
  apply (run_residual_local true false one_point (buffer 0 (sevens 1))
           (buffer 4 (sevens 1 ++ [fone])) image4x4
           (<[0%nat := f32 99 0]> (<[7%nat := f32 99 0]> image4x4))
           (buffer 16 [fzero]) (buffer 20 [fone; fone]) 0 5); reflexivity.
Defined.

(** ** How often the image is read *)

Lemma reads_from_count (WITH_SIMD : bool) (this : Impl) (n : nat) :
  (n <= length (_valid_ptr this))%nat ->
  length (reads_from WITH_SIMD this 0 n)
  = ((if WITH_SIMD then 8 else 4) * count_occ bool_dec (take n (_valid_ptr this)) true)%nat.
Proof.
  induction n as [|n IH]; intros Hn.
  - simpl. lia.
  - destruct (lookup_lt_is_Some_2 (_valid_ptr this) n ltac:(lia)) as [v Hv].
    unfold reads_from in *. rewrite seq_S, flat_map_app, length_app, IH by lia.
    rewrite (take_S_r _ _ _ Hv), count_occ_app. cbn [flat_map].
    rewrite app_nil_r. unfold point_reads.
    rewrite (list_lookup_total_correct _ _ _ Hv).
    destruct v; simpl; [|lia]. unfold footprint. destruct WITH_SIMD; simpl; lia.
Qed.

(** X6.  [run] dereferences the image four times for every valid point
    among the first [N] in the scalar build, eight times in the SIMD build,
    and never for an invalid point. *)
Theorem run_read_count (WITH_SIMD SSE4_1 : bool) (this : Impl)
    (I0_ptr : float_ptr) (I1 : list float) (r_ptr : float_ptr) :
  run_pre WITH_SIMD this I0_ptr I1 r_ptr = true ->
  exists t r,
    run WITH_SIMD SSE4_1 this I0_ptr I1 r_ptr = (t, Ok r)
    /\ length t
       = ((if WITH_SIMD then 8 else 4)
          * count_occ bool_dec (take (N this) (_valid_ptr this)) true)%nat.
Proof.
  intros Hpre.
  exists (reads_from WITH_SIMD this 0 (N this)),
         (residuals_upto WITH_SIMD SSE4_1 this I0_ptr I1 r_ptr (N this)).
  split; [by apply run_ok|].
  apply reads_from_count. by apply (pre_valid WITH_SIMD this I0_ptr I1 r_ptr).
Qed.

Lemma run_read_count_witness :
  exists t r,
    run false false nine_points (buffer 0 (sevens 9)) image4x4 (buffer 16 (sevens 9)) = (t, Ok r)
    /\ length t
       = ((if false then 8 else 4)
          * count_occ bool_dec (take (N nine_points) (_valid_ptr nine_points)) true)%nat.
Proof.
  apply (run_read_count false false nine_points (buffer 0 (sevens 9)) image4x4
           (buffer 16 (sevens 9))); reflexivity.
Defined.

(** ** From [init] to [run] *)

Lemma margin_rule_run_pre (this : Impl) (I0_ptr : float_ptr) (I1 : list float)
    (r_ptr : float_ptr) (rows cols : Z) :
  _stride this = cols ->
  Z.of_nat (length I1) = rows * cols ->
  margin_rule rows cols this ->
  Z.of_nat (N this) <= INT_MAX ->
  length (_inds this) = N this ->
  (N this <= length (_valid_ptr this))%nat ->
  (N this <= length (data I0_ptr))%nat ->
  (N this <= length (data r_ptr))%nat ->
  run_pre false this I0_ptr I1 r_ptr = true.
Proof.
  intros Hs Hlen Hm H1 H2 H3 H4 H5.
  apply run_pre_intro; try done. intros i Hi. unfold point_reads.
  destruct (lookup_lt_is_Some_2 (_valid_ptr this) i ltac:(lia)) as [v Hv].
  destruct (lookup_lt_is_Some_2 (_inds this) i ltac:(lia)) as [o Ho].
  rewrite (list_lookup_total_correct _ _ _ Hv), (list_lookup_total_correct _ _ _ Ho).
  destruct v; [|done].
  destruct (Hm i o Hv Ho) as (xi & yi & Hin & ->).
  by apply (footprint_inside this I1 rows cols).
Qed.

(** X7.  [PhotoError::init] followed by [PhotoError::run], scalar build.
    [init] stores [cols] as the stride and keeps the arrays as
    [projectPoints] leaves them; if those have one entry per point and the
    valid points obey the margin rule with offset [yi * cols + xi], then
    [run] on a [rows] x [cols] image and buffers with room for the points
    returns, leaves the object as it was, reads the image only inside
    [0, rows * cols) and keeps the length of the residual buffer; the
    flags [run] consults are the caller's validity vector.  This holds for
    an empty point set too, and whatever the object held before. *)
Theorem init_run_scalar_build
    (projectPoints : Matrix34 -> list Point -> ImageSize ->
                     list bool -> list Z -> list Vector4 -> list bool * list Z * list Vector4)
    (SSE4_1 : bool) (self : PhotoError) (P : Matrix34) (X : list Point)
    (valid : list bool) (rows cols : Z)
    (I0_ptr : float_ptr) (I1 : list float) (r_ptr : float_ptr) :
  (forall v ix C,
      projectPoints_contract rows cols (length X)
        (projectPoints P X {| rows := rows; cols := cols |} v ix C)) ->
  Z.of_nat (length I1) = rows * cols ->
  Z.of_nat (length X) <= INT_MAX ->
  (length X <= length (data I0_ptr))%nat ->
  (length X <= length (data r_ptr))%nat ->
  exists t r,
    PhotoError_run false SSE4_1
      (fst (PhotoError_init projectPoints self P X valid rows cols)) I0_ptr I1 r_ptr
    = (t, Ok (fst (PhotoError_init projectPoints self P X valid rows cols), r))
    /\ Forall (fun k => 0 <= k < rows * cols) t
    /\ length r = length (data r_ptr)
    /\ _valid_ptr (_impl (fst (PhotoError_init projectPoints self P X valid rows cols)))
       = snd (PhotoError_init projectPoints self P X valid rows cols).
Proof.
  intros Hpp Hlen HN H0 Hr.
  unfold PhotoError_init, PhotoError_run. cbn [fst snd _impl].
  destruct X as [|X0 X'].
  - exists [], (data r_ptr). by repeat split.
  - unfold init.
    specialize (Hpp (resize_vec (length (X0 :: X')) false valid)
                    (_inds (resize (_impl self) (length (X0 :: X'))))
                    (_interp_coeffs (resize (_impl self) (length (X0 :: X'))))).
    destruct (projectPoints P (X0 :: X') _ _ _ _) as [[v ix] C].
    destruct Hpp as (Hv & Hix & HC & Hm). cbn [fst snd] in *.
    set (this := {| _stride := cols; _interp_coeffs := C; _inds := ix; _valid_ptr := v |}).
    assert (Hpre : run_pre false this I0_ptr I1 r_ptr = true).
    { apply (margin_rule_run_pre this I0_ptr I1 r_ptr rows cols);
        unfold N; cbn [this _stride _interp_coeffs _inds _valid_ptr]; try done; try lia. }
    exists (reads_from false this 0 (N this)),
           (residuals_upto false SSE4_1 this I0_ptr I1 r_ptr (N this)).
    rewrite (run_ok false SSE4_1 this I0_ptr I1 r_ptr Hpre).
    split; [unfold bind, ret; cbn [fst snd]; by rewrite app_nil_r|].
    split; [rewrite <- Hlen; by apply (run_reads_in_bounds false this I0_ptr I1 r_ptr)|].
    split; [|done].
    apply length_upto. unfold N. cbn [this _interp_coeffs]. lia.
Qed.

(** [projectPoints] as the specification describes it keeps the contract. *)
Lemma projectPoints_spec_contract (P : Matrix34) (X : list Point) (rows cols : Z)
    (v : list bool) (ix : list Z) (C : list Vector4) :
  projectPoints_contract rows cols (length X)
    (projectPoints_spec P X {| rows := rows; cols := cols |} v ix C).
Proof.
  unfold projectPoints_contract, projectPoints_spec. cbn [fst snd].
  rewrite !length_map. repeat split.
  intros i o Hv Ho. rewrite !list_lookup_fmap in Hv. rewrite !list_lookup_fmap in Ho.
  destruct (X !! i) as [Xi|]; [|done]. simpl in Hv, Ho.
  injection Hv as Hv. injection Ho as Ho.
  destruct (project_point_valid _ _ _ Hv) as (x & y & xi & yi & _ & _ & Hin & Heq).
  rewrite Heq in Ho. simpl in Ho, Hin. by exists xi, yi.
Qed.

Lemma init_run_scalar_build_witness :
  exists t r,
    PhotoError_run false false
      (fst (PhotoError_init projectPoints_spec PhotoError_new P_id
              [point (f32 5 (-1)) (f32 5 (-1)) fone] [] 4 4))
      (buffer 0 (sevens 1)) image4x4 (buffer 16 [fzero])
    = (t, Ok (fst (PhotoError_init projectPoints_spec PhotoError_new P_id
                     [point (f32 5 (-1)) (f32 5 (-1)) fone] [] 4 4), r))
    /\ Forall (fun k => 0 <= k < 4 * 4) t
    /\ length r = length (data (buffer 16 [fzero]))
    /\ _valid_ptr (_impl (fst (PhotoError_init projectPoints_spec PhotoError_new P_id
                                 [point (f32 5 (-1)) (f32 5 (-1)) fone] [] 4 4)))
       = snd (PhotoError_init projectPoints_spec PhotoError_new P_id
                [point (f32 5 (-1)) (f32 5 (-1)) fone] [] 4 4).
Proof.
  apply (init_run_scalar_build projectPoints_spec false PhotoError_new P_id
           [point (f32 5 (-1)) (f32 5 (-1)) fone] [] 4 4
           (buffer 0 (sevens 1)) image4x4 (buffer 16 [fzero]));
    [intros v ix C; apply projectPoints_spec_contract
    | reflexivity | vm_compute; discriminate | simpl; lia | simpl; lia].
Defined.

(** ** OpenCV variant: what a valid flag implies *)

Lemma static_cast_int_nonneg (x : float) :
  0 <= static_cast_int x -> trunc_float x = Some (static_cast_int x).
Proof.
  unfold static_cast_int. assert (Hmin : INT_MIN < 0) by done.
  destruct (trunc_float x) as [z|]; [|lia].
  destruct ((INT_MIN <=? z) && (z <=? INT_MAX)); [done|lia].
Qed.

(** X8.  In the variant under [PHOTO_ERROR_WITH_OPENCV], a point that
    [init] marks valid has stored coordinates [_x[i]], [_y[i]] that are
    numbers, never NaN or an infinity, and their truncations lie in
    [0, cols-2] x [0, rows-2]. *)
Theorem init_opencv_valid_finite (P : Matrix34) (X : list Point) (rows cols : Z) (i : nat) :
  snd (init_opencv P X rows cols) !! i = Some true ->
  exists (x y : float) (xi yi : Z),
    _x (fst (init_opencv P X rows cols)) !! i = Some x
    /\ _y (fst (init_opencv P X rows cols)) !! i = Some y
    /\ trunc_float x = Some xi /\ trunc_float y = Some yi
    /\ 0 <= xi < cols - 1 /\ 0 <= yi < rows - 1.
Proof.
  unfold init_opencv. cbn [fst snd _x _y]. rewrite !list_lookup_fmap.
  destruct (X !! i) as [Xi|]; [|done]. simpl.
  intros [= Hin]. unfold inside in Hin.
  repeat (apply andb_prop in Hin as [Hin ?]).
  repeat match goal with
         | H : (_ <=? _) = true |- _ => apply Z.leb_le in H
         | H : (_ <? _) = true |- _ => apply Z.ltb_lt in H
         end.
  eexists _, _, _, _. split; [reflexivity|]. split; [reflexivity|].
  split; [by apply static_cast_int_nonneg|].
  split; [by apply static_cast_int_nonneg|]. lia.
Qed.

Lemma init_opencv_valid_finite_witness :
  exists (x y : float) (xi yi : Z),
    _x (fst (init_opencv P_id [point (f32 5 (-1)) (f32 3 (-1)) fone] 4 4)) !! 0%nat = Some x
    /\ _y (fst (init_opencv P_id [point (f32 5 (-1)) (f32 3 (-1)) fone] 4 4)) !! 0%nat = Some y
    /\ trunc_float x = Some xi /\ trunc_float y = Some yi
    /\ 0 <= xi < 4 - 1 /\ 0 <= yi < 4 - 1.
Proof.
  apply (init_opencv_valid_finite P_id [point (f32 5 (-1)) (f32 3 (-1)) fone] 4 4 0).
  reflexivity.
Defined.

(** ** Weights of a projection that falls on a pixel *)

Lemma Zdigits2_shift (m k : Z) :
  0 < m -> 0 <= k -> Zdigits2 (m * 2 ^ k) = Zdigits2 m + k.
Proof.
  intros Hm Hk. pose proof (Zdigits2_bounds m Hm) as [Hlo Hhi].
  pose proof (Zdigits2_pos m Hm) as Hd.
  assert (Hp : 0 < 2 ^ k) by (by apply pow2_pos).
  assert (H1 : m * 2 ^ k < 2 ^ (Zdigits2 m + k)).
  { rewrite Z.pow_add_r by lia. nia. }
  assert (H2 : 2 ^ (Zdigits2 m - 1 + k) <= m * 2 ^ k).
  { rewrite Z.pow_add_r by lia. nia. }
  pose proof (Zdigits2_le (m * 2 ^ k) (Zdigits2 m + k) ltac:(nia) ltac:(lia) H1).
  pose proof (Zdigits2_ge (m * 2 ^ k) (Zdigits2 m - 1 + k) ltac:(nia) H2).
  lia.
Qed.

(** A binary32 number whose mantissa was shifted left by 23 bits rounds
    back to itself. *)
Lemma binary_round_aux_shift (s : bool) (m : positive) (e : Z) :
  bounded prec emax m e = true ->
  binary_round_aux prec emax s (Zpos m * 2 ^ 23) (e - 23) loc_Exact = S754_finite s m e.
Proof.
  intros Hb. unfold bounded in Hb. apply andb_prop in Hb as [Hc He].
  unfold canonical_mantissa in Hc. apply Z.eqb_eq in Hc. apply Z.leb_le in He.
  rewrite fexp_eq in Hc.
  change (Zpos (digits2_pos m)) with (Zdigits2 (Zpos m)) in Hc.
  pose proof (Zdigits2_bounds (Zpos m) ltac:(done)) as [Hlo Hhi].
  pose proof (Zdigits2_pos (Zpos m) ltac:(done)) as Hd.
  set (M := Zpos m * 2 ^ 23).
  assert (HM : 0 <= M) by (subst M; lia).
  destruct (shr_fexp_shifted M (e - 23) HM) as (rec & k & Hshr & Hk & Hrec).
  unfold M in Hk at 1. rewrite Zdigits2_shift in Hk by lia.
  assert (Hk23 : k = 23) by lia. clear Hk. subst k.
  pose proof (round_nearest_even_shifted M 23 rec ltac:(lia) Hrec) as (_ & _ & _ & Hex).
  assert (Hm : shr_m rec = Zpos m).
  { destruct Hrec as (rem & HMeq & Hm0 & Hrem & _). subst M.
    assert (2 ^ 23 = 8388608) by done. lia. }
  specialize (Hex ltac:(by rewrite Hm)).
  assert (Hlt : Zpos m < 2 ^ 24).
  { assert (Zdigits2 (Zpos m) <= 24) by lia.
    assert (2 ^ Zdigits2 (Zpos m) <= 2 ^ 24) by (apply pow2_le; lia). lia. }
  unfold binary_round_aux. rewrite Hshr, Hex, Hm.
  replace (e - 23 + 23) with e by lia.
  destruct (shr_fexp_exact (Zpos m) e ltac:(lia) ltac:(lia))
    as (m3 & k2 & -> & _ & Hm3 & _ & Hk2).
  specialize (Hk2 Hlt). subst k2.
  rewrite Z.pow_0_r, Z.mul_1_r in Hm3. subst m3. cbn [shr_m].
  rewrite Z.add_0_r.
  assert (Hle : (e <=? emax - prec) = true) by (by apply Z.leb_le).
  by rewrite Hle.
Qed.

(** 1.0f times a binary32 number is that number. *)
Lemma fmul_fone_finite (s : bool) (m : positive) (e : Z) :
  bounded prec emax m e = true ->
  fmul fone (S754_finite s m e) = S754_finite s m e.
Proof.
  intros Hb.
  change (fmul fone (S754_finite s m e))
    with (binary_round_aux prec emax (xorb false s) (Zpos (8388608 * m)) (-23 + e) loc_Exact).
  replace (Zpos (8388608 * m)) with (Zpos m * 2 ^ 23) by (change (2 ^ 23) with 8388608; lia).
  replace (-23 + e) with (e - 23) by lia.
  by apply binary_round_aux_shift.
Qed.

Lemma fmul_fzero_finite (x : float) :
  finite_float x = true -> exists s, fmul fzero x = S754_zero s.
Proof. destruct x as [s|s| |s m e]; try done; intros _; by eexists. Qed.

Lemma fadd_zeros (s s' : bool) : exists s'', fadd (S754_zero s) (S754_zero s') = S754_zero s''.
Proof. destruct s, s'; by eexists. Qed.

(** With the weights (1, 0, 0, 0) the pairwise sum is its first neighbour,
    bit for bit, provided the other three are numbers. *)
Lemma unit_weight_sample (s : bool) (m : positive) (e : Z) (b c d : float) :
  bounded prec emax m e = true ->
  finite_float b = true -> finite_float c = true -> finite_float d = true ->
  fadd (fadd (fmul fone (S754_finite s m e)) (fmul fzero b))
       (fadd (fmul fzero c) (fmul fzero d))
  = S754_finite s m e.
Proof.
  intros Hbd Fb Fc Fd. rewrite (fmul_fone_finite _ _ _ Hbd).
  destruct (fmul_fzero_finite b Fb) as [sb ->].
  destruct (fmul_fzero_finite c Fc) as [sc ->].
  destruct (fmul_fzero_finite d Fd) as [sd ->].
  destruct (fadd_zeros sc sd) as [s' ->]. reflexivity.
Qed.

Lemma fsub_diag (s : bool) (m : positive) (e : Z) :
  fsub (S754_finite s m e) (S754_finite s m e) = fzero.
Proof.
  transitivity
    (binary_normalize prec emax
       (cond_Zopp s (Zpos (fst (shl_align m e (Z.min e e))))
        - cond_Zopp s (Zpos (fst (shl_align m e (Z.min e e))))) (Z.min e e) false);
    [reflexivity|].
  by rewrite Z.sub_diag.
Qed.

(** X9.  A valid point with the weights (1, 0, 0, 0), those of a
    projection that falls on a pixel, samples that pixel bit for bit when
    it is a non-zero binary32 number and the three other neighbours are
    numbers: [run] writes [I1[o] - I0[i]], in every build. *)
Theorem run_unit_weight_exact (WITH_SIMD SSE4_1 : bool) (this : Impl)
    (I0_ptr : float_ptr) (I1 : list float) (r_ptr : float_ptr)
    (i : nat) (o : Z) (s : bool) (m : positive) (e : Z) (b c d x : float) :
  run_pre WITH_SIMD this I0_ptr I1 r_ptr = true ->
  _valid_ptr this !! i = Some true ->
  _inds this !! i = Some o ->
  _interp_coeffs this !! i = Some (_mm_setr_ps fone fzero fzero fzero) ->
  rdZ I1 o = Some (S754_finite s m e) ->
  bounded prec emax m e = true ->
  rdZ I1 (o + 1) = Some b ->
  rdZ I1 (o + _stride this) = Some c ->
  rdZ I1 (o + _stride this + 1) = Some d ->
  finite_float b = true -> finite_float c = true -> finite_float d = true ->
  data I0_ptr !! i = Some x ->
  exists t r,
    run WITH_SIMD SSE4_1 this I0_ptr I1 r_ptr = (t, Ok r)
    /\ r !! i = Some (fsub (S754_finite s m e) x).
Proof.
  intros Hpre Hv Ho Hw Ha Hbd Hb Hc Hd Fb Fc Fd Hx.
  exists (reads_from WITH_SIMD this 0 (N this)),
         (residuals_upto WITH_SIMD SSE4_1 this I0_ptr I1 r_ptr (N this)).
  split; [by apply run_ok|].
  rewrite lookup_residuals_upto by (by apply lookup_lt_Some in Hw).
  rewrite (residual_valid_point _ _ _ _ _ _ _ _ _ _ _ _ _ Hv Ho Hw Ha Hb Hc Hd Hx).
  cbn [e0 e1 e2 e3]. by rewrite unit_weight_sample.
Qed.

Lemma run_unit_weight_exact_witness :
  exists t r,
    run true true pixel_point (buffer 0 (sevens 1)) image4x4 (buffer 16 [fzero]) = (t, Ok r)
    /\ r !! 0%nat = Some (fsub (S754_finite false 10485760 (-21)) (f32 7 0)).
Proof.
  apply (run_unit_weight_exact true true pixel_point (buffer 0 (sevens 1)) image4x4
           (buffer 16 [fzero]) 0 5 false 10485760 (-21) (f32 6 0) (f32 9 0) (f32 10 0)
           (f32 7 0)); reflexivity.
Defined.

(** X10.  Under the same weights, a point whose pixel [I1[o]] equals its
    reference intensity [I0[i]] gets the residual +0. *)
Theorem run_unit_weight_same_intensity (WITH_SIMD SSE4_1 : bool) (this : Impl)
    (I0_ptr : float_ptr) (I1 : list float) (r_ptr : float_ptr)
    (i : nat) (o : Z) (s : bool) (m : positive) (e : Z) (b c d : float) :
  run_pre WITH_SIMD this I0_ptr I1 r_ptr = true ->
  _valid_ptr this !! i = Some true ->
  _inds this !! i = Some o ->
  _interp_coeffs this !! i = Some (_mm_setr_ps fone fzero fzero fzero) ->
  rdZ I1 o = Some (S754_finite s m e) ->
  bounded prec emax m e = true ->
  rdZ I1 (o + 1) = Some b ->
  rdZ I1 (o + _stride this) = Some c ->
  rdZ I1 (o + _stride this + 1) = Some d ->
  finite_float b = true -> finite_float c = true -> finite_float d = true ->
  data I0_ptr !! i = Some (S754_finite s m e) ->
  exists t r,
    run WITH_SIMD SSE4_1 this I0_ptr I1 r_ptr = (t, Ok r)
    /\ r !! i = Some fzero.
Proof.
  intros Hpre Hv Ho Hw Ha Hbd Hb Hc Hd Fb Fc Fd Hx.
  exists (reads_from WITH_SIMD this 0 (N this)),
         (residuals_upto WITH_SIMD SSE4_1 this I0_ptr I1 r_ptr (N this)).
  split; [by apply run_ok|].
  rewrite lookup_residuals_upto by (by apply lookup_lt_Some in Hw).
  rewrite (residual_valid_point _ _ _ _ _ _ _ _ _ _ _ _ _ Hv Ho Hw Ha Hb Hc Hd Hx).
  cbn [e0 e1 e2 e3]. by rewrite unit_weight_sample, fsub_diag.
Qed.

Lemma run_unit_weight_same_intensity_witness :
  exists t r,
    run false true pixel_point (buffer 0 [f32 5 0]) image4x4 (buffer 16 [fone]) = (t, Ok r)
    /\ r !! 0%nat = Some fzero.
Proof.
  apply (run_unit_weight_same_intensity false true pixel_point (buffer 0 [f32 5 0]) image4x4
           (buffer 16 [fone]) 0 5 false 10485760 (-21) (f32 6 0) (f32 9 0) (f32 10 0));
    reflexivity.
Defined.

(** ** NaN and infinite pixels *)

Lemma fmul_poisons (w v : float) : poisons w v = true -> fmul w v = S754_nan.
Proof. destruct v as [s|s| |s m e], w as [s'|s'| |s' m' e']; done. Qed.

Lemma fadd_nan_l (y : float) : fadd S754_nan y = S754_nan.
Proof. by destruct y. Qed.

Lemma fadd_nan_r (x : float) : fadd x S754_nan = S754_nan.
Proof. by destruct x. Qed.

(** X11.  [run] does not mask pixels that are not numbers.  If one of the
    four neighbours of a valid point is NaN, or is an infinity under a zero
    weight, the residual of the point is NaN, whatever the other weights,
    the other neighbours and [I0[i]] are. *)
Theorem run_poisoned_neighbour (WITH_SIMD SSE4_1 : bool) (this : Impl)
    (I0_ptr : float_ptr) (I1 : list float) (r_ptr : float_ptr)
    (i : nat) (o : Z) (w : Vector4) (a b c d x : float) :
  run_pre WITH_SIMD this I0_ptr I1 r_ptr = true ->
  _valid_ptr this !! i = Some true ->
  _inds this !! i = Some o ->
  _interp_coeffs this !! i = Some w ->
  rdZ I1 o = Some a ->
  rdZ I1 (o + 1) = Some b ->
  rdZ I1 (o + _stride this) = Some c ->
  rdZ I1 (o + _stride this + 1) = Some d ->
  data I0_ptr !! i = Some x ->
  poisons (e0 w) a || poisons (e1 w) b || poisons (e2 w) c || poisons (e3 w) d = true ->
  exists t r,
    run WITH_SIMD SSE4_1 this I0_ptr I1 r_ptr = (t, Ok r)
    /\ r !! i = Some S754_nan.
Proof.
  intros Hpre Hv Ho Hw Ha Hb Hc Hd Hx Hp.
  exists (reads_from WITH_SIMD this 0 (N this)),
         (residuals_upto WITH_SIMD SSE4_1 this I0_ptr I1 r_ptr (N this)).
  split; [by apply run_ok|].
  rewrite lookup_residuals_upto by (by apply lookup_lt_Some in Hw).
  rewrite (residual_valid_point _ _ _ _ _ _ _ _ _ _ _ _ _ Hv Ho Hw Ha Hb Hc Hd Hx).
  f_equal.
  apply orb_prop in Hp as [Hp|Hp]; [apply orb_prop in Hp as [Hp|Hp];
    [apply orb_prop in Hp as [Hp|Hp]|]|];
    rewrite (fmul_poisons _ _ Hp);
    rewrite ?fadd_nan_l, ?fadd_nan_r, ?fadd_nan_l, ?fadd_nan_r; by destruct x.
Qed.

Lemma run_poisoned_neighbour_witness :
  exists t r,
    run false false pixel_point (buffer 0 (sevens 1))
      (<[6%nat := S754_infinity false]> image4x4) (buffer 16 [fzero]) = (t, Ok r)
    /\ r !! 0%nat = Some S754_nan.
Proof.
  apply (run_poisoned_neighbour false false pixel_point (buffer 0 (sevens 1))
           (<[6%nat := S754_infinity false]> image4x4) (buffer 16 [fzero]) 0 5
           (_mm_setr_ps fone fzero fzero fzero)
           (f32 5 0) (S754_infinity false) (f32 9 0) (f32 10 0) (f32 7 0)); reflexivity.
Defined.

(** * Classification and weights, on [projectPoints] as specified *)

(** ** What rounding can return *)

Lemma shr_m_shr_1 (rec : shr_record) :
  0 <= shr_m rec -> shr_m (shr_1 rec) = shr_m rec / 2.
Proof.
  destruct rec as [m r s]. simpl. intros Hm.
  destruct m as [|[p|p|]|p]; try lia; cbn [shr_m].
  - reflexivity.
  - apply (Z.div_unique_pos _ 2 _ 1); lia.
  - apply (Z.div_unique_pos _ 2 _ 0); lia.
  - reflexivity.
Qed.

Lemma shr_m_iter (k : nat) : forall rec : shr_record,
  0 <= shr_m rec -> shr_m (Nat.iter k shr_1 rec) = shr_m rec / 2 ^ Z.of_nat k.
Proof.
  induction k as [|k IH]; intros rec Hm.
  - simpl. by rewrite Z.div_1_r.
  - rewrite Nat.iter_succ_r, IH by (rewrite shr_m_shr_1 by done; by apply Z.div_pos).
    rewrite shr_m_shr_1 by done.
    rewrite Z.div_div by (try done; apply Z.pow_pos_nonneg; lia).
    f_equal. rewrite Nat2Z.inj_succ, Z.pow_succ_r by lia. done.
Qed.

Lemma shr_m_of_loc (M : Z) (l : location) : shr_m (shr_record_of_loc M l) = M.
Proof. by destruct l as [|[]]. Qed.

(** The mantissa after [shr_fexp], whatever the location it starts from. *)
Lemma shr_fexp_mantissa (M e : Z) (l : location) :
  0 <= M ->
  exists rec k,
    shr_fexp prec emax M e l = (rec, e + k)
    /\ k = Z.max 0 (Z.max (Zdigits2 M + e - 24) (-149) - e)
    /\ shr_m rec = M / 2 ^ k.
Proof.
  intros HM. unfold shr_fexp. rewrite fexp_eq.
  destruct (Z.max (Zdigits2 M + e - 24) (-149) - e) as [|p|p] eqn:Hn; simpl shr.
  - exists (shr_record_of_loc M l), 0. rewrite Z.add_0_r, shr_m_of_loc, Z.div_1_r. done.
  - exists (SpecFloat.iter_pos shr_1 p (shr_record_of_loc M l)), (Z.pos p).
    split; [done|]. split; [lia|].
    rewrite iter_pos_nat, shr_m_iter by (by rewrite shr_m_of_loc).
    rewrite shr_m_of_loc. f_equal. f_equal. lia.
  - exists (shr_record_of_loc M l), 0. rewrite Z.add_0_r, shr_m_of_loc, Z.div_1_r.
    split; [done|]. split; [lia|done].
Qed.

Lemma round_nearest_even_bounds (m : Z) (l : location) :
  m <= round_nearest_even m l <= m + 1.
Proof. destruct l as [|[]]; simpl; try lia. destruct (Z.even m); lia. Qed.

Lemma shr_fexp_exact_lt (m2 e1 : Z) :
  0 <= m2 <= 2 ^ 24 -> -149 <= e1 ->
  exists m3 k2,
    shr_fexp prec emax m2 e1 loc_Exact = ({| shr_m := m3; shr_r := false; shr_s := false |}, e1 + k2)
    /\ 0 <= k2 <= 1 /\ 0 <= m3 < 2 ^ 24.
Proof.
  intros Hm2 He1. unfold shr_fexp. rewrite fexp_eq.
  destruct (Z.eq_dec m2 (2 ^ 24)) as [->|Hne].
  - exists (2 ^ 23), 1. replace (Z.max _ _ - e1) with 1 by (simpl Zdigits2; lia).
    split; [|by vm_compute]. simpl. by rewrite Z.add_comm.
  - exists m2, 0.
    assert (Hn : Z.max (Zdigits2 m2 + e1 - 24) (-149) - e1 <= 0).
    { destruct (Z.eq_dec m2 0) as [->|Hz]; [simpl; lia|].
      pose proof (Zdigits2_le m2 24 ltac:(lia) ltac:(lia) ltac:(lia)). lia. }
    rewrite Z.add_0_r.
    destruct (Z.max (Zdigits2 m2 + e1 - 24) (-149) - e1) as [|q|q]; try lia; simpl;
      (split; [done|lia]).
Qed.

(** Whatever it is given, [binary_round_aux] returns a mantissa below 2^24
    and an exponent in [-149, 104]. *)
Lemma binary_round_aux_bounded (s : bool) (M e : Z) (l : location)
    (s' : bool) (m' : positive) (e' : Z) :
  0 <= M ->
  binary_round_aux prec emax s M e l = S754_finite s' m' e' ->
  Zpos m' < 2 ^ 24 /\ -149 <= e' <= 104.
Proof.
  intros HM. unfold binary_round_aux.
  destruct (shr_fexp_mantissa M e l HM) as (rec & k & -> & Hk & Hrec).
  pose proof (round_nearest_even_bounds (shr_m rec) (loc_of_shr_record rec)) as Hr.
  assert (Hlt : 0 <= shr_m rec < 2 ^ 24).
  { rewrite Hrec.
    assert (Hp : 0 < 2 ^ k) by (apply pow2_pos; lia).
    split; [by apply Z.div_pos|].
    apply Z.div_lt_upper_bound; [done|].
    destruct (Z.eq_dec M 0) as [->|Hnz]; [lia|].
    pose proof (Zdigits2_bounds M ltac:(lia)) as [_ Hhi].
    pose proof (Zdigits2_pos M ltac:(lia)) as Hd.
    assert (2 ^ Zdigits2 M <= 2 ^ (k + 24)) by (apply pow2_le; lia).
    rewrite Z.pow_add_r in * by lia. lia. }
  destruct (shr_fexp_exact_lt (round_nearest_even (shr_m rec) (loc_of_shr_record rec)) (e + k)
              ltac:(lia) ltac:(lia)) as (m3 & k2 & -> & Hk2 & Hm3).
  cbn [shr_m]. destruct m3 as [|q|q]; [done| |done].
  destruct (Z.leb_spec (e + k + k2) (emax - prec)) as [Hle|Hgt]; [|done].
  intros [= <- <- <-]. unfold emax, prec in Hle. lia.
Qed.

Lemma fdiv_bounded (a b : float) (s : bool) (m : positive) (e : Z) :
  fdiv a b = S754_finite s m e -> Zpos m < 2 ^ 24 /\ -149 <= e <= 104.
Proof.
  destruct a as [sa|sa| |sa ma ea], b as [sb|sb| |sb mb eb]; try done.
  unfold fdiv, SFdiv, SFdiv_core_binary.
  set (e' := Z.min _ _). set (m1 := match _ with Z0 => _ | Zpos _ => _ | Zneg _ => _ end).
  assert (Hm1 : 0 <= m1).
  { subst m1. destruct (ea - eb - e'); try lia. by apply Z.shiftl_nonneg. }
  pose proof (Z.div_pos m1 (Zpos mb) Hm1 ltac:(lia)) as Hq.
  unfold Z.div in Hq. destruct (Z.div_eucl m1 (Z.pos mb)) as [q r]. cbn [fst] in Hq.
  by apply binary_round_aux_bounded.
Qed.

(** ** Roundings that lose nothing *)

(** A mantissa below 2^24 with an exponent of the format is kept. *)
Lemma binary_round_aux_small (p : positive) (e : Z) :
  Zpos p < 2 ^ 24 -> -149 <= e <= 104 ->
  binary_round_aux prec emax false (Zpos p) e loc_Exact = S754_finite false p e.
Proof.
  intros Hp He.
  pose proof (Zdigits2_le (Zpos p) 24 ltac:(done) ltac:(done) Hp) as Hd.
  destruct (shr_fexp_shifted (Zpos p) e ltac:(done)) as (rec & k & Hshr & Hk & Hrec).
  assert (Hk0 : k = 0) by lia. clear Hk. subst k.
  pose proof (round_nearest_even_shifted (Zpos p) 0 rec ltac:(lia) Hrec) as (_ & _ & _ & Hex).
  pose proof (shifted_0_inv _ _ Hrec) as Hm. specialize (Hex ltac:(lia)).
  unfold binary_round_aux. rewrite Hshr, Hex, Hm, Z.add_0_r.
  destruct (shr_fexp_exact (Zpos p) e ltac:(lia) ltac:(lia)) as (m3 & k2 & -> & _ & Hm3 & _ & Hk2).
  specialize (Hk2 ltac:(lia)). subst k2.
  rewrite Z.pow_0_r, Z.mul_1_r in Hm3. subst m3. cbn [shr_m].
  rewrite Z.add_0_r.
  assert (Hle : (e <=? emax - prec) = true) by (apply Z.leb_le; unfold emax, prec; lia).
  by rewrite Hle.
Qed.

Lemma binary_round_exact (p : positive) (e : Z) :
  Zpos p < 2 ^ 24 -> -149 <= e <= 104 ->
  exists (mz : positive) (ez : Z),
    binary_round prec emax false p e = S754_finite false mz ez
    /\ -149 <= ez <= e /\ e - 23 <= ez /\ Zpos mz = Zpos p * 2 ^ (e - ez).
Proof.
  intros Hp He.
  pose proof (digits2_pos_bounds p) as [Hlo Hhi].
  set (d := Zpos (digits2_pos p)) in *.
  assert (Hd : 1 <= d <= 24).
  { split; [subst d; lia|]. apply (Zdigits2_le (Zpos p) 24); lia. }
  unfold binary_round.
  pose proof (shl_align_spec p e (fexp prec emax (Z.pos (digits2_pos p) + e))) as [Hez Hmz].
  destruct (shl_align p e _) as [mz ez]. cbn [fst snd] in Hez, Hmz.
  rewrite <- Hez in Hmz. rewrite fexp_eq in Hez. fold d in Hez.
  exists mz, ez.
  assert (Hp2 : 0 < 2 ^ (e - ez)) by (apply pow2_pos; lia).
  assert (Hmzlt : Zpos mz < 2 ^ 24).
  { rewrite Hmz.
    assert (2 ^ d * 2 ^ (e - ez) <= 2 ^ 24).
    { rewrite <- Z.pow_add_r by lia. apply pow2_le. lia. }
    nia. }
  rewrite binary_round_aux_small by (done || lia).
  split; [done|]. split; [lia|]. split; [lia|done].
Qed.

(** [binary_normalize] of an integer below 2^24, in units of 2^-149. *)
Lemma binary_normalize_exact (D e : Z) :
  0 <= D < 2 ^ 24 -> -149 <= e <= 104 ->
  finite_float (binary_normalize prec emax D e false) = true
  /\ on_grid 149 (binary_normalize prec emax D e false)
  /\ scaled 149 (binary_normalize prec emax D e false) = D * 2 ^ (e + 149).
Proof.
  intros HD He. destruct D as [|p|p]; [done| |lia].
  unfold binary_normalize.
  destruct (binary_round_exact p e ltac:(lia) He) as (mz & ez & -> & Hez & _ & Hmz).
  split; [done|]. split; [simpl; lia|]. simpl.
  rewrite Hmz, <- Z.mul_assoc, <- Z.pow_add_r by lia. do 2 f_equal. lia.
Qed.

(** A 24-digit mantissa shifted left by [n] bits rounds back to itself. *)
Lemma binary_round_aux_shift_left (q : positive) (n e : Z) :
  2 ^ 23 <= Zpos q < 2 ^ 24 -> 0 <= n -> -149 <= e + n <= 104 ->
  binary_round_aux prec emax false (Zpos q * 2 ^ n) e loc_Exact = S754_finite false q (e + n).
Proof.
  intros Hq Hn He.
  assert (Hd : Zdigits2 (Zpos q) = 24).
  { pose proof (Zdigits2_le (Zpos q) 24 ltac:(done) ltac:(done) ltac:(lia)).
    pose proof (Zdigits2_ge (Zpos q) 23 ltac:(done) ltac:(lia)). lia. }
  assert (Hpn : 0 < 2 ^ n) by (by apply pow2_pos).
  set (M := Zpos q * 2 ^ n).
  assert (HM : 0 <= M) by (subst M; lia).
  destruct (shr_fexp_shifted M e HM) as (rec & k & Hshr & Hk & Hrec).
  unfold M in Hk at 1. rewrite Zdigits2_shift, Hd in Hk by lia.
  assert (Hkn : k = n) by lia. clear Hk. subst k.
  pose proof (round_nearest_even_shifted M n rec Hn Hrec) as (_ & _ & _ & Hex).
  assert (Hm : shr_m rec = Zpos q).
  { destruct Hrec as (rem & HMeq & Hm0 & Hrem & _). subst M. nia. }
  specialize (Hex ltac:(by rewrite Hm)).
  unfold binary_round_aux. rewrite Hshr, Hex, Hm.
  destruct (shr_fexp_exact (Zpos q) (e + n) ltac:(lia) ltac:(lia))
    as (m3 & k2 & -> & _ & Hm3 & _ & Hk2).
  specialize (Hk2 ltac:(lia)). subst k2.
  rewrite Z.pow_0_r, Z.mul_1_r in Hm3. subst m3. cbn [shr_m].
  rewrite Z.add_0_r.
  assert (Hle : (e + n <=? emax - prec) = true) by (apply Z.leb_le; unfold emax, prec; lia).
  by rewrite Hle.
Qed.

(** The integer [m * 2^e] of a float converts to a float of the same
    value. *)
Lemma f32_pow_exact (m : positive) (e : Z) :
  Zpos m < 2 ^ 24 -> 0 <= e <= 104 ->
  exists (m' : positive) (e' : Z),
    f32 (Zpos m * 2 ^ e) 0 = S754_finite false m' e'
    /\ -23 <= e' <= e /\ Zpos m' = Zpos m * 2 ^ (e - e').
Proof.
  intros Hm He.
  pose proof (digits2_pos_bounds m) as [Hlo Hhi].
  set (d := Zpos (digits2_pos m)) in *.
  assert (Hd : 1 <= d <= 24).
  { split; [subst d; lia|]. apply (Zdigits2_le (Zpos m) 24); lia. }
  assert (Hpe : 0 < 2 ^ e) by (apply pow2_pos; lia).
  destruct (Z.le_gt_cases (d + e) 24) as [Hsmall|Hbig].
  - assert (Hxi : 0 < Zpos m * 2 ^ e < 2 ^ 24).
    { split; [lia|].
      assert (2 ^ d * 2 ^ e <= 2 ^ 24) by (rewrite <- Z.pow_add_r by lia; apply pow2_le; lia).
      nia. }
    destruct (f32_int_exact _ Hxi) as (mz & ez & -> & Hez & Hmz).
    exists mz, ez. split; [done|]. split; [lia|].
    rewrite Hmz, <- Z.mul_assoc, <- Z.pow_add_r by lia. first [done | do 2 f_equal; lia].
  - set (n := d + e - 24).
    assert (Hq : 2 ^ 23 <= Zpos m * 2 ^ (e - n) < 2 ^ 24).
    { assert (E1 : 2 ^ 23 = 2 ^ (d - 1) * 2 ^ (e - n)).
      { rewrite <- Z.pow_add_r by lia. f_equal. lia. }
      assert (E2 : 2 ^ 24 = 2 ^ d * 2 ^ (e - n)).
      { rewrite <- Z.pow_add_r by lia. f_equal. lia. }
      assert (0 < 2 ^ (e - n)) by (apply pow2_pos; lia).
      rewrite E1, E2. nia. }
    destruct (Zpos m * 2 ^ (e - n)) as [|q|q] eqn:Eq; try lia.
    exists q, n. split; [|split; [lia|done]].
    assert (EM : Zpos m * 2 ^ e = Zpos q * 2 ^ n).
    { rewrite <- Eq, <- Z.mul_assoc, <- Z.pow_add_r by lia. do 2 f_equal. lia. }
    assert (Hpn : 0 < 2 ^ n) by (apply pow2_pos; lia).
    destruct (Zpos m * 2 ^ e) as [|P|P] eqn:EP; try lia.
    assert (HdP : Zpos (digits2_pos P) = 24 + n).
    { change (Zpos (digits2_pos P)) with (Zdigits2 (Zpos P)). rewrite EM.
      rewrite Zdigits2_shift by lia.
      pose proof (Zdigits2_le (Zpos q) 24 ltac:(done) ltac:(done) ltac:(lia)).
      pose proof (Zdigits2_ge (Zpos q) 23 ltac:(done) ltac:(lia)). lia. }
    unfold f32, binary_normalize, binary_round.
    rewrite HdP, fexp_eq. unfold shl_align.
    replace (Z.max (24 + n + 0 - 24) (-149) - 0) with n by lia.
    destruct n as [|pn|pn] eqn:En; try lia.
    rewrite EM. rewrite <- En.
    rewrite (binary_round_aux_shift_left q n 0) by lia. done.
Qed.

(** Two floats of the same value have the difference +0. *)
Lemma fsub_same_value (m : positive) (e : Z) (m' : positive) (e' : Z) :
  e' <= e -> Zpos m' = Zpos m * 2 ^ (e - e') ->
  fsub (S754_finite false m e) (S754_finite false m' e') = S754_zero false.
Proof.
  intros He Hm.
  pose proof (shl_align_spec m e (Z.min e e')) as [_ Ha].
  pose proof (shl_align_spec m' e' (Z.min e e')) as [_ Hb].
  replace (Z.min e (Z.min e e')) with e' in Ha by lia.
  replace (Z.min e' (Z.min e e')) with e' in Hb by lia.
  rewrite Z.sub_diag, Z.pow_0_r, Z.mul_1_r in Hb.
  transitivity
    (binary_normalize prec emax
       (Zpos (fst (shl_align m e (Z.min e e'))) - Zpos (fst (shl_align m' e' (Z.min e e'))))
       (Z.min e e') false); [reflexivity|].
  rewrite Ha, Hb, Hm, Z.sub_diag. reflexivity.
Qed.

(** ** The fractional part of a coordinate *)

(** [x - floor x] is computed without rounding when [x] is a binary32
    number that is not negative: in units of 2^-149 it is the difference
    itself, and it is below 1. *)
Lemma frac_exact (x : float) (xi : Z) :
  (forall sg m e, x = S754_finite sg m e -> Zpos m < 2 ^ 24 /\ -149 <= e <= 104) ->
  floor_float x = Some xi -> 0 <= xi ->
  finite_float (fsub x (f32 xi 0)) = true
  /\ on_grid 149 (fsub x (f32 xi 0))
  /\ scaled 149 (fsub x (f32 xi 0)) = scaled 149 x - xi * 2 ^ 149
  /\ 0 <= scaled 149 (fsub x (f32 xi 0)) < 2 ^ 149.
Proof.
  intros Hb Hfl Hxi.
  destruct x as [sg|sg| |sg m e]; try done.
  - injection Hfl as <-. by destruct sg.
  - pose proof (floor_float_nonneg_sign _ _ _ _ Hfl Hxi) as ->.
    destruct (Hb false m e eq_refl) as [Hm He]. clear Hb.
    pose proof (floor_float_spec _ _ _ _ Hfl) as Hsp. simpl cond_Zopp in Hsp.
    assert (HS : 0 < 2 ^ 149) by done.
    destruct (Z.leb_spec 0 e) as [He0|He0].
    + subst xi.
      destruct (f32_pow_exact m e Hm ltac:(lia)) as (m' & e' & -> & He' & Hm').
      rewrite (fsub_same_value m e m' e') by (lia || done).
      split; [done|]. split; [done|]. simpl.
      rewrite (Z.pow_add_r 2 e 149) by lia. lia.
    + assert (HE : 0 < 2 ^ (- e)) by (apply pow2_pos; lia).
      assert (HB : 2 ^ (- e) * 2 ^ (e + 149) = 2 ^ 149).
      { rewrite <- Z.pow_add_r by lia. f_equal. lia. }
      assert (HP : 0 < 2 ^ (e + 149)) by (apply pow2_pos; lia).
      destruct (Z.eq_dec xi 0) as [->|Hnz].
      * change (f32 0 0) with (S754_zero false).
        change (fsub (S754_finite false m e) (S754_zero false)) with (S754_finite false m e).
        split; [done|]. split; [simpl; lia|]. simpl. nia.
      * assert (Hxi24 : 0 < xi < 2 ^ 24) by nia.
        destruct (f32_int_exact xi Hxi24) as (mz & ez & -> & Hez & Hmz).
        assert (He23 : -23 <= e).
        { assert (2 ^ (- e) < 2 ^ 24) by nia.
          pose proof (pow2_lt_inv (- e) 24 ltac:(lia) ltac:(lia) ltac:(done)). lia. }
        set (ez' := Z.min e ez).
        pose proof (shl_align_spec m e ez') as [_ Ha].
        pose proof (shl_align_spec mz ez ez') as [_ Hc].
        replace (Z.min e ez') with ez' in Ha by lia.
        replace (Z.min ez ez') with ez' in Hc by lia.
        set (A := 2 ^ (e - ez')) in *.
        assert (HA : 0 < A) by (apply pow2_pos; lia).
        assert (Hc' : Zpos (fst (shl_align mz ez ez')) = xi * (2 ^ (- e) * A)).
        { rewrite Hc, Hmz. unfold A. rewrite <- Z.mul_assoc, <- !Z.pow_add_r by lia.
          do 2 f_equal. lia. }
        set (D := Zpos (fst (shl_align m e ez')) - Zpos (fst (shl_align mz ez ez'))).
        assert (HD : D = (Zpos m - xi * 2 ^ (- e)) * A).
        { unfold D. rewrite Ha, Hc'. ring. }
        assert (HAC : A * 2 ^ (ez' + 149) = 2 ^ (e + 149)).
        { unfold A. rewrite <- Z.pow_add_r by lia. f_equal. lia. }
        assert (HEA : 2 ^ (- e) * A <= 2 ^ 23).
        { unfold A. rewrite <- Z.pow_add_r by lia. apply pow2_le. lia. }
        assert (HD24 : 0 <= D < 2 ^ 24).
        { rewrite HD. assert (2 ^ 23 < 2 ^ 24) by done. nia. }
        change (fsub (S754_finite false m e) (S754_finite false mz ez))
          with (binary_normalize prec emax D ez' false).
        destruct (binary_normalize_exact D ez' HD24 ltac:(lia)) as (Hf & Hg & Hs).
        split; [done|]. split; [done|]. rewrite Hs.
        assert (Hval : D * 2 ^ (ez' + 149) = Zpos m * 2 ^ (e + 149) - xi * 2 ^ 149).
        { rewrite HD, <- HB, <- HAC. ring. }
        rewrite Hval. simpl scaled. split; [done|]. nia.
Qed.

Lemma unit_float_scaled (x : float) :
  finite_float x = true -> on_grid 149 x -> 0 <= scaled 149 x <= 2 ^ 149 -> unit_float x.
Proof.
  destruct x as [sg|sg| |sg m e]; try done. cbn [finite_float on_grid scaled unit_float].
  intros _ He Hs.
  assert (HP : 0 < 2 ^ (e + 149)) by (apply pow2_pos; lia).
  destruct sg; cbn [cond_Zopp] in Hs.
  { pose proof (Z.mul_neg_pos (Z.neg m) _ ltac:(lia) HP). change (- Z.pos m) with (Z.neg m) in Hs. lia. }
  assert (He0 : e <= 0).
  { destruct (Z.le_gt_cases e 0) as [|Hgt]; [done|].
    assert (H150 : 2 ^ 150 <= 2 ^ (e + 149)) by (apply pow2_le; lia).
    assert (HS : 2 ^ 150 = 2 * 2 ^ 149) by done.
    assert (0 < 2 ^ 149) by done.
    assert (2 ^ (e + 149) <= Z.pos m * 2 ^ (e + 149)) by nia.
    lia. }
  split; [done|].
  assert (HB : 2 ^ (- e) * 2 ^ (e + 149) = 2 ^ 149).
  { rewrite <- Z.pow_add_r by lia. f_equal. lia. }
  nia.
Qed.

Lemma frac_Q (x dx : float) (xi : Z) :
  on_grid 149 x -> on_grid 149 dx ->
  scaled 149 dx = scaled 149 x - xi * 2 ^ 149 ->
  0 <= scaled 149 dx < 2 ^ 149 ->
  (F2Q dx == F2Q x - inject_Z xi)%Q /\ (0 <= F2Q dx)%Q /\ (F2Q dx < 1)%Q.
Proof.
  intros Hgx Hgd Heq Hr.
  pose proof (F2Q_scaled 149 x ltac:(lia) Hgx) as Ex.
  pose proof (F2Q_scaled 149 dx ltac:(lia) Hgd) as Ed.
  assert (Hp : (0 < inject_Z (2 ^ 149))%Q) by done.
  destruct Hr as [Hlo Hhi].
  rewrite Zle_Qle in Hlo. rewrite Zlt_Qlt in Hhi.
  rewrite Heq in Ed, Hlo, Hhi.
  unfold Z.sub in Ed, Hlo, Hhi.
  rewrite inject_Z_plus, inject_Z_opp, inject_Z_mult in Ed, Hlo, Hhi.
  set (S := inject_Z (2 ^ 149)) in *.
  set (a := F2Q dx) in *. set (b := F2Q x) in *.
  set (sx := inject_Z (scaled 149 x)) in *. set (q := inject_Z xi) in *.
  change (inject_Z 0) with 0%Q in Hlo.
  split; [|split].
  - apply (Qmult_inj_r _ _ S); [lra|]. lra.
  - apply (Qmult_le_r _ _ S Hp). lra.
  - apply (Qmult_lt_r _ _ S Hp). lra.
Qed.

Lemma floor_float_fdiv_zero (a z : float) :
  is_zero z = true -> floor_float (fdiv a z) = None.
Proof. destruct z as [sz|sz| |sz mz ez]; try done. by destruct a. Qed.


(** One point, as [projectPoints] of the specification treats it. *)
Lemma project_point_floor (P : Matrix34) (size : ImageSize) (Xi : Point) (xi yi : Z) :
  floor_float (fdiv (p0 (Matrix34_mul P Xi)) (p2 (Matrix34_mul P Xi))) = Some xi ->
  floor_float (fdiv (p1 (Matrix34_mul P Xi)) (p2 (Matrix34_mul P Xi))) = Some yi ->
  project_point P size Xi
  = if inside (rows size) (cols size) xi yi
    then (true, yi * cols size + xi,
          bilinear_weights
            (fsub (fdiv (p0 (Matrix34_mul P Xi)) (p2 (Matrix34_mul P Xi))) (f32 xi 0))
            (fsub (fdiv (p1 (Matrix34_mul P Xi)) (p2 (Matrix34_mul P Xi))) (f32 yi 0)))
    else (false, 0, zero4).
Proof.
  intros Hx Hy. unfold project_point.
  destruct (is_zero (p2 (Matrix34_mul P Xi))) eqn:Hz.
  - by rewrite (floor_float_fdiv_zero _ _ Hz) in Hx.
  - by rewrite Hx, Hy.
Qed.

Lemma project_point_valid_floor (P : Matrix34) (size : ImageSize) (Xi : Point) :
  fst (fst (project_point P size Xi)) = true ->
  exists xi yi : Z,
    floor_float (fdiv (p0 (Matrix34_mul P Xi)) (p2 (Matrix34_mul P Xi))) = Some xi
    /\ floor_float (fdiv (p1 (Matrix34_mul P Xi)) (p2 (Matrix34_mul P Xi))) = Some yi
    /\ inside (rows size) (cols size) xi yi = true.
Proof.
  unfold project_point.
  destruct (is_zero (p2 (Matrix34_mul P Xi))); [done|].
  destruct (floor_float (fdiv (p0 _) _)) as [xi|]; [|done].
  destruct (floor_float (fdiv (p1 _) _)) as [yi|]; [|done].
  destruct (inside (rows size) (cols size) xi yi) eqn:Hin; [|done].
  intros _. by exists xi, yi.
Qed.


Lemma floor_float_Q (x : float) (xi : Z) :
  floor_float x = Some xi ->
  (inject_Z xi <= F2Q x)%Q /\ (F2Q x < inject_Z (xi + 1))%Q.
Proof.
  intros Hfl. destruct x as [sg|sg| |sg m e]; try done.
  - injection Hfl as <-. done.
  - pose proof (floor_float_spec _ _ _ _ Hfl) as Hsp.
    destruct (Z.leb_spec 0 e) as [He|He].
    + pose proof (F2Q_scaled 0 (S754_finite sg m e) ltac:(lia) ltac:(simpl; lia)) as E.
      simpl scaled in E. rewrite Z.add_0_r, <- Hsp in E.
      change (inject_Z (2 ^ 0)) with 1%Q in E. rewrite Qmult_1_r in E.
      rewrite E, <- Zle_Qle, <- Zlt_Qlt. lia.
    + pose proof (F2Q_scaled (- e) (S754_finite sg m e) ltac:(lia) ltac:(simpl; lia)) as E.
      simpl scaled in E. rewrite Z.add_opp_diag_r, Z.mul_1_r in E.
      assert (Hp : (0 < inject_Z (2 ^ (- e)))%Q).
      { change 0%Q with (inject_Z 0). rewrite <- Zlt_Qlt. apply pow2_pos. lia. }
      destruct Hsp as [Hlo Hhi].
      rewrite Zle_Qle, inject_Z_mult in Hlo. rewrite Zlt_Qlt, inject_Z_mult in Hhi.
      set (S := inject_Z (2 ^ (- e))) in *. set (f := F2Q (S754_finite sg m e)) in *.
      set (M := inject_Z (cond_Zopp sg (Z.pos m))) in *.
      split.
      * apply (Qmult_le_r _ _ S Hp). lra.
      * apply (Qmult_lt_r _ _ S Hp). lra.
Qed.

Lemma on_grid_fdiv (a b : float) : on_grid 149 (fdiv a b).
Proof.
  destruct (fdiv a b) as [sg|sg| |sg m e] eqn:E; try done.
  destruct (fdiv_bounded _ _ _ _ _ E) as [_ He]. simpl. lia.
Qed.

(** The fractional part of a quotient whose floor is not negative. *)
Lemma frac_fdiv (a b : float) (xi : Z) :
  floor_float (fdiv a b) = Some xi -> 0 <= xi ->
  unit_float (fsub (fdiv a b) (f32 xi 0))
  /\ (F2Q (fsub (fdiv a b) (f32 xi 0)) == F2Q (fdiv a b) - inject_Z xi)%Q
  /\ (0 <= F2Q (fsub (fdiv a b) (f32 xi 0)))%Q
  /\ (F2Q (fsub (fdiv a b) (f32 xi 0)) < 1)%Q.
Proof.
  intros Hfl Hxi.
  destruct (frac_exact (fdiv a b) xi) as (Hf & Hg & Hs & Hr); [|done|done|].
  { intros sg m e E. by apply (fdiv_bounded a b sg m e). }
  split; [apply unit_float_scaled; [done|done|lia]|].
  by apply frac_Q; [apply on_grid_fdiv|..].
Qed.

(** C7, on [projectPoints] as the spec describes it.  For every point that
    [init] marks valid, with [(x, y)] the projected coordinate of [X[i]],
    [p = P * X[i]] divided through by its scale, and [(xi, yi)] its floors:
    [dx = x - xi] and [dy = y - yi] are computed without rounding, so they
    are the fractional parts and lie in [0, 1); the cached coefficients are
    [(1-dx)(1-dy)], [dx(1-dy)], [(1-dx)dy], [dx*dy] in single precision;
    each weight lies in [0, 1] and the weights sum to 1 within 1e-6. *)
Theorem init_weights (this : Impl) (P : Matrix34) (X : list Point) (valid : list bool)
    (rows cols : Z) (i : nat) :
  snd (init projectPoints_spec this P X valid rows cols) !! i = Some true ->
  exists (Xi : Point) (x y dx dy : float) (xi yi : Z) (w : Vector4),
    X !! i = Some Xi
    /\ x = fdiv (p0 (Matrix34_mul P Xi)) (p2 (Matrix34_mul P Xi))
    /\ y = fdiv (p1 (Matrix34_mul P Xi)) (p2 (Matrix34_mul P Xi))
    /\ floor_float x = Some xi /\ floor_float y = Some yi
    /\ dx = fsub x (f32 xi 0) /\ dy = fsub y (f32 yi 0)
    /\ (F2Q dx == F2Q x - inject_Z xi)%Q /\ (F2Q dy == F2Q y - inject_Z yi)%Q
    /\ (0 <= F2Q dx)%Q /\ (F2Q dx < 1)%Q /\ (0 <= F2Q dy)%Q /\ (F2Q dy < 1)%Q
    /\ _interp_coeffs (fst (init projectPoints_spec this P X valid rows cols)) !! i = Some w
    /\ w = _mm_setr_ps (fmul (fsub fone dx) (fsub fone dy)) (fmul dx (fsub fone dy))
                       (fmul (fsub fone dx) dy) (fmul dx dy)
    /\ (0 <= F2Q (e0 w) <= 1)%Q /\ (0 <= F2Q (e1 w) <= 1)%Q
    /\ (0 <= F2Q (e2 w) <= 1)%Q /\ (0 <= F2Q (e3 w) <= 1)%Q
    /\ (Qabs (F2Q (e0 w) + F2Q (e1 w) + F2Q (e2 w) + F2Q (e3 w) - 1) <= 1 # 1000000)%Q.
Proof.
  intros Hv.
  destruct (lookup_lt_is_Some_2 X i) as [Xi Hi].
  { apply lookup_lt_Some in Hv. unfold init in Hv.
    destruct X as [|X0 X']; [simpl in Hv; lia|].
    unfold projectPoints_spec in Hv. cbn [fst snd] in Hv.
    by rewrite !length_map in Hv. }
  destruct (init_projectPoints_spec_lookup this P X valid rows cols i Xi Hi)
    as (Hv' & _ & _ & Hw).
  rewrite Hv' in Hv. injection Hv as Hv. rewrite Hw. clear Hv' Hw.
  destruct (project_point_valid_floor _ _ _ Hv) as (xi & yi & Hx & Hy & Hin).
  rewrite (project_point_floor _ _ _ _ _ Hx Hy), Hin. cbn [snd].
  simpl in Hin. unfold inside in Hin. repeat (apply andb_prop in Hin as [Hin ?]).
  repeat match goal with
         | H : (_ <=? _) = true |- _ => apply Z.leb_le in H
         | H : (_ <? _) = true |- _ => apply Z.ltb_lt in H
         end.
  destruct (frac_fdiv _ _ _ Hx ltac:(done)) as (Hux & Hex & Hx0 & Hx1).
  destruct (frac_fdiv _ _ _ Hy ltac:(done)) as (Huy & Hey & Hy0 & Hy1).
  destruct (bilinear_weights_sum _ _ Hux Huy) as ((Hw0 & Hw1 & Hw2 & Hw3) & Hsum).
  eexists Xi, _, _, _, _, xi, yi, _.
  split; [done|]. split; [reflexivity|]. split; [reflexivity|].
  split; [done|]. split; [done|]. split; [reflexivity|]. split; [reflexivity|].
  split; [done|]. split; [done|].
  split; [done|]. split; [done|]. split; [done|]. split; [done|].
  split; [reflexivity|]. split; [reflexivity|].
  repeat (split; [by apply F2Q_unit|]).
  done.
Qed.

Lemma init_weights_witness :
  exists (Xi : Point) (x y dx dy : float) (xi yi : Z) (w : Vector4),
    [point (f32 3 (-1)) (f32 3 (-1)) fone] !! 0%nat = Some Xi
    /\ x = fdiv (p0 (Matrix34_mul P_id Xi)) (p2 (Matrix34_mul P_id Xi))
    /\ y = fdiv (p1 (Matrix34_mul P_id Xi)) (p2 (Matrix34_mul P_id Xi))
    /\ floor_float x = Some xi /\ floor_float y = Some yi
    /\ dx = fsub x (f32 xi 0) /\ dy = fsub y (f32 yi 0)
    /\ (F2Q dx == F2Q x - inject_Z xi)%Q /\ (F2Q dy == F2Q y - inject_Z yi)%Q
    /\ (0 <= F2Q dx)%Q /\ (F2Q dx < 1)%Q /\ (0 <= F2Q dy)%Q /\ (F2Q dy < 1)%Q
    /\ _interp_coeffs
         (fst (init projectPoints_spec Impl_new P_id [point (f32 3 (-1)) (f32 3 (-1)) fone] [] 4 4))
         !! 0%nat = Some w
    /\ w = _mm_setr_ps (fmul (fsub fone dx) (fsub fone dy)) (fmul dx (fsub fone dy))
                       (fmul (fsub fone dx) dy) (fmul dx dy)
    /\ (0 <= F2Q (e0 w) <= 1)%Q /\ (0 <= F2Q (e1 w) <= 1)%Q
    /\ (0 <= F2Q (e2 w) <= 1)%Q /\ (0 <= F2Q (e3 w) <= 1)%Q
    /\ (Qabs (F2Q (e0 w) + F2Q (e1 w) + F2Q (e2 w) + F2Q (e3 w) - 1) <= 1 # 1000000)%Q.
Proof.
  apply (init_weights Impl_new P_id [point (f32 3 (-1)) (f32 3 (-1)) fone] [] 4 4 0).
  reflexivity.
Defined.

(** The flag of one point, as [projectPoints] of the specification sets it:
    the margin rule on the floors of the projected coordinate, and false
    where the coordinate has no floor. *)
Lemma project_point_flag (P : Matrix34) (r c : Z) (Xi : Point) :
  fst (fst (project_point P {| rows := r; cols := c |} Xi))
  = match floor_float (fdiv (p0 (Matrix34_mul P Xi)) (p2 (Matrix34_mul P Xi))),
          floor_float (fdiv (p1 (Matrix34_mul P Xi)) (p2 (Matrix34_mul P Xi))) with
    | Some xi, Some yi => (0 <=? xi) && (xi <? c - 1) && (0 <=? yi) && (yi <? r - 1)
    | _, _ => false
    end.
Proof.
  unfold project_point.
  destruct (is_zero (p2 (Matrix34_mul P Xi))) eqn:Hz.
  - by rewrite (floor_float_fdiv_zero _ _ Hz).
  - destruct (floor_float (fdiv (p0 _) _)) as [xi|]; [|done].
    destruct (floor_float (fdiv (p1 _) _)) as [yi|]; [|done].
    simpl. unfold inside.
    by destruct ((0 <=? xi) && (xi <? c - 1) && (0 <=? yi) && (yi <? r - 1)).
Qed.

(** C4, on [projectPoints] as the spec describes it.  With [(x, y)] the
    projected coordinate of [X[i]], [p = P * X[i]] divided through by its
    scale, [init] sets [valid[i]], in the caller's vector and in the flags
    [run] consults, to [(0 <= xi < cols-1) AND (0 <= yi < rows-1)] on the
    floors [(xi, yi)] of [(x, y)], and to false where the coordinate is not
    a number and has no floor.  The floors are the floors, [xi <= x < xi+1]
    and [yi <= y < yi+1]; so a point with [xi = cols-1] or [yi = rows-1] is
    invalid, and a point with floors in [0, cols-2] x [0, rows-2] is
    valid. *)
Theorem init_valid_floor (this : Impl) (P : Matrix34) (X : list Point) (valid : list bool)
    (rows cols : Z) (i : nat) (Xi : Point) (x y : float) :
  X !! i = Some Xi ->
  x = fdiv (p0 (Matrix34_mul P Xi)) (p2 (Matrix34_mul P Xi)) ->
  y = fdiv (p1 (Matrix34_mul P Xi)) (p2 (Matrix34_mul P Xi)) ->
  snd (init projectPoints_spec this P X valid rows cols) !! i
  = Some match floor_float x, floor_float y with
         | Some xi, Some yi => (0 <=? xi) && (xi <? cols - 1) && (0 <=? yi) && (yi <? rows - 1)
         | _, _ => false
         end
  /\ _valid_ptr (fst (init projectPoints_spec this P X valid rows cols)) !! i
     = snd (init projectPoints_spec this P X valid rows cols) !! i
  /\ forall xi yi : Z,
       floor_float x = Some xi -> floor_float y = Some yi ->
       (inject_Z xi <= F2Q x)%Q /\ (F2Q x < inject_Z (xi + 1))%Q
       /\ (inject_Z yi <= F2Q y)%Q /\ (F2Q y < inject_Z (yi + 1))%Q
       /\ snd (init projectPoints_spec this P X valid rows cols) !! i
          = Some ((0 <=? xi) && (xi <? cols - 1) && (0 <=? yi) && (yi <? rows - 1))
       /\ (xi = cols - 1 \/ yi = rows - 1 ->
           snd (init projectPoints_spec this P X valid rows cols) !! i = Some false)
       /\ (0 <= xi <= cols - 2 -> 0 <= yi <= rows - 2 ->
           snd (init projectPoints_spec this P X valid rows cols) !! i = Some true).
Proof.
  intros Hi -> ->.
  destruct (init_projectPoints_spec_lookup this P X valid rows cols i Xi Hi)
    as (Hv & Hv' & _ & _).
  rewrite Hv, Hv', project_point_flag.
  split; [done|]. split; [done|].
  intros xi yi Hx Hy. rewrite Hx, Hy.
  destruct (floor_float_Q _ _ Hx) as [Hx0 Hx1].
  destruct (floor_float_Q _ _ Hy) as [Hy0 Hy1].
  repeat (split; [done|]). split.
  - intros Hb. f_equal.
    destruct Hb as [-> | ->]; rewrite Z.ltb_irrefl; by rewrite ?andb_false_r.
  - intros Hxi Hyi. f_equal.
    destruct (Z.leb_spec 0 xi); [|lia]. destruct (Z.ltb_spec xi (cols - 1)); [|lia].
    destruct (Z.leb_spec 0 yi); [|lia]. destruct (Z.ltb_spec yi (rows - 1)); [|lia].
    done.
Qed.

Lemma init_valid_floor_witness :
  snd (init projectPoints_spec Impl_new P_id [point (f32 5 (-1)) (f32 3 (-1)) fone] [] 4 4)
    !! 0%nat
  = Some match floor_float (f32 5 (-1)), floor_float (f32 3 (-1)) with
         | Some xi, Some yi => (0 <=? xi) && (xi <? 4 - 1) && (0 <=? yi) && (yi <? 4 - 1)
         | _, _ => false
         end
  /\ _valid_ptr
       (fst (init projectPoints_spec Impl_new P_id [point (f32 5 (-1)) (f32 3 (-1)) fone] [] 4 4))
       !! 0%nat
     = snd (init projectPoints_spec Impl_new P_id [point (f32 5 (-1)) (f32 3 (-1)) fone] [] 4 4)
         !! 0%nat
  /\ forall xi yi : Z,
       floor_float (f32 5 (-1)) = Some xi -> floor_float (f32 3 (-1)) = Some yi ->
       (inject_Z xi <= F2Q (f32 5 (-1)))%Q /\ (F2Q (f32 5 (-1)) < inject_Z (xi + 1))%Q
       /\ (inject_Z yi <= F2Q (f32 3 (-1)))%Q /\ (F2Q (f32 3 (-1)) < inject_Z (yi + 1))%Q
       /\ snd (init projectPoints_spec Impl_new P_id
                 [point (f32 5 (-1)) (f32 3 (-1)) fone] [] 4 4) !! 0%nat
          = Some ((0 <=? xi) && (xi <? 4 - 1) && (0 <=? yi) && (yi <? 4 - 1))
       /\ (xi = 4 - 1 \/ yi = 4 - 1 ->
           snd (init projectPoints_spec Impl_new P_id
                  [point (f32 5 (-1)) (f32 3 (-1)) fone] [] 4 4) !! 0%nat = Some false)
       /\ (0 <= xi <= 4 - 2 -> 0 <= yi <= 4 - 2 ->
           snd (init projectPoints_spec Impl_new P_id
                  [point (f32 5 (-1)) (f32 3 (-1)) fone] [] 4 4) !! 0%nat = Some true).
Proof.
  apply (init_valid_floor Impl_new P_id [point (f32 5 (-1)) (f32 3 (-1)) fone] [] 4 4 0
           (point (f32 5 (-1)) (f32 3 (-1)) fone) (f32 5 (-1)) (f32 3 (-1)));
    reflexivity.
Defined.


(** The coordinate (-0.5, 1) has the floors (-1, 1) and is invalid. *)
Lemma init_negative_fraction :
  snd (init projectPoints_spec Impl_new P_id
         [point (S754_finite true 8388608 (-24)) fone fone] [] 4 4) = [false].
Proof. reflexivity. Qed.


(** A scale so near zero that the quotient overflows: with scale 2^-130
    the coordinate 1 / 2^-130 is an infinity, and the point is invalid. *)
Lemma init_overflow_invalid :
  finite_float (fdiv (p0 (Matrix34_mul P_id (point fone fone (f32 1 (-130)))))
                     (p2 (Matrix34_mul P_id (point fone fone (f32 1 (-130)))))) = false
  /\ snd (init projectPoints_spec Impl_new P_id [point fone fone (f32 1 (-130))] [] 4 4)
     = [false].
Proof. split; reflexivity. Qed.

